(** * A relational engine in Python: schema catalog, index set, row store
      and query executor, embedded in Rocq.

    The development follows the layout of the sources:
    - [Py] is the part of the Python runtime the engine relies on: dynamic
      values, [str], [int], [float], comparisons, dictionaries, row
      objects and [list.sort];
    - [Column], [TableSchema] and [SchemaManager] are the classes of
      [database/schema.py];
    - [Index] and [IndexManager] are the classes of [database/indexer.py];
    - [StorageEngine] is the class of [database/storage.py];
    - [QueryExecutor] is the class of [database/executor.py], over the
      commands the parser of [database/parser.py] produces;
    and it ends with the properties of the engine. *)

From Stdlib Require Import ZArith List String Ascii Bool Lia DecimalString.
From Stdlib Require Import Floats.SpecFloat.
From Stdlib Require Import DecimalPos.
From stdpp Require Import base gmap strings list.

Local Open Scope string_scope.
Local Open Scope list_scope.

(* ===================================================================== *)
(** * The Python runtime                                                  *)
(* ===================================================================== *)

Module Py.

(** ** Exceptions and results *)

(** The exception classes the engine can meet.  All of them derive from
    [Exception]. *)
Inductive exn : Type :=
  | ValueError (msg : string)
  | TypeError (msg : string)
  | KeyError (key : string)
  | OverflowError (msg : string).

(** The outcome of an expression that may raise. *)
Inductive result (A : Type) : Type :=
  | Ok (a : A)
  | Raise (e : exn).
Arguments Ok {A} a.
Arguments Raise {A} e.

Definition rbind {A B} (r : result A) (k : A -> result B) : result B :=
  match r with
  | Ok a => k a
  | Raise e => Raise e
  end.

Declare Scope py_scope.
Delimit Scope py_scope with py.
Notation "x <- c1 ;; c2" := (rbind c1 (fun x => c2))
  (at level 100, c1 at next level, right associativity) : py_scope.

(** ** Values *)

(** Python floats are IEEE 754 binary64 numbers. *)
Definition float : Type := spec_float.
Definition prec : Z := 53.
Definition emax : Z := 1024.

(** The scalars the parser produces and the validator returns.  A
    character of a [string] stands for one code point below 256. *)
Inductive value : Type :=
  | VNone
  | VBool (b : bool)
  | VInt (n : Z)
  | VFloat (f : float)
  | VStr (s : string).

(** [type(v).__name__] *)
Definition type_name (v : value) : string :=
  match v with
  | VNone => "NoneType"
  | VBool _ => "bool"
  | VInt _ => "int"
  | VFloat _ => "float"
  | VStr _ => "str"
  end.

Definition is_None (v : value) : bool :=
  match v with VNone => true | _ => false end.

(** ** Characters and strings *)

Definition code (c : ascii) : N := N_of_ascii c.

(** [str.isspace] on one character (code points below 256). *)
Definition is_space (c : ascii) : bool :=
  let n := code c in
  ((9 <=? n) && (n <=? 13) || (28 <=? n) && (n <=? 32)
   || (n =? 133) || (n =? 160))%N.

Definition is_digit (c : ascii) : bool :=
  let n := code c in ((48 <=? n) && (n <=? 57))%N.

Definition digit_val (c : ascii) : Z := Z.of_N (code c) - 48.

(** [str.lower] on one character. *)
Definition lower_char (c : ascii) : ascii :=
  let n := code c in
  if ((65 <=? n) && (n <=? 90)
      || (192 <=? n) && (n <=? 222) && negb (n =? 215))%N
  then ascii_of_N (n + 32) else c.

Fixpoint lower (s : string) : string :=
  match s with
  | EmptyString => EmptyString
  | String c s' => String (lower_char c) (lower s')
  end.

Fixpoint lstrip (cs : list ascii) : list ascii :=
  match cs with
  | c :: cs' => if is_space c then lstrip cs' else cs
  | [] => []
  end.

(** [str.strip()] *)
Definition strip (cs : list ascii) : list ascii :=
  rev (lstrip (rev (lstrip cs))).

Fixpoint contains_char (c : ascii) (s : string) : bool :=
  match s with
  | EmptyString => false
  | String d s' => if Ascii.eqb c d then true else contains_char c s'
  end.

(** [s.split(c)] for a one-character separator. *)
Fixpoint split_on (c : ascii) (s : string) : list string :=
  match s with
  | EmptyString => [EmptyString]
  | String d s' =>
      if Ascii.eqb c d then EmptyString :: split_on c s'
      else match split_on c s' with
           | p :: ps => String d p :: ps
           | [] => [String d EmptyString]
           end
  end.

(** [s in (w1, w2, ...)] for a tuple of strings. *)
Definition str_in (s : string) (ws : list string) : bool :=
  existsb (String.eqb s) ws.

(** Truth value of a string: the empty string is false. *)
Definition str_truthy (s : string) : bool :=
  match s with EmptyString => false | _ => true end.

(** Truth value of an [Optional[str]]. *)
Definition opt_str_truthy (o : option string) : bool :=
  match o with Some s => str_truthy s | None => false end.

(** ** Integers as text *)

(** [str(n)] for an integer. *)
Definition str_of_Z (n : Z) : string := NilZero.string_of_int (Z.to_int n).

Definition str_of_nat (n : nat) : string := str_of_Z (Z.of_nat n).

(** A run of digits in which single underscores may separate digits (the
    [digitpart] of the language reference); [acc] is the number read so
    far, [len] the count of digits.  Returns what follows the run. *)
Fixpoint digits_tail (cs : list ascii) (acc : Z) (len : nat)
  : Z * nat * list ascii :=
  match cs with
  | c :: cs' =>
      if is_digit c then digits_tail cs' (10 * acc + digit_val c) (S len)
      else if Ascii.eqb c "_" then
        match cs' with
        | d :: cs'' =>
            if is_digit d
            then digits_tail cs'' (10 * acc + digit_val d) (S len)
            else (acc, len, cs)
        | [] => (acc, len, cs)
        end
      else (acc, len, cs)
  | [] => (acc, len, [])
  end.

Definition digitpart (cs : list ascii) : option (Z * nat * list ascii) :=
  match cs with
  | c :: cs' => if is_digit c then Some (digits_tail cs' (digit_val c) 1)
                else None
  | [] => None
  end.

(** An optional sign; [true] is minus. *)
Definition sign_of (cs : list ascii) : bool * list ascii :=
  match cs with
  | c :: cs' =>
      if Ascii.eqb c "-" then (true, cs')
      else if Ascii.eqb c "+" then (false, cs')
      else (false, cs)
  | [] => (false, [])
  end.

(** [int(s)] for a string, base ten: [None] stands for the [ValueError]. *)
Definition int_of_str (s : string) : option Z :=
  let '(neg, cs) := sign_of (strip (list_ascii_of_string s)) in
  match digitpart cs with
  | Some (n, _, []) => Some (if neg then - n else n)%Z
  | _ => None
  end.

(** ** Floats *)

Definition bitlen (n : Z) : Z := Z.log2 n + 1.

(** The binary64 number nearest to [(-1)^neg * m * 10^e] (ties to even),
    as [float(s)] computes it for a decimal literal. *)
Definition float_of_decimal (neg : bool) (m e : Z) : float :=
  if (m =? 0)%Z then S754_zero neg
  else if (0 <=? e)%Z then
    binary_normalize prec emax (cond_Zopp neg (m * 10 ^ e)) 0 false
  else
    let d := (10 ^ (- e))%Z in
    let s := Z.max 0 (56 + bitlen d - bitlen m) in
    let n := (m * 2 ^ s)%Z in
    let q := (n / d)%Z in
    let r := (n mod d)%Z in
    let l := if (r =? 0)%Z then loc_Exact
             else loc_Inexact (Z.compare (2 * r) d) in
    binary_round_aux prec emax neg q (- s) l.

(** [float(n)] for an integer; overflow raises. *)
Definition float_of_Z (n : Z) : result float :=
  match binary_normalize prec emax n 0 false with
  | S754_infinity _ => Raise (OverflowError "int too large to convert to float")
  | f => Ok f
  end.

Definition float_of_bool (b : bool) : float :=
  binary_normalize prec emax (Z.b2z b) 0 false.

(** [int(f)] for a float: truncation toward zero. *)
Definition int_of_float (f : float) : result Z :=
  match f with
  | S754_zero _ => Ok 0%Z
  | S754_nan => Raise (ValueError "cannot convert float NaN to integer")
  | S754_infinity _ =>
      Raise (OverflowError "cannot convert float infinity to integer")
  | S754_finite s m e =>
      Ok (cond_Zopp s (if (0 <=? e)%Z then Z.pos m * 2 ^ e
                       else Z.pos m / 2 ^ (- e)))%Z
  end.

(** The exponent of a decimal literal: the characters after [e]. *)
Definition exponent_of (cs : list ascii) : option Z :=
  let '(neg, cs') := sign_of cs in
  match digitpart cs' with
  | Some (n, _, []) => Some (if neg then - n else n)%Z
  | _ => None
  end.

(** What may follow the mantissa: nothing, or an exponent. *)
Definition exponent_tail (cs : list ascii) : option Z :=
  match cs with
  | [] => Some 0%Z
  | c :: cs' => if Ascii.eqb (lower_char c) "e" then exponent_of cs' else None
  end.

(** The fraction after the decimal point: its digits (possibly none) and
    what follows. *)
Definition fraction_of (cs : list ascii) : Z * nat * list ascii :=
  match digitpart cs with
  | Some r => r
  | None => (0%Z, 0, cs)
  end.

(** [float(s)] for a string: [None] stands for the [ValueError]. *)
Definition float_of_str (s : string) : option float :=
  let '(neg, cs) := sign_of (strip (list_ascii_of_string s)) in
  let word := lower (string_of_list_ascii cs) in
  if String.eqb word "inf" || String.eqb word "infinity"
  then Some (S754_infinity neg)
  else if String.eqb word "nan" then Some S754_nan
  else
    match digitpart cs with
    | Some (i, _, rest) =>
        match rest with
        | c :: rest' =>
            if Ascii.eqb c "." then
              let '(f, k, rest'') := fraction_of rest' in
              option_map
                (fun x => float_of_decimal neg (i * 10 ^ Z.of_nat k + f)
                                           (x - Z.of_nat k))
                (exponent_tail rest'')
            else option_map (float_of_decimal neg i) (exponent_tail rest)
        | [] => Some (float_of_decimal neg i 0)
        end
    | None =>
        match cs with
        | c :: rest =>
            if Ascii.eqb c "." then
              match digitpart rest with
              | Some (f, k, rest') =>
                  option_map
                    (fun x => float_of_decimal neg f (x - Z.of_nat k))
                    (exponent_tail rest')
              | None => None
              end
            else None
        | [] => None
        end
    end.

(** *** [repr] of a float: the shortest decimal that reads back as it *)

Definition float_eqb (a b : float) : bool :=
  match a, b with
  | S754_zero s, S754_zero t => Bool.eqb s t
  | S754_infinity s, S754_infinity t => Bool.eqb s t
  | S754_nan, S754_nan => true
  | S754_finite s m e, S754_finite t n f =>
      Bool.eqb s t && Pos.eqb m n && Z.eqb e f
  | _, _ => false
  end.

(** [10^p <= n/d], for positive [n] and [d]. *)
Definition pow10_le (p n d : Z) : bool :=
  if (0 <=? p)%Z then (10 ^ p * d <=? n)%Z else (d <=? n * 10 ^ (- p))%Z.

(** [floor (log10 (n/d))] *)
Definition floor_log10 (n d : Z) : Z :=
  let p0 := ((bitlen n - bitlen d - 1) * 30103 / 100000 - 1)%Z in
  let up := fun p => if pow10_le (p + 1) n d then (p + 1)%Z else p in
  up (up (up p0)).

(** [floor (n/d / 10^q)] and whether the division is exact. *)
Definition scaled (n d q : Z) : Z * bool :=
  let '(a, b) := if (0 <=? q)%Z then (n, d * 10 ^ q)%Z
                 else (n * 10 ^ (- q), d)%Z in
  ((a / b)%Z, (a mod b =? 0)%Z).

(** [2 * n/d] compared with [(2 * lo + 1) * 10^q]. *)
Definition nearer_hi (n d q lo : Z) : comparison :=
  if (0 <=? q)%Z then Z.compare (2 * n) ((2 * lo + 1) * 10 ^ q * d)
  else Z.compare (2 * n * 10 ^ (- q)) ((2 * lo + 1) * d).

(** The decimal [dig * 10^q] with [k] significant digits that reads back
    as [S754_finite false m e], if there is one (the nearer of the two
    candidates when both do). *)
Definition candidate (m : positive) (e : Z) (n d p : Z) (k : Z)
  : option (Z * Z) :=
  let x := S754_finite false m e in
  let q := (p - k + 1)%Z in
  let '(lo, exact) := scaled n d q in
  let hi := (lo + 1)%Z in
  let ok_lo := float_eqb (float_of_decimal false lo q) x in
  let ok_hi := negb exact && float_eqb (float_of_decimal false hi q) x in
  match ok_lo, ok_hi with
  | true, true =>
      match nearer_hi n d q lo with
      | Lt => Some (lo, q)
      | Gt => Some (hi, q)
      | Eq => Some (if Z.even lo then lo else hi, q)
      end
  | true, false => Some (lo, q)
  | false, true => Some (hi, q)
  | false, false => None
  end.

Fixpoint shortest (m : positive) (e : Z) (n d p : Z) (k : Z) (fuel : nat)
  : Z * Z :=
  match fuel with
  | O => (fst (scaled n d (p - 16)%Z), (p - 16)%Z)
  | S fuel' =>
      match candidate m e n d p k with
      | Some r => r
      | None => shortest m e n d p (k + 1) fuel'
      end
  end.

Fixpoint strip_zeros (fuel : nat) (dig q : Z) : Z * Z :=
  match fuel with
  | O => (dig, q)
  | S fuel' =>
      if (dig mod 10 =? 0)%Z then strip_zeros fuel' (dig / 10)%Z (q + 1)%Z
      else (dig, q)
  end.

Fixpoint zeros (n : nat) : string :=
  match n with O => "" | S n' => String "0" (zeros n') end.

Definition substr_from (n : nat) (s : string) : string :=
  String.substring n (String.length s - n) s.

(** The layout of [repr]: fixed notation when the decimal point falls
    within the digits or near them, exponent notation otherwise. *)
Definition format_repr (dig q : Z) : string :=
  let ds := str_of_Z dig in
  let n := Z.of_nat (String.length ds) in
  let decpt := (q + n)%Z in
  if ((decpt <=? -4) || (16 <? decpt))%Z then
    let ex := (decpt - 1)%Z in
    let mant := if (n =? 1)%Z then ds
                else String.substring 0 1 ds +:+ "." +:+ substr_from 1 ds in
    let es := str_of_Z (Z.abs ex) in
    mant +:+ "e" +:+ (if (ex <? 0)%Z then "-" else "+")
         +:+ (if (Z.abs ex <? 10)%Z then "0" else "") +:+ es
  else if (decpt <=? 0)%Z then
    "0." +:+ zeros (Z.to_nat (- decpt)) +:+ ds
  else if (n <=? decpt)%Z then
    ds +:+ zeros (Z.to_nat (decpt - n)) +:+ ".0"
  else
    String.substring 0 (Z.to_nat decpt) ds +:+ "."
      +:+ substr_from (Z.to_nat decpt) ds.

(** [repr(f)], which is also [str(f)]. *)
Definition str_of_float (f : float) : string :=
  match f with
  | S754_nan => "nan"
  | S754_infinity s => if s then "-inf" else "inf"
  | S754_zero s => if s then "-0.0" else "0.0"
  | S754_finite s m e =>
      let '(n, d) := if (0 <=? e)%Z then (Z.pos m * 2 ^ e, 1)%Z
                     else (Z.pos m, 2 ^ (- e))%Z in
      let p := floor_log10 n d in
      let '(dig, q) := shortest m e n d p 1 17 in
      let '(dig', q') := strip_zeros 17 dig q in
      (if s then "-" else "") +:+ format_repr dig' q'
  end.

(** [str(v)], as an f-string formats a value. *)
Definition str (v : value) : string :=
  match v with
  | VNone => "None"
  | VBool b => if b then "True" else "False"
  | VInt n => str_of_Z n
  | VFloat f => str_of_float f
  | VStr s => s
  end.

(** [repr(s)] for a string, as [str(KeyError(s))] shows the key. *)
Definition hex_digit (n : N) : ascii :=
  ascii_of_N (if (n <? 10)%N then n + 48 else n + 87).

Definition repr_char (q : ascii) (c : ascii) : string :=
  let n := code c in
  if Ascii.eqb c "\" then "\\"
  else if Ascii.eqb c q then String "\" (String q "")
  else if (n =? 9)%N then "\t"
  else if (n =? 10)%N then "\n"
  else if (n =? 13)%N then "\r"
  else if ((n <? 32) || (n =? 127) || (128 <=? n) && (n <=? 160)
           || (n =? 173))%N
  then String "\" (String "x" (String (hex_digit (n / 16))
                                 (String (hex_digit (n mod 16)) "")))
  else String c "".

Fixpoint repr_chars (q : ascii) (s : string) : string :=
  match s with
  | EmptyString => ""
  | String c s' => repr_char q c +:+ repr_chars q s'
  end.

Definition double_quote : ascii := ascii_of_N 34.

Definition repr_str (s : string) : string :=
  let q := if contains_char "'" s && negb (contains_char double_quote s)
           then double_quote else "'"%char in
  String q (repr_chars q s) +:+ String q "".

(** [str(e)] for an exception. *)
Definition str_exn (e : exn) : string :=
  match e with
  | ValueError m | TypeError m | OverflowError m => m
  | KeyError k => repr_str k
  end.

(** ** Comparisons *)

(** Numbers under one view: [m * 2^e], an infinity, or not a number.
    Booleans are the integers 0 and 1. *)
Inductive num : Type :=
  | NNan
  | NInf (neg : bool)
  | NFin (m e : Z).

Definition num_of_float (f : float) : num :=
  match f with
  | S754_zero _ => NFin 0 0
  | S754_infinity s => NInf s
  | S754_nan => NNan
  | S754_finite s m e => NFin (cond_Zopp s (Z.pos m)) e
  end.

Definition as_num (v : value) : option num :=
  match v with
  | VBool b => Some (NFin (Z.b2z b) 0)
  | VInt n => Some (NFin n 0)
  | VFloat f => Some (num_of_float f)
  | VNone | VStr _ => None
  end.

(** Exact comparison of numbers; [None] when one of them is not a
    number. *)
Definition num_compare (a b : num) : option comparison :=
  match a, b with
  | NNan, _ | _, NNan => None
  | NInf s, NInf t =>
      Some (match s, t with
            | true, false => Lt
            | false, true => Gt
            | _, _ => Eq
            end)
  | NInf s, NFin _ _ => Some (if s then Lt else Gt)
  | NFin _ _, NInf t => Some (if t then Gt else Lt)
  | NFin m1 e1, NFin m2 e2 =>
      let e := Z.min e1 e2 in
      Some (Z.compare (m1 * 2 ^ (e1 - e)) (m2 * 2 ^ (e2 - e)))
  end.

(** [a == b] *)
Definition eq (a b : value) : bool :=
  match as_num a, as_num b with
  | Some x, Some y =>
      match num_compare x y with Some Eq => true | _ => false end
  | _, _ =>
      match a, b with
      | VNone, VNone => true
      | VStr s, VStr t => String.eqb s t
      | _, _ => false
      end
  end.

(** [a != b] *)
Definition ne (a b : value) : bool := negb (eq a b).

(** The ordering of two values: [Raise] when Python refuses to order
    them, [Ok None] when a NaN makes every ordering test false. *)
Definition order (op : string) (a b : value) : result (option comparison) :=
  match as_num a, as_num b with
  | Some x, Some y => Ok (num_compare x y)
  | _, _ =>
      match a, b with
      | VStr s, VStr t => Ok (Some (String.compare s t))
      | _, _ =>
          Raise (TypeError ("'" +:+ op
                   +:+ "' not supported between instances of '"
                   +:+ type_name a +:+ "' and '" +:+ type_name b +:+ "'"))
      end
  end.

Definition lt (a b : value) : result bool :=
  (c <- order "<" a b ;; Ok match c with Some Lt => true | _ => false end)%py.
Definition gt (a b : value) : result bool :=
  (c <- order ">" a b ;; Ok match c with Some Gt => true | _ => false end)%py.
Definition le (a b : value) : result bool :=
  (c <- order "<=" a b ;;
   Ok match c with Some Lt | Some Eq => true | _ => false end)%py.
Definition ge (a b : value) : result bool :=
  (c <- order ">=" a b ;;
   Ok match c with Some Gt | Some Eq => true | _ => false end)%py.

(** ** Dictionaries with string keys *)

(** A [dict] keeps its keys in insertion order. *)
Definition dict (V : Type) : Type := list (string * V).

Fixpoint dict_get {V} (k : string) (d : dict V) : option V :=
  match d with
  | [] => None
  | (k', v) :: d' => if String.eqb k k' then Some v else dict_get k d'
  end.

(** [k in d] *)
Definition dict_has {V} (k : string) (d : dict V) : bool :=
  match dict_get k d with Some _ => true | None => false end.

(** [d[k] = v]: an existing key keeps its place, a new key goes last. *)
Fixpoint dict_set {V} (k : string) (v : V) (d : dict V) : dict V :=
  match d with
  | [] => [(k, v)]
  | (k', v') :: d' =>
      if String.eqb k k' then (k, v) :: d' else (k', v') :: dict_set k v d'
  end.

(** [d.update(kvs)], which is also [dict(kvs)] from the empty dict. *)
Definition dict_update {V} (d : dict V) (kvs : list (string * V)) : dict V :=
  fold_left (fun acc kv => dict_set (fst kv) (snd kv) acc) kvs d.

(** [zip(xs, ys)] *)
Definition zip {A B} (xs : list A) (ys : list B) : list (A * B) :=
  List.combine xs ys.

(** A row: a dict from column names to values. *)
Definition Row : Type := dict value.

(** [row.get(k)] *)
Definition row_get (k : string) (r : Row) : value :=
  match dict_get k r with Some v => v | None => VNone end.

(** [row.get(k, default)] *)
Definition row_get_default (k : string) (dflt : value) (r : Row) : value :=
  match dict_get k r with Some v => v | None => dflt end.

(** ** [list.sort(key=...)] *)

(** CPython's list sort, as it runs on a list of fewer than 64 elements:
    the leading run is counted (and reversed when strictly descending),
    then every later element is put in place by binary insertion.  The
    keys are computed first and travel with the elements.  A comparison
    that raises ends the sort at once and leaves the list as rearranged so
    far; the language reference says as much of [list.sort]: when a
    comparison fails "the list will likely be left in a partially
    modified state".  (From 64 elements on CPython merges several runs;
    the sorted outcome is the same.) *)
Section ListSort.
Context {K A : Type}.
Variable lt_key : K -> K -> result bool.

(** [count_run], ascending case: stops at the first element smaller
    than its predecessor. *)
Fixpoint count_run_asc (prev : K) (l : list (K * A)) (n : nat)
  : result nat :=
  match l with
  | [] => Ok n
  | (k, _) :: l' =>
      match lt_key k prev with
      | Raise e => Raise e
      | Ok true => Ok n
      | Ok false => count_run_asc k l' (S n)
      end
  end.

(** [count_run], descending case: goes on while each element is smaller
    than its predecessor. *)
Fixpoint count_run_desc (prev : K) (l : list (K * A)) (n : nat)
  : result nat :=
  match l with
  | [] => Ok n
  | (k, _) :: l' =>
      match lt_key k prev with
      | Raise e => Raise e
      | Ok true => count_run_desc k l' (S n)
      | Ok false => Ok n
      end
  end.

(** Length of the leading run and whether it is descending. *)
Definition count_run (l : list (K * A)) : result (nat * bool) :=
  match l with
  | [] => Ok (0, false)
  | [_] => Ok (1, false)
  | (k0, _) :: (k1, _) :: l' =>
      match lt_key k1 k0 with
      | Raise e => Raise e
      | Ok true =>
          match count_run_desc k1 l' 2 with
          | Ok n => Ok (n, true)
          | Raise e => Raise e
          end
      | Ok false =>
          match count_run_asc k1 l' 2 with
          | Ok n => Ok (n, false)
          | Raise e => Raise e
          end
      end
  end.

(** The binary search of [binarysort]: where [pivot] belongs in the
    sorted prefix [pre], between positions [l] and [r]. *)
Fixpoint bisect (fuel : nat) (pre : list (K * A)) (pivot : K) (l r : nat)
  : result nat :=
  match fuel with
  | O => Ok l
  | S fuel' =>
      let p := l + (r - l) / 2 in
      match nth_error pre p with
      | None => Ok l
      | Some (kp, _) =>
          match lt_key pivot kp with
          | Raise e => Raise e
          | Ok b =>
              let l' := if b then l else S p in
              let r' := if b then p else r in
              if Nat.ltb l' r' then bisect fuel' pre pivot l' r' else Ok l'
          end
      end
  end.

(** [binarysort]: [pre] is sorted, the elements of [rest] are inserted
    one after the other.  On an exception the list is returned as it
    stands. *)
Fixpoint binarysort (pre rest : list (K * A))
  : list (K * A) * option exn :=
  match rest with
  | [] => (pre, None)
  | (k, x) :: rest' =>
      match bisect (length pre) pre k 0 (length pre) with
      | Raise e => (pre ++ rest, Some e)
      | Ok l => binarysort (take l pre ++ (k, x) :: drop l pre) rest'
      end
  end.

(** [l.sort(key=key)]: the list afterwards, and the exception if one
    was raised. *)
Definition list_sort (key : A -> K) (l : list A) : list A * option exn :=
  if Nat.ltb (length l) 2 then (l, None)
  else
    let kv := map (fun x => (key x, x)) l in
    match count_run kv with
    | Raise e => (l, Some e)
    | Ok (n, descending) =>
        let run := take n kv in
        let run' := if descending then rev run else run in
        let '(kv', e) := binarysort run' (drop n kv) in
        (map snd kv', e)
    end.
End ListSort.

(** ** Conversions of dynamic values *)

(** [isinstance(v, int)]: [bool] is a subclass of [int]. *)
Definition isinstance_int (v : value) : bool :=
  match v with VBool _ | VInt _ => true | _ => false end.

(** [isinstance(v, (int, float))] *)
Definition isinstance_int_float (v : value) : bool :=
  match v with VBool _ | VInt _ | VFloat _ => true | _ => false end.

Definition isinstance_str (v : value) : bool :=
  match v with VStr _ => true | _ => false end.

(** [int(v)] *)
Definition int_ (v : value) : result Z :=
  match v with
  | VNone =>
      Raise (TypeError ("int() argument must be a string, a bytes-like "
                        +:+ "object or a real number, not 'NoneType'"))
  | VBool b => Ok (Z.b2z b)
  | VInt n => Ok n
  | VFloat f => int_of_float f
  | VStr s =>
      match int_of_str s with
      | Some n => Ok n
      | None =>
          Raise (ValueError ("invalid literal for int() with base 10: "
                             +:+ repr_str s))
      end
  end.

(** [float(v)] *)
Definition float_ (v : value) : result float :=
  match v with
  | VNone =>
      Raise (TypeError ("float() argument must be a string or a real "
                        +:+ "number, not 'NoneType'"))
  | VBool b => Ok (float_of_bool b)
  | VInt n => float_of_Z n
  | VFloat f => Ok f
  | VStr s =>
      match float_of_str s with
      | Some f => Ok f
      | None =>
          Raise (ValueError ("could not convert string to float: "
                             +:+ repr_str s))
      end
  end.

(** ** The heap of row objects *)

(** Rows are dict objects: a list holds references to them, and two lists
    may hold references to the same dict.  A reference is a position in
    the heap. *)
Definition loc : Type := nat.
Definition heap : Type := list Row.

Definition deref (h : heap) (l : loc) : Row :=
  match nth_error h l with Some r => r | None => [] end.

(** A new dict object. *)
Definition alloc (h : heap) (r : Row) : heap * loc := (h ++ [r], length h).

(** [obj[k] = v] on the dict at [l]. *)
Definition setitem (h : heap) (l : loc) (k : string) (v : value) : heap :=
  match nth_error h l with
  | Some r => <[l := dict_set k v r]> h
  | None => h
  end.

End Py.

Import Py.

(* ===================================================================== *)
(** * database/schema.py                                                  *)
(* ===================================================================== *)

(** [class DataType(Enum)] *)
Inductive DataType : Type := INTEGER | VARCHAR | BOOLEAN | FLOAT.

(** [DataType[name]]: an unknown name raises [KeyError]. *)
Definition DataType_of_name (s : string) : result DataType :=
  if String.eqb s "INTEGER" then Ok INTEGER
  else if String.eqb s "VARCHAR" then Ok VARCHAR
  else if String.eqb s "BOOLEAN" then Ok BOOLEAN
  else if String.eqb s "FLOAT" then Ok FLOAT
  else Raise (KeyError s).

(** [class Column] *)
Module Column.

Record t : Type := Build {
  name : string;
  data_type : DataType;
  max_length : option Z;
  nullable : bool
}.

(** The test [self.max_length and len(value_str) > self.max_length]:
    an absent length and the length 0 are both false. *)
Definition too_long (self : t) (value_str : string) : bool :=
  match max_length self with
  | Some n => negb (n =? 0)%Z && (n <? Z.of_nat (String.length value_str))%Z
  | None => false
  end.

Definition max_length_str (self : t) : string :=
  match max_length self with Some n => str_of_Z n | None => "None" end.

(** [Column.validate_value] *)
Definition validate_value (self : t) (v : value) : result value :=
  if is_None v then
    if negb (nullable self)
    then Raise (ValueError ("Column '" +:+ name self +:+ "' cannot be NULL"))
    else Ok VNone
  else
    match data_type self with
    | INTEGER =>
        if negb (isinstance_int v) then
          match int_ v with
          | Ok n => Ok (VInt n)
          | Raise (ValueError _) | Raise (TypeError _) =>
              Raise (ValueError ("Cannot convert '" +:+ str v
                                 +:+ "' to INTEGER"))
          | Raise e => Raise e
          end
        else Ok v
    | FLOAT =>
        if negb (isinstance_int_float v) then
          match float_ v with
          | Ok f => Ok (VFloat f)
          | Raise (ValueError _) | Raise (TypeError _) =>
              Raise (ValueError ("Cannot convert '" +:+ str v
                                 +:+ "' to FLOAT"))
          | Raise e => Raise e
          end
        else
          match float_ v with
          | Ok f => Ok (VFloat f)
          | Raise e => Raise e
          end
    | VARCHAR =>
        let value_str := str v in
        if too_long self value_str
        then Raise (ValueError ("Value '" +:+ value_str
                                +:+ "' exceeds max length "
                                +:+ max_length_str self))
        else Ok (VStr value_str)
    | BOOLEAN =>
        match v with
        | VBool _ => Ok v
        | VStr s =>
            let w := lower s in
            if str_in w ["true"; "1"; "yes"] then Ok (VBool true)
            else if str_in w ["false"; "0"; "no"] then Ok (VBool false)
            else Raise (ValueError ("Cannot convert '" +:+ str v
                                    +:+ "' to BOOLEAN"))
        | _ => Raise (ValueError ("Cannot convert '" +:+ str v
                                  +:+ "' to BOOLEAN"))
        end
    end.

End Column.

(** A Python [set] of strings.  The order in which a set is iterated is
    not specified; the model iterates a duplicate-free list. *)
Definition set_of_list (l : list string) : list string := remove_dups l.

(** [class TableSchema] *)
Module TableSchema.

Record t : Type := Build {
  name : string;
  columns : list Column.t;
  primary_key : option string;
  unique_constraints : list string;
  indexes : list string
}.

(** [get_column] *)
Definition get_column (self : t) (column_name : string) : option Column.t :=
  List.find (fun col => String.eqb (Column.name col) column_name)
            (columns self).

(** The first loop of [validate_row]: every column of the schema. *)
Fixpoint validate_columns (cols : list Column.t) (row validated_row : Row)
  : result Row :=
  match cols with
  | [] => Ok validated_row
  | column :: cols' =>
      if negb (dict_has (Column.name column) row) then
        if negb (Column.nullable column)
        then Raise (ValueError ("Missing required column: "
                                +:+ Column.name column))
        else validate_columns cols' row
               (dict_set (Column.name column) VNone validated_row)
      else
        match Column.validate_value column
                (row_get (Column.name column) row) with
        | Ok v => validate_columns cols' row
                    (dict_set (Column.name column) v validated_row)
        | Raise e => Raise e
        end
  end.

(** The second loop of [validate_row]: no key outside the schema. *)
Fixpoint check_extra (self : t) (keys : list string) : result unit :=
  match keys with
  | [] => Ok tt
  | key :: keys' =>
      match get_column self key with
      | None => Raise (ValueError ("Unknown column: " +:+ key))
      | Some _ => check_extra self keys'
      end
  end.

(** [validate_row] *)
Definition validate_row (self : t) (row : Row) : result Row :=
  (validated_row <- validate_columns (columns self) row [] ;;
   _ <- check_extra self (map fst row) ;;
   Ok validated_row)%py.

(** [get_column_names] *)
Definition get_column_names (self : t) : list string :=
  map Column.name (columns self).

End TableSchema.

(** [class SchemaManager]: the state is the dict [schemas]. *)
Module SchemaManager.

Abbreviation t := (gmap string TableSchema.t).

Definition is_column (columns : list Column.t) (n : string) : bool :=
  existsb (fun col => String.eqb (Column.name col) n) columns.

Fixpoint check_unique (columns : list Column.t) (ucs : list string)
  : result unit :=
  match ucs with
  | [] => Ok tt
  | uc :: ucs' =>
      if negb (is_column columns uc)
      then Raise (ValueError ("Unique constraint '" +:+ uc
                              +:+ "' is not a column"))
      else check_unique columns ucs'
  end.

(** [create_table_schema] *)
Definition create_table_schema (schemas : t) (table_name : string)
    (columns : list Column.t) (primary_key : option string)
    (unique_constraints : list string) : t * result TableSchema.t :=
  match schemas !! table_name with
  | Some _ =>
      (schemas, Raise (ValueError ("Table schema '" +:+ table_name
                                   +:+ "' already exists")))
  | None =>
      let pk := match primary_key with Some p => p | None => "" end in
      if opt_str_truthy primary_key && negb (is_column columns pk)
      then (schemas, Raise (ValueError ("Primary key '" +:+ pk
                                        +:+ "' is not a column")))
      else
        match check_unique columns unique_constraints with
        | Raise e => (schemas, Raise e)
        | Ok _ =>
            let schema :=
              TableSchema.Build table_name columns primary_key
                (set_of_list unique_constraints)
                (if opt_str_truthy primary_key then [pk] else []) in
            (<[table_name := schema]> schemas, Ok schema)
        end
  end.

(** [get_schema] *)
Definition get_schema (schemas : t) (table_name : string)
  : option TableSchema.t := schemas !! table_name.

(** [drop_schema] *)
Definition drop_schema (schemas : t) (table_name : string) : t :=
  match schemas !! table_name with
  | Some _ => delete table_name schemas
  | None => schemas
  end.

(** [table_exists] *)
Definition table_exists (schemas : t) (table_name : string) : bool :=
  match schemas !! table_name with Some _ => true | None => false end.

End SchemaManager.

(* ===================================================================== *)
(** * database/indexer.py                                                 *)
(* ===================================================================== *)

(** [class Index] *)
Module Index.

(** [index_map] is a dict keyed by column values: two keys are the same
    key when they are equal ([1], [1.0] and [True] are one key).  Every
    NaN stored in a row is an object of its own and equal to nothing, so
    a NaN never meets an existing key. *)
Record t : Type := Build {
  table_name : string;
  column_name : string;
  unique : bool;
  index_map : list (value * list nat)
}.

Fixpoint map_get (v : value) (m : list (value * list nat))
  : option (list nat) :=
  match m with
  | [] => None
  | (k, b) :: m' => if Py.eq v k then Some b else map_get v m'
  end.

(** [value in self.index_map] *)
Definition map_has (v : value) (m : list (value * list nat)) : bool :=
  match map_get v m with Some _ => true | None => false end.

(** The two statements that end [add]: a missing key gets an empty
    bucket, then the bucket of the key takes [row_idx] at its end. *)
Fixpoint map_append (v : value) (row_idx : nat)
    (m : list (value * list nat)) : list (value * list nat) :=
  match m with
  | [] => [(v, [row_idx])]
  | (k, b) :: m' =>
      if Py.eq v k then (k, b ++ [row_idx]) :: m'
      else (k, b) :: map_append v row_idx m'
  end.

Definition with_map (self : t) (m : list (value * list nat)) : t :=
  Build (table_name self) (column_name self) (unique self) m.

(** [Index.add] *)
Definition add (self : t) (v : value) (row_idx : nat) : t * result unit :=
  if is_None v then (self, Ok tt)
  else if unique self && map_has v (index_map self) then
    (self, Raise (ValueError ("Duplicate value '" +:+ str v
                              +:+ "' violates unique constraint on "
                              +:+ table_name self +:+ "."
                              +:+ column_name self)))
  else (with_map self (map_append v row_idx (index_map self)), Ok tt).

(** The loop of [build], from position [row_idx] on. *)
Fixpoint build_from (self : t) (rows : list Row) (row_idx : nat)
  : t * result unit :=
  match rows with
  | [] => (self, Ok tt)
  | row :: rows' =>
      let v := row_get (column_name self) row in
      if negb (is_None v) then
        match add self v row_idx with
        | (self', Ok _) => build_from self' rows' (S row_idx)
        | (self', Raise e) => (self', Raise e)
        end
      else build_from self rows' (S row_idx)
  end.

(** [Index.build]: clear, then add every row in order. *)
Definition build (self : t) (rows : list Row) : t * result unit :=
  build_from (with_map self []) rows 0.

(** [Index.lookup] *)
Definition lookup (self : t) (v : value) : list nat :=
  match map_get v (index_map self) with Some b => b | None => [] end.

(** [bucket.remove(row_idx)], for a [row_idx] that may be absent: the
    first occurrence goes. *)
Fixpoint remove_first (row_idx : nat) (bucket : list nat) : list nat :=
  match bucket with
  | [] => []
  | j :: bucket' =>
      if Nat.eqb row_idx j then bucket' else j :: remove_first row_idx bucket'
  end.

(** The body of [remove] on the dict: the bucket of the key loses
    [row_idx], and an empty bucket is deleted with its key. *)
Fixpoint map_remove (v : value) (row_idx : nat)
    (m : list (value * list nat)) : list (value * list nat) :=
  match m with
  | [] => []
  | (k, b) :: m' =>
      if Py.eq v k then
        match remove_first row_idx b with
        | [] => m'
        | b' => (k, b') :: m'
        end
      else (k, b) :: map_remove v row_idx m'
  end.

(** [Index.remove] *)
Definition remove (self : t) (v : value) (row_idx : nat) : t :=
  if is_None v then self
  else with_map self (map_remove v row_idx (index_map self)).

(** The keys of a dict are pairwise unequal. *)
Fixpoint keys_distinct (m : list (value * list nat)) : bool :=
  match m with
  | [] => true
  | (k, _) :: m' => negb (map_has k m') && keys_distinct m'
  end.

End Index.

(** [class IndexManager]: the state is the dict [indexes], from table
    names to dicts from column names to indexes. *)
Module IndexManager.

Abbreviation t := (gmap string (dict Index.t)).

(** [create_index] *)
Definition create_index (indexes : t) (table_name column_name : string)
    (unique : bool) : t * result Index.t :=
  let indexes1 :=
    match indexes !! table_name with
    | Some _ => indexes
    | None => <[table_name := []]> indexes
    end in
  let of_table := default [] (indexes1 !! table_name) in
  if dict_has column_name of_table then
    (indexes1, Raise (ValueError ("Index already exists on "
                                  +:+ table_name +:+ "." +:+ column_name)))
  else
    let index := Index.Build table_name column_name unique [] in
    (<[table_name := dict_set column_name index of_table]> indexes1,
     Ok index).

(** [get_index] *)
Definition get_index (indexes : t) (table_name column_name : string)
  : option Index.t :=
  dict_get column_name (default [] (indexes !! table_name)).

(** [drop_table_indexes] *)
Definition drop_table_indexes (indexes : t) (table_name : string) : t :=
  match indexes !! table_name with
  | Some _ => delete table_name indexes
  | None => indexes
  end.

(** The loop of [rebuild_indexes] over the indexes of one table: the
    index objects are rebuilt in place, one after the other. *)
Fixpoint rebuild_each (ixs : dict Index.t) (rows : list Row)
  : dict Index.t * result unit :=
  match ixs with
  | [] => ([], Ok tt)
  | (c, index) :: ixs' =>
      match Index.build index rows with
      | (index', Raise e) => ((c, index') :: ixs', Raise e)
      | (index', Ok _) =>
          let '(ixs'', r) := rebuild_each ixs' rows in
          ((c, index') :: ixs'', r)
      end
  end.

(** [rebuild_indexes] *)
Definition rebuild_indexes (indexes : t) (table_name : string)
    (rows : list Row) : t * result unit :=
  match indexes !! table_name with
  | Some ixs =>
      let '(ixs', r) := rebuild_each ixs rows in
      (<[table_name := ixs']> indexes, r)
  | None => (indexes, Ok tt)
  end.

End IndexManager.

(* ===================================================================== *)
(** * database/storage.py                                                 *)
(* ===================================================================== *)

(** The persisted document: table names mapped to row sequences. *)
Abbreviation snapshot := (gmap string (list Row)).

(** [class StorageEngine] *)
Module StorageEngine.

(** [tables] maps a table name to the list of its row objects.
    [data_file] is the configured path; [file] is what is stored at that
    path ([None] while the file does not exist). *)
Record t : Type := Build {
  tables : gmap string (list loc);
  data_file : option string;
  file : option snapshot
}.

(** What [json.dump(self.tables, f)] writes. *)
Definition dump (h : heap) (tables : gmap string (list loc)) : snapshot :=
  map (deref h) <$> tables.

(** [_save_to_disk] *)
Definition _save_to_disk (h : heap) (self : t) : t :=
  if opt_str_truthy (data_file self)
  then Build (tables self) (data_file self) (Some (dump h (tables self)))
  else self.

(** One table of [json.load(f)]: its rows become new objects. *)
Definition load_table (name : string) (rows : list Row)
    (acc : heap * gmap string (list loc)) : heap * gmap string (list loc) :=
  (fst acc ++ rows, <[name := seq (length (fst acc)) (length rows)]> (snd acc)).

Definition json_load (h : heap) (doc : snapshot)
  : heap * gmap string (list loc) :=
  map_fold load_table (h, ∅) doc.

(** [load_from_disk] *)
Definition load_from_disk (h : heap) (self : t) : heap * t :=
  match file self with
  | Some doc =>
      if opt_str_truthy (data_file self) then
        let '(h', tables') := json_load h doc in
        (h', Build tables' (data_file self) (file self))
      else (h, self)
  | None => (h, self)
  end.

(** [__init__] *)
Definition init (h : heap) (data_file : option string)
    (file : option snapshot) : heap * t :=
  let self := Build ∅ data_file file in
  match file with
  | Some _ => if opt_str_truthy data_file then load_from_disk h self
              else (h, self)
  | None => (h, self)
  end.

Definition not_exist (table_name : string) : exn :=
  ValueError ("Table '" +:+ table_name +:+ "' does not exist").

(** [create_table] *)
Definition create_table (h : heap) (self : t) (table_name : string)
  : t * result unit :=
  match tables self !! table_name with
  | Some _ =>
      (self, Raise (ValueError ("Table '" +:+ table_name
                                +:+ "' already exists")))
  | None =>
      (_save_to_disk h
         (Build (<[table_name := []]> (tables self)) (data_file self)
                (file self)), Ok tt)
  end.

(** [drop_table] *)
Definition drop_table (h : heap) (self : t) (table_name : string)
  : t * result unit :=
  match tables self !! table_name with
  | None => (self, Raise (not_exist table_name))
  | Some _ =>
      (_save_to_disk h
         (Build (delete table_name (tables self)) (data_file self)
                (file self)), Ok tt)
  end.

(** [insert_row]: [row] is the dict object to append. *)
Definition insert_row (h : heap) (self : t) (table_name : string)
    (row : loc) : t * result unit :=
  match tables self !! table_name with
  | None => (self, Raise (not_exist table_name))
  | Some rows =>
      (_save_to_disk h
         (Build (<[table_name := rows ++ [row]]> (tables self))
                (data_file self) (file self)), Ok tt)
  end.

(** [get_all_rows]: [list.copy()] makes a new list of the same row
    objects. *)
Definition get_all_rows (self : t) (table_name : string)
  : result (list loc) :=
  match tables self !! table_name with
  | None => Raise (not_exist table_name)
  | Some rows => Ok rows
  end.

(** [update_rows] *)
Definition update_rows (h : heap) (self : t) (table_name : string)
    (updated_rows : list loc) : t * result unit :=
  match tables self !! table_name with
  | None => (self, Raise (not_exist table_name))
  | Some _ =>
      (_save_to_disk h
         (Build (<[table_name := updated_rows]> (tables self))
                (data_file self) (file self)), Ok tt)
  end.

(** [table_exists] *)
Definition table_exists (self : t) (table_name : string) : bool :=
  match tables self !! table_name with Some _ => true | None => false end.

End StorageEngine.

(* ===================================================================== *)
(** * database/executor.py                                                *)
(* ===================================================================== *)

(** ** Parsed commands *)

(** A parsed column definition ([col_info]). *)
Module ColInfo.
Record t : Type := Build {
  name : string;
  type : string;
  max_length : option Z;
  nullable : bool
}.
End ColInfo.

(** A parsed WHERE clause: a comparison, or the conjunction of several
    clauses under the key ['AND']. *)
#[warnings="-register-all"] Inductive Where : Type :=
  | AND (conds : list Where)
  | Cond (column operator : string) (value : value).

(** A parsed JOIN clause. *)
Module Join.
Record cond : Type := Cond { left : string; right : string }.
Record t : Type := Build { table : string; conditions : list cond }.
End Join.

(** The parsed query, by its ['command'] key. *)
Inductive Command : Type :=
  | CREATE_TABLE (table : string) (columns : list ColInfo.t)
                 (primary_key : option string) (unique_columns : list string)
  | DROP_TABLE (table : string)
  | INSERT (table : string) (columns : option (list string))
           (values : list value)
  | SELECT (columns : list string) (table : string) (where_ : option Where)
           (join : option Join.t) (order_by : option string)
           (limit : option Z)
  | UPDATE (table : string) (updates : dict value) (where_ : option Where)
  | DELETE (table : string) (where_ : option Where)
  | OTHER (command : string).

(** The response envelope. *)
Module Envelope.
Record t : Type := Build {
  success : bool;
  message : string;
  data : option (list Row);
  columns : option (list string)
}.
End Envelope.

(** [{'success': True, 'message': m}] *)
Definition succeeded (m : string) : Envelope.t :=
  Envelope.Build true m None None.

(** [{'success': False, 'message': m}] *)
Definition failed (m : string) : Envelope.t :=
  Envelope.Build false m None None.

(** ** The state of the engine *)

(** The three components of the executor, and the heap that holds the row
    objects they share. *)
Record State : Type := MkState {
  heap_of : heap;
  storage : StorageEngine.t;
  schema_mgr : SchemaManager.t;
  index_mgr : IndexManager.t
}.

Definition with_heap (s : State) (h : heap) : State :=
  MkState h (storage s) (schema_mgr s) (index_mgr s).
Definition with_storage (s : State) (st : StorageEngine.t) : State :=
  MkState (heap_of s) st (schema_mgr s) (index_mgr s).
Definition with_schema_mgr (s : State) (m : SchemaManager.t) : State :=
  MkState (heap_of s) (storage s) m (index_mgr s).
Definition with_index_mgr (s : State) (m : IndexManager.t) : State :=
  MkState (heap_of s) (storage s) (schema_mgr s) m.

(** The rows a table holds, by value. *)
Definition table_rows (s : State) (table_name : string) : option (list Row) :=
  map (deref (heap_of s)) <$> (StorageEngine.tables (storage s) !! table_name).

(** The engine as the front ends set it up: a storage engine on
    [data_file], a new schema manager and a new index manager. *)
Definition start (data_file : option string) (file : option snapshot)
  : State :=
  let '(h, st) := StorageEngine.init [] data_file file in
  MkState h st ∅ ∅.

(** ** Commands run in a state and may raise *)

(** A computation changes the state and returns or raises; the state
    changes made before an exception stay. *)
Definition M (A : Type) : Type := State -> State * result A.

Definition ret {A} (a : A) : M A := fun s => (s, Ok a).
Definition raise {A} (e : exn) : M A := fun s => (s, Raise e).
Definition bind {A B} (m : M A) (k : A -> M B) : M B :=
  fun s => match m s with
           | (s', Ok a) => k a s'
           | (s', Raise e) => (s', Raise e)
           end.
Definition lift {A} (r : result A) : M A := fun s => (s, r).
Definition gets {A} (f : State -> A) : M A := fun s => (s, Ok (f s)).

Declare Scope exec_scope.
Delimit Scope exec_scope with exec.
Notation "x <- c1 ;; c2" := (bind c1 (fun x => c2))
  (at level 100, c1 at next level, right associativity) : exec_scope.

(** A method of the schema manager, run on the executor's one. *)
Definition on_schema_mgr {A}
    (f : SchemaManager.t -> SchemaManager.t * result A) : M A :=
  fun s => let '(m, r) := f (schema_mgr s) in (with_schema_mgr s m, r).

(** A method of the index manager. *)
Definition on_index_mgr {A}
    (f : IndexManager.t -> IndexManager.t * result A) : M A :=
  fun s => let '(m, r) := f (index_mgr s) in (with_index_mgr s m, r).

(** A method of the storage engine; it reads the row objects when it
    saves. *)
Definition on_storage {A}
    (f : heap -> StorageEngine.t -> StorageEngine.t * result A) : M A :=
  fun s => let '(st, r) := f (heap_of s) (storage s) in (with_storage s st, r).

(** [self.storage.get_all_rows(table_name)] *)
Definition get_all_rows (table_name : string) : M (list loc) :=
  fun s => (s, StorageEngine.get_all_rows (storage s) table_name).

(** The dicts a list of row objects refers to. *)
Definition read_rows (rows : list loc) : M (list Row) :=
  gets (fun s => map (deref (heap_of s)) rows).

(** A new dict object with the content [r]. *)
Definition new_row (r : Row) : M loc :=
  fun s => let '(h, l) := alloc (heap_of s) r in (with_heap s h, Ok l).

(** A loop body or a guard either goes on or returns an envelope from the
    enclosing method. *)
Inductive flow (A : Type) : Type :=
  | Next (a : A)
  | Return (env : Envelope.t).
Arguments Next {A} a.
Arguments Return {A} env.

Module QueryExecutor.

Local Open Scope exec_scope.

(** *** WHERE *)

(** [_row_matches_where] *)
Fixpoint _row_matches_where (row : Row) (where_ : Where) : result bool :=
  match where_ with
  | AND conds =>
      (fix all (cs : list Where) : result bool :=
         match cs with
         | [] => Ok true
         | c :: cs' =>
             match _row_matches_where row c with
             | Ok true => all cs'
             | Ok false => Ok false
             | Raise e => Raise e
             end
         end) conds
  | Cond column operator expected =>
      let actual := row_get column row in
      if String.eqb operator "=" then Ok (Py.eq actual expected)
      else if String.eqb operator "!=" then Ok (Py.ne actual expected)
      else if String.eqb operator ">" then Py.gt actual expected
      else if String.eqb operator "<" then Py.lt actual expected
      else if String.eqb operator ">=" then Py.ge actual expected
      else if String.eqb operator "<=" then Py.le actual expected
      else Ok false
  end.

(** [[row for row in rows if f(row)]], for a test that may raise. *)
Fixpoint filter_rows {A} (f : A -> result bool) (rows : list A)
  : result (list A) :=
  match rows with
  | [] => Ok []
  | row :: rows' =>
      match f row with
      | Raise e => Raise e
      | Ok b =>
          match filter_rows f rows' with
          | Raise e => Raise e
          | Ok kept => Ok (if b then row :: kept else kept)
          end
      end
  end.

(** [_apply_where] *)
Definition _apply_where (rows : list Row) (where_ : Where)
  : result (list Row) :=
  filter_rows (fun row => _row_matches_where row where_) rows.

(** *** JOIN *)

(** [_extract_join_value] *)
Definition _extract_join_value (row : Row) (col_ref : string) : value :=
  if contains_char "." col_ref then
    match split_on "." col_ref with
    | [_; c] => row_get c row
    | _ => VNone
    end
  else row_get col_ref row.

(** The loop over the join conditions: [match] stays true when no
    condition finds two different values. *)
Definition join_match (left_row right_row : Row)
    (conditions : list Join.cond) : bool :=
  forallb (fun c => negb (Py.ne (_extract_join_value left_row (Join.left c))
                                (_extract_join_value right_row (Join.right c))))
          conditions.

(** The combined row: every key under the name of its table. *)
Definition prefixed (table_name : string) (row : Row) : list (string * value) :=
  map (fun kv => (table_name +:+ "." +:+ fst kv, snd kv)) row.

Definition combine_rows (left_table right_table : string)
    (left_row right_row : Row) : Row :=
  dict_update (dict_update [] (prefixed left_table left_row))
              (prefixed right_table right_row).

(** [_apply_join] *)
Definition _apply_join (left_rows : list Row) (join_info : Join.t)
    (left_table : string) : M (list Row) :=
  right <- get_all_rows (Join.table join_info) ;;
  right_rows <- read_rows right ;;
  ret (flat_map
         (fun left_row =>
            flat_map
              (fun right_row =>
                 if join_match left_row right_row (Join.conditions join_info)
                 then [combine_rows left_table (Join.table join_info)
                                    left_row right_row]
                 else [])
              right_rows)
         left_rows).

(** *** CREATE TABLE and DROP TABLE *)

(** The [Column] objects of the parsed column definitions. *)
Fixpoint make_columns (infos : list ColInfo.t) : result (list Column.t) :=
  match infos with
  | [] => Ok []
  | col_info :: infos' =>
      match DataType_of_name (ColInfo.type col_info) with
      | Raise e => Raise e
      | Ok data_type =>
          match make_columns infos' with
          | Raise e => Raise e
          | Ok columns =>
              Ok (Column.Build (ColInfo.name col_info) data_type
                               (ColInfo.max_length col_info)
                               (ColInfo.nullable col_info) :: columns)
          end
      end
  end.

(** [unique_col != schema.primary_key] *)
Definition differs (unique_col : string) (primary_key : option string)
  : bool :=
  match primary_key with
  | Some p => negb (String.eqb unique_col p)
  | None => true
  end.

(** The loop that creates the index of every unique column. *)
Fixpoint create_unique_indexes (table_name : string)
    (primary_key : option string) (unique_cols : list string) : M unit :=
  match unique_cols with
  | [] => ret tt
  | unique_col :: rest =>
      _ <- (if differs unique_col primary_key
            then _ <- on_index_mgr (fun m =>
                        IndexManager.create_index m table_name unique_col true) ;;
                 ret tt
            else ret tt) ;;
      create_unique_indexes table_name primary_key rest
  end.

(** The last step of [_execute_create_table]: an index for the primary
    key, then one for every other unique column. *)
Definition create_indexes (table_name : string) (schema : TableSchema.t)
  : M unit :=
  _ <- (match TableSchema.primary_key schema with
        | Some pk =>
            if str_truthy pk
            then _ <- on_index_mgr (fun m =>
                        IndexManager.create_index m table_name pk true) ;;
                 ret tt
            else ret tt
        | None => ret tt
        end) ;;
  create_unique_indexes table_name (TableSchema.primary_key schema)
    (TableSchema.unique_constraints schema).

(** [_execute_create_table] *)
Definition _execute_create_table (table_name : string)
    (infos : list ColInfo.t) (primary_key : option string)
    (unique_columns : list string) : M Envelope.t :=
  columns <- lift (make_columns infos) ;;
  schema <- on_schema_mgr (fun m =>
              SchemaManager.create_table_schema m table_name columns
                primary_key unique_columns) ;;
  _ <- on_storage (fun h st => StorageEngine.create_table h st table_name) ;;
  _ <- create_indexes table_name schema ;;
  ret (succeeded ("Table '" +:+ table_name +:+ "' created successfully")).

Definition no_table (table_name : string) : Envelope.t :=
  failed ("Table '" +:+ table_name +:+ "' does not exist").

(** [_execute_drop_table] *)
Definition _execute_drop_table (table_name : string) : M Envelope.t :=
  exists_ <- gets (fun s => SchemaManager.table_exists (schema_mgr s) table_name) ;;
  if negb exists_ then ret (no_table table_name)
  else
    _ <- on_schema_mgr (fun m =>
           (SchemaManager.drop_schema m table_name, Ok tt)) ;;
    _ <- on_storage (fun h st => StorageEngine.drop_table h st table_name) ;;
    _ <- on_index_mgr (fun m =>
           (IndexManager.drop_table_indexes m table_name, Ok tt)) ;;
    ret (succeeded ("Table '" +:+ table_name +:+ "' dropped successfully")).

(** *** INSERT *)

(** The loop over the unique columns: an index that already holds the
    value of the new row ends the INSERT. *)
Fixpoint check_unique_columns (indexes : IndexManager.t)
    (table_name : string) (validated_row : Row) (cols : list string)
  : flow unit :=
  match cols with
  | [] => Next tt
  | col_name :: cols' =>
      match IndexManager.get_index indexes table_name col_name with
      | Some index =>
          let v := row_get col_name validated_row in
          if negb (is_None v)
             && negb (Nat.eqb (length (Index.lookup index v)) 0)
          then Return (failed ("Duplicate value '" +:+ str v
                               +:+ "' for unique column '" +:+ col_name
                               +:+ "'"))
          else check_unique_columns indexes table_name validated_row cols'
      | None => check_unique_columns indexes table_name validated_row cols'
      end
  end.

(** The check of the primary key. *)
Definition check_primary_key (indexes : IndexManager.t)
    (table_name : string) (validated_row : Row)
    (primary_key : option string) : flow unit :=
  match primary_key with
  | Some pk =>
      if str_truthy pk then
        match IndexManager.get_index indexes table_name pk with
        | Some pk_index =>
            let pk_value := row_get pk validated_row in
            if negb (is_None pk_value)
               && negb (Nat.eqb (length (Index.lookup pk_index pk_value)) 0)
            then Return (failed ("Duplicate primary key value: "
                                 +:+ str pk_value))
            else Next tt
        | None => Next tt
        end
      else Next tt
  | None => Next tt
  end.

(** The loop that enters the new row in every index of the table; the
    index objects are updated in place. *)
Fixpoint add_to_each (ixs : dict Index.t) (validated_row : Row)
    (row_idx : nat) : dict Index.t * result unit :=
  match ixs with
  | [] => ([], Ok tt)
  | (col_name, index) :: ixs' =>
      let v := row_get col_name validated_row in
      if negb (is_None v) then
        match Index.add index v row_idx with
        | (index', Raise e) => ((col_name, index') :: ixs', Raise e)
        | (index', Ok _) =>
            let '(ixs'', r) := add_to_each ixs' validated_row row_idx in
            ((col_name, index') :: ixs'', r)
        end
      else
        let '(ixs'', r) := add_to_each ixs' validated_row row_idx in
        ((col_name, index) :: ixs'', r)
  end.

Definition update_indexes (table_name : string) (validated_row : Row)
    (row_idx : nat) : M unit :=
  on_index_mgr (fun m =>
    match m !! table_name with
    | Some ixs =>
        let '(ixs', r) := add_to_each ixs validated_row row_idx in
        (<[table_name := ixs']> m, r)
    | None => (m, Ok tt)
    end).

(** The row dict of an INSERT: by the listed columns, or by the columns of
    the schema. *)
Definition build_row (schema : TableSchema.t) (columns : option (list string))
    (values : list value) : flow Row :=
  match columns with
  | Some (c :: cs) =>
      if negb (Nat.eqb (length (c :: cs)) (length values))
      then Return (failed "Column count doesn't match value count")
      else Next (dict_update [] (zip (c :: cs) values))
  | _ =>
      if negb (Nat.eqb (length values) (length (TableSchema.columns schema)))
      then Return (failed ("Expected "
                           +:+ str_of_nat (length (TableSchema.columns schema))
                           +:+ " values, got "
                           +:+ str_of_nat (length values)))
      else Next (dict_update []
                   (zip (TableSchema.get_column_names schema) values))
  end.

(** [_execute_insert] *)
Definition _execute_insert (table_name : string)
    (columns : option (list string)) (values : list value) : M Envelope.t :=
  schema <- gets (fun s => SchemaManager.get_schema (schema_mgr s) table_name) ;;
  match schema with
  | None => ret (no_table table_name)
  | Some schema =>
      match build_row schema columns values with
      | Return env => ret env
      | Next row =>
          match TableSchema.validate_row schema row with
          | Raise (ValueError msg) => ret (failed msg)
          | Raise e => raise e
          | Ok validated_row =>
              indexes <- gets index_mgr ;;
              match check_unique_columns indexes table_name validated_row
                      (TableSchema.unique_constraints schema) with
              | Return env => ret env
              | Next _ =>
                  match check_primary_key indexes table_name validated_row
                          (TableSchema.primary_key schema) with
                  | Return env => ret env
                  | Next _ =>
                      obj <- new_row validated_row ;;
                      _ <- on_storage (fun h st =>
                             StorageEngine.insert_row h st table_name obj) ;;
                      rows <- get_all_rows table_name ;;
                      let row_idx := length rows - 1 in
                      _ <- update_indexes table_name validated_row row_idx ;;
                      ret (succeeded ("Row inserted into '" +:+ table_name
                                      +:+ "'"))
                  end
              end
          end
      end
  end.

(** *** SELECT *)

(** The projection of one row on the requested columns. *)
Definition project (columns : list string) (row : Row) : Row :=
  dict_update [] (map (fun col => (col, row_get col row)) columns).

(** [columns == ['*']] *)
Definition is_star (columns : list string) : bool :=
  match columns with
  | [c] => String.eqb c "*"
  | _ => false
  end.

(** [result_rows.sort(key=lambda x: x.get(order_by, ''))] under
    [try ... except Exception: pass]: whatever the sort raises is dropped,
    and the list stays as the sort left it. *)
Definition sort_rows (order_by : string) (result_rows : list Row) : list Row :=
  fst (list_sort Py.lt (row_get_default order_by (VStr "")) result_rows).

(** [rows[:n]] *)
Definition slice_to {A} (n : Z) (rows : list A) : list A :=
  if (0 <=? n)%Z then take (Z.to_nat n) rows
  else take (length rows - Z.to_nat (- n)) rows.

(** Truth value of an [Optional[int]]: [None] and 0 are false. *)
Definition opt_int_truthy (o : option Z) : bool :=
  match o with Some n => negb (n =? 0)%Z | None => false end.

(** The last two steps of [_execute_select]. *)
Definition order_and_limit (order_by : option string) (limit : option Z)
    (result_rows : list Row) : list Row :=
  let sorted :=
    match order_by with
    | Some col => if str_truthy col then sort_rows col result_rows
                  else result_rows
    | None => result_rows
    end in
  if opt_int_truthy limit then slice_to (default 0%Z limit) sorted
  else sorted.

(** [_execute_select] *)
Definition _execute_select (columns : list string) (table_name : string)
    (where_ : option Where) (join : option Join.t)
    (order_by : option string) (limit : option Z) : M Envelope.t :=
  schema <- gets (fun s => SchemaManager.get_schema (schema_mgr s) table_name) ;;
  match schema with
  | None => ret (no_table table_name)
  | Some schema =>
      objs <- get_all_rows table_name ;;
      rows <- read_rows objs ;;
      rows <- (match where_ with
               | Some w => lift (_apply_where rows w)
               | None => ret rows
               end) ;;
      rows <- (match join with
               | Some join_info => _apply_join rows join_info table_name
               | None => ret rows
               end) ;;
      let result_rows :=
        if is_star columns then rows else map (project columns) rows in
      let result_rows := order_and_limit order_by limit result_rows in
      ret (Envelope.Build true
             ("Found " +:+ str_of_nat (length result_rows) +:+ " row(s)")
             (Some result_rows)
             (Some (if negb (is_star columns) then columns
                    else TableSchema.get_column_names schema)))
  end.

(** *** UPDATE *)

(** [if not parsed['where'] or self._row_matches_where(row, where, schema)] *)
Definition matches (where_ : option Where) (row : Row) : result bool :=
  match where_ with
  | None => Ok true
  | Some w => _row_matches_where row w
  end.

(** [for col, val in parsed['updates'].items(): row[col] = val], on the
    dict object [row]. *)
Definition assign_all (row : loc) (updates : dict value) : M unit :=
  fun s =>
    (with_heap s
       (fold_left (fun h kv => setitem h row (fst kv) (snd kv)) updates
                  (heap_of s)),
     Ok tt).

(** The loop of [_execute_update].  [todo] are the row objects still to
    visit, [i] the position of the first of them, [rows] the working
    list. *)
Fixpoint update_loop (schema : TableSchema.t) (where_ : option Where)
    (updates : dict value) (todo : list loc) (i : nat) (rows : list loc)
    (updated_count : nat) : M (flow (list loc * nat)) :=
  match todo with
  | [] => ret (Next (rows, updated_count))
  | row :: todo' =>
      content <- gets (fun s => deref (heap_of s) row) ;;
      hit <- lift (matches where_ content) ;;
      if (hit : bool) then
        _ <- assign_all row updates ;;
        content' <- gets (fun s => deref (heap_of s) row) ;;
        match TableSchema.validate_row schema content' with
        | Ok validated =>
            obj <- new_row validated ;;
            update_loop schema where_ updates todo' (S i) (<[i := obj]> rows)
                        (S updated_count)
        | Raise (ValueError msg) =>
            ret (Return (failed ("Validation error: " +:+ msg)))
        | Raise e => raise e
        end
      else update_loop schema where_ updates todo' (S i) rows updated_count
  end.

(** [self.storage.update_rows] then [self.index_mgr.rebuild_indexes], the
    common end of UPDATE and DELETE. *)
Definition save_and_rebuild (table_name : string) (rows : list loc) : M unit :=
  _ <- on_storage (fun h st => StorageEngine.update_rows h st table_name rows) ;;
  contents <- read_rows rows ;;
  on_index_mgr (fun m => IndexManager.rebuild_indexes m table_name contents).

(** [_execute_update] *)
Definition _execute_update (table_name : string) (updates : dict value)
    (where_ : option Where) : M Envelope.t :=
  schema <- gets (fun s => SchemaManager.get_schema (schema_mgr s) table_name) ;;
  match schema with
  | None => ret (no_table table_name)
  | Some schema =>
      rows <- get_all_rows table_name ;;
      out <- update_loop schema where_ updates rows 0 rows 0 ;;
      match out with
      | Return env => ret env
      | Next (rows', updated_count) =>
          _ <- save_and_rebuild table_name rows' ;;
          ret (succeeded ("Updated " +:+ str_of_nat updated_count
                          +:+ " row(s)"))
      end
  end.

(** *** DELETE *)

(** [[row for row in rows if not self._row_matches_where(row, where,
    schema)]], on row objects. *)
Definition keep_unmatched (where_ : Where) (rows : list loc) : M (list loc) :=
  fun s =>
    (s, filter_rows
          (fun row =>
             match _row_matches_where (deref (heap_of s) row) where_ with
             | Ok b => Ok (negb b)
             | Raise e => Raise e
             end) rows).

(** [_execute_delete] *)
Definition _execute_delete (table_name : string) (where_ : option Where)
  : M Envelope.t :=
  schema <- gets (fun s => SchemaManager.get_schema (schema_mgr s) table_name) ;;
  match schema with
  | None => ret (no_table table_name)
  | Some schema =>
      rows <- get_all_rows table_name ;;
      let original_count := length rows in
      kept <- (match where_ with
               | Some w => keep_unmatched w rows
               | None => ret []
               end) ;;
      let deleted_count := original_count - length kept in
      _ <- save_and_rebuild table_name kept ;;
      ret (succeeded ("Deleted " +:+ str_of_nat deleted_count +:+ " row(s)"))
  end.

(** *** The entry point *)

(** The body of the [try] in [execute]. *)
Definition dispatch (parsed_query : Command) : M Envelope.t :=
  match parsed_query with
  | CREATE_TABLE table columns primary_key unique_columns =>
      _execute_create_table table columns primary_key unique_columns
  | DROP_TABLE table => _execute_drop_table table
  | INSERT table columns values => _execute_insert table columns values
  | SELECT columns table where_ join order_by limit =>
      _execute_select columns table where_ join order_by limit
  | UPDATE table updates where_ => _execute_update table updates where_
  | DELETE table where_ => _execute_delete table where_
  | OTHER command => ret (failed ("Unknown command: " +:+ command))
  end.

(** [execute]: [except Exception as e] turns whatever the body raises
    into an envelope. *)
Definition execute (parsed_query : Command) (s : State) : State * Envelope.t :=
  match dispatch parsed_query s with
  | (s', Ok env) => (s', env)
  | (s', Raise e) => (s', failed ("Error: " +:+ str_exn e))
  end.

End QueryExecutor.

(** The state after a sequence of commands. *)
Definition run (cmds : list Command) (s : State) : State :=
  fold_left (fun s c => fst (QueryExecutor.execute c s)) cmds s.

(* ===================================================================== *)
(** * database/parser.py                                                  *)
(* ===================================================================== *)

(** The helpers of [class SQLParser] that work on the text of a token.
    The methods that walk the token tree of the [sqlparse] library are
    not part of this development. *)
Module SQLParser.

(** [str.upper] on one character.  Among the code points below 256 only
    [a] to [z] have an ASCII capital as their upper case, and only the
    upper case of U+00DF, [SS], is made of ASCII letters; so a comparison
    of [s.upper()] with [TRUE], [FALSE] or [NULL] is decided by the upper
    case of [a] to [z]. *)
Definition upper_char (c : ascii) : ascii :=
  let n := code c in
  if ((97 <=? n) && (n <=? 122))%N then ascii_of_N (n - 32) else c.

Fixpoint upper (s : string) : string :=
  match s with
  | EmptyString => EmptyString
  | String c s' => String (upper_char c) (upper s')
  end.

(** [s.strip()] on a string. *)
Definition strip_str (s : string) : string :=
  string_of_list_ascii (strip (list_ascii_of_string s)).

(** [s.startswith(c)] and [s.endswith(c)] for a one-character [c]. *)
Definition startswith (c : ascii) (s : string) : bool :=
  match s with
  | String d _ => Ascii.eqb d c
  | EmptyString => false
  end.

Definition endswith (c : ascii) (s : string) : bool :=
  match rev (list_ascii_of_string s) with
  | d :: _ => Ascii.eqb d c
  | [] => false
  end.

(** [s[1:-1]] *)
Definition inner (s : string) : string :=
  string_of_list_ascii (removelast (tl (list_ascii_of_string s))).

(** [sub in s] for strings. *)
Fixpoint contains (sub s : string) : bool :=
  if String.prefix sub s then true
  else match s with
       | EmptyString => false
       | String _ s' => contains sub s'
       end.

(** [s.split(c, 1)]: at most one cut, at the first [c]. *)
Fixpoint split_once (c : ascii) (s : string) : list string :=
  match s with
  | EmptyString => [EmptyString]
  | String d s' =>
      if Ascii.eqb c d then [EmptyString; s']
      else match split_once c s' with
           | p :: ps => String d p :: ps
           | [] => [String d EmptyString]
           end
  end.

(** [_parse_value]: the [ValueError] of [int] and [float] is caught, and
    the text is the value. *)
Definition _parse_value (value_str : string) : value :=
  let value_str := strip_str value_str in
  if startswith "'" value_str && endswith "'" value_str
     || startswith double_quote value_str && endswith double_quote value_str
  then VStr (inner value_str)
  else if str_in (upper value_str) ["TRUE"; "FALSE"]
  then VBool (String.eqb (upper value_str) "TRUE")
  else if String.eqb (upper value_str) "NULL" then VNone
  else if contains_char "." value_str then
    match float_of_str value_str with
    | Some f => VFloat f
    | None => VStr value_str
    end
  else
    match int_of_str value_str with
    | Some n => VInt n
    | None => VStr value_str
    end.

(** [_parse_values] *)
Definition _parse_values (values_str : string) : list value :=
  map (fun val => _parse_value (strip_str val)) (split_on "," values_str).

(** [_parse_comparison], on the text of the comparison token. *)
Definition _parse_comparison (comp_str : string) : result (string * value) :=
  match split_once "=" comp_str with
  | [column; value_str] =>
      Ok (strip_str column, _parse_value (strip_str value_str))
  | _ => Raise (ValueError ("Invalid comparison: " +:+ comp_str))
  end.

(** [_extract_operator], on the text of the comparison token. *)
Definition _extract_operator (comp_str : string) : string :=
  if contains ">=" comp_str then ">="
  else if contains "<=" comp_str then "<="
  else if contains ">" comp_str then ">"
  else if contains "<" comp_str then "<"
  else if contains "=" comp_str then "="
  else if contains "!=" comp_str || contains "<>" comp_str then "!="
  else "=".

(** The body of the loop of [_parse_where]: the condition a comparison
    token stands for. *)
Definition condition_of (comp_str : string) : result Where :=
  match _parse_comparison comp_str with
  | Ok (col, val) => Ok (Cond col (_extract_operator comp_str) val)
  | Raise e => Raise e
  end.

(** [_parse_join_condition], on the text of the comparison token. *)
Definition _parse_join_condition (comp_str : string)
  : result (string * string) :=
  match split_on "=" comp_str with
  | [l; r] => Ok (strip_str l, strip_str r)
  | _ => Raise (ValueError ("Invalid join condition: " +:+ comp_str))
  end.

End SQLParser.

(* ===================================================================== *)
(** * Observations and example data                                       *)
(* ===================================================================== *)

(** ** The example database *)

(** [CREATE TABLE people (id INTEGER PRIMARY KEY NOT NULL, name VARCHAR(3))] *)
Definition create_people : Command :=
  CREATE_TABLE "people"
    [ColInfo.Build "id" "INTEGER" None false;
     ColInfo.Build "name" "VARCHAR" (Some 3%Z) true]
    (Some "id") [].

(** [INSERT INTO people VALUES (id, name)] *)
Definition insert_person (id : Z) (name : string) : Command :=
  INSERT "people" None [VInt id; VStr name].

Definition person (id : Z) (name : string) : Row :=
  [("id", VInt id); ("name", VStr name)].

(** Two people, in an engine that saves to [db.json]. *)
Definition two_people : State :=
  run [create_people; insert_person 1 "Ann"; insert_person 2 "Bob"]
      (start (Some "db.json") None).

(** [SELECT * FROM people] *)
Definition select_people : Command :=
  SELECT ["*"] "people" None None None None.

(** [UPDATE people SET name = 'Robert' WHERE id = 2]: the new name does
    not fit VARCHAR(3). *)
Definition rename_bob : Command :=
  UPDATE "people" [("name", VStr "Robert")] (Some (Cond "id" "=" (VInt 2))).

(** [UPDATE people SET id = 1] *)
Definition same_id_for_all : Command :=
  UPDATE "people" [("id", VInt 1)] None.

(** [CREATE TABLE scores (rank INTEGER)] and four rows, the last with a
    NULL rank. *)
Definition create_scores : Command :=
  CREATE_TABLE "scores" [ColInfo.Build "rank" "INTEGER" None true] None [].

Definition insert_score (v : value) : Command := INSERT "scores" None [v].

Definition four_scores : State :=
  run [create_scores; insert_score (VInt 1); insert_score (VInt 3);
       insert_score (VInt 2); insert_score VNone]
      (start None None).

(** The float 3.5, that is 7881299347898368 * 2^-51. *)
Definition three_and_a_half : float := S754_finite false 7881299347898368 (-51).

(** [SELECT name FROM people WHERE id > 'x']: the comparison of a number
    with a string raises. *)
Definition select_ill_typed : Command :=
  SELECT ["name"] "people" (Some (Cond "id" ">" (VStr "x"))) None None None.

(** A nullable INTEGER column. *)
Definition integer_column : Column.t := Column.Build "n" INTEGER None true.

(** The message of a failed conversion. *)
Definition cannot_convert (shown kind : string) : exn :=
  ValueError ("Cannot convert '" +:+ shown +:+ "' to " +:+ kind).

(** The message of a VARCHAR value that is too long. *)
Definition exceeds (shown : string) (n : Z) : exn :=
  ValueError ("Value '" +:+ shown +:+ "' exceeds max length " +:+ str_of_Z n).

(** The persisted document of a state. *)
Definition persisted (s : State) : option snapshot :=
  StorageEngine.file (storage s).

(** What [lookup] answers for a value in the index of a column, through
    the index manager. *)
Definition lookup_in (m : IndexManager.t) (table_name column_name : string)
    (v : value) : list nat :=
  match IndexManager.get_index m table_name column_name with
  | Some index => Index.lookup index v
  | None => []
  end.

(** ** Relations between the states before and after a computation *)

(** The names in the schema catalog are the names in the row store. *)
Definition in_sync (s : State) : Prop :=
  dom (schema_mgr s) =@{gset string} dom (StorageEngine.tables (storage s)).

(** Only the index manager differs. *)
Definition only_indexes (s s' : State) : Prop :=
  heap_of s' = heap_of s /\ storage s' = storage s
  /\ schema_mgr s' = schema_mgr s.

(** The schema catalog is the same and the row store has the same table
    names. *)
Definition same_names (s s' : State) : Prop :=
  schema_mgr s' = schema_mgr s
  /\ dom (StorageEngine.tables (storage s'))
     =@{gset string} dom (StorageEngine.tables (storage s)).

(** A computation relates every state it starts in to the state it ends
    in, whether it returns or raises. *)
Definition preserves (R : State -> State -> Prop) {A} (m : M A) : Prop :=
  forall s s' r, m s = (s', r) -> R s s'.

(** The snapshot an engine is started on, when there is one to load. *)
Definition loaded (data_file : option string) (file : option snapshot)
  : option snapshot :=
  if opt_str_truthy data_file then file else None.

(** The table a data command is addressed at. *)
Definition table_of (c : Command) : option string :=
  match c with
  | INSERT table _ _ | SELECT _ table _ _ _ _ | UPDATE table _ _
  | DELETE table _ => Some table
  | _ => None
  end.

Definition is_create (c : Command) : bool :=
  match c with CREATE_TABLE _ _ _ _ => true | _ => false end.

(** The JOIN clause, if there is one, names a table of the row store. *)
Definition joins_stored_table (s : State) (join : option Join.t) : Prop :=
  match join with
  | Some join_info =>
      is_Some (StorageEngine.tables (storage s) !! Join.table join_info)
  | None => True
  end.

(** An engine started on a snapshot that holds the table [people]. *)
Definition started_on_snapshot : State :=
  start (Some "db.json") (Some {[ "people" := [person 1 "Ann"] ]}).

(** ** More observations *)

(** Two numbers are equal. *)
Definition num_eqb (x y : num) : bool :=
  match num_compare x y with Some Eq => true | _ => false end.

(** ** Rows and the values of a column *)

(** The positions, counted from [i], of the rows whose value in [column]
    is not NULL and equals [v]. *)
Fixpoint positions_from (column : string) (v : value) (rows : list Row)
    (i : nat) : list nat :=
  match rows with
  | [] => []
  | row :: rows' =>
      let x := row_get column row in
      (if negb (is_None x) && Py.eq v x then [i] else [])
        ++ positions_from column v rows' (S i)
  end.

(** No two rows hold values of [column] that are not NULL and equal. *)
Definition distinct_values (column : string) (rows : list Row) : Prop :=
  forall (i j : nat) (ri rj : Row),
    i < j -> rows !! i = Some ri -> rows !! j = Some rj ->
    is_None (row_get column ri) = false ->
    Py.eq (row_get column rj) (row_get column ri) = false.

(** The schema of the table [people] of the examples. *)
Definition people_schema : TableSchema.t :=
  TableSchema.Build "people"
    [Column.Build "id" INTEGER None false;
     Column.Build "name" VARCHAR (Some 3%Z) true]
    (Some "id") [] ["id"].

(** A unique index on the column [id] of [people], and a plain one. *)
Definition id_index (unique : bool) : Index.t :=
  Index.Build "people" "id" unique [].

(** The state is the same. *)
Definition unchanged (s s' : State) : Prop := s' = s.

(** Only the row objects differ. *)
Definition only_heap (s s' : State) : Prop :=
  storage s' = storage s /\ schema_mgr s' = schema_mgr s
  /\ index_mgr s' = index_mgr s.

(** Every row object a table refers to exists. *)
Definition heap_ok (s : State) : Prop :=
  map_Forall (fun _ locs => Forall (fun l => l < length (heap_of s)) locs)
             (StorageEngine.tables (storage s)).

(** The number of rows of every table. *)
Definition row_counts (s : State) : gmap string nat :=
  length <$> StorageEngine.tables (storage s).

(** The truth of a WHERE clause on a row; a comparison that raises counts
    as false. *)
Definition holds (where_ : Where) (row : Row) : bool :=
  match QueryExecutor._row_matches_where row where_ with Ok b => b | Raise _ => false end.

(** The commands that write to the row store. *)
Definition writes (c : Command) : bool :=
  match c with
  | CREATE_TABLE _ _ _ _ | DROP_TABLE _ | INSERT _ _ _ | UPDATE _ _ _
  | DELETE _ _ => true
  | _ => false
  end.

(** The data file holds the tables as they are now. *)
Definition saved (s : State) : Prop :=
  persisted s
  = Some (StorageEngine.dump (heap_of s) (StorageEngine.tables (storage s))).

(** The engine a front end sets up on the data file of [s], as it is now. *)
Definition restart (s : State) : State :=
  start (StorageEngine.data_file (storage s)) (persisted s).

(** The index of column [c] of table [t] answers every lookup with the
    positions of the rows of the table that hold the value. *)
Definition index_agrees (s : State) (t c : string) : Prop :=
  exists (ix : Index.t) (rows : list Row),
    IndexManager.get_index (index_mgr s) t c = Some ix
    /\ Index.column_name ix = c
    /\ table_rows s t = Some rows
    /\ forall v, Index.lookup ix v = positions_from c v rows 0.

(** The table whose indexes a command rebuilds. *)
Definition rebuilds (c : Command) : option string :=
  match c with
  | UPDATE table _ _ | DELETE table _ => Some table
  | _ => None
  end.

(** The characters of a decimal numeral. *)
Definition numeral_char (c : ascii) : bool := is_digit c || Ascii.eqb c "-".

(** When the tables refer to existing row objects before, they do so
    after. *)
Definition keeps_heap_ok (s s' : State) : Prop := heap_ok s -> heap_ok s'.

(** The row objects are the same, and every table is new and empty or as
    it was. *)
Definition no_new_rows (s s' : State) : Prop :=
  heap_of s' = heap_of s
  /\ forall t locs,
       StorageEngine.tables (storage s') !! t = Some locs ->
       locs = [] \/ StorageEngine.tables (storage s) !! t = Some locs.

(* ===================================================================== *)
(** * Properties of the engine                                            *)
(* ===================================================================== *)

Import QueryExecutor.

(** ** Index rebuild *)

Section IndexRebuild.

Lemma add_keeps_fields (ix : Index.t) (v : value) (i : nat) :
  Index.with_map (fst (Index.add ix v i)) [] = Index.with_map ix [].
Proof.
  unfold Index.add.
  destruct (is_None v); [reflexivity|].
  destruct (Index.unique ix && Index.map_has v (Index.index_map ix));
    reflexivity.
Qed.

Lemma build_from_keeps_fields (rows : list Row) :
  forall (ix : Index.t) (i : nat),
    Index.with_map (fst (Index.build_from ix rows i)) []
    = Index.with_map ix [].
Proof.
  induction rows as [|row rows IH]; intros ix i; simpl; [reflexivity|].
  destruct (negb (is_None (row_get (Index.column_name ix) row))).
  - pose proof (add_keeps_fields ix (row_get (Index.column_name ix) row) i)
      as Hadd.
    destruct (Index.add ix (row_get (Index.column_name ix) row) i)
      as [ix' [[]|e]]; simpl in *.
    + rewrite IH. exact Hadd.
    + exact Hadd.
  - apply IH.
Qed.

(** Building an index again from the same rows gives the same index and
    the same outcome. *)
Lemma build_idempotent (ix : Index.t) (rows : list Row) :
  Index.build (fst (Index.build ix rows)) rows = Index.build ix rows.
Proof.
  unfold Index.build at 1 3.
  f_equal. unfold Index.build.
  rewrite build_from_keeps_fields. reflexivity.
Qed.

Lemma rebuild_each_idempotent (rows : list Row) :
  forall ixs : dict Index.t,
    IndexManager.rebuild_each (fst (IndexManager.rebuild_each ixs rows)) rows
    = IndexManager.rebuild_each ixs rows.
Proof.
  induction ixs as [|[c ix] ixs IH]; simpl; [reflexivity|].
  pose proof (build_idempotent ix rows) as Hb.
  destruct (Index.build ix rows) as [ix' [[]|e]] eqn:Hbuild; simpl in Hb.
  - destruct (IndexManager.rebuild_each ixs rows) as [ixs' r] eqn:Hrest.
    simpl in *. rewrite Hb, IH. reflexivity.
  - simpl. rewrite Hb. reflexivity.
Qed.

(** Rebuilding the indexes of a table twice from the same rows leaves the
    index manager as one rebuild leaves it, with the same outcome. *)
Lemma rebuild_indexes_twice (m : IndexManager.t) (table_name : string)
    (rows : list Row) :
  IndexManager.rebuild_indexes
    (fst (IndexManager.rebuild_indexes m table_name rows)) table_name rows
  = IndexManager.rebuild_indexes m table_name rows.
Proof.
  unfold IndexManager.rebuild_indexes at 2 3.
  destruct (m !! table_name) as [ixs|] eqn:Hm.
  - pose proof (rebuild_each_idempotent rows ixs) as Hidem.
    destruct (IndexManager.rebuild_each ixs rows) as [ixs' r] eqn:Hr.
    simpl in *. unfold IndexManager.rebuild_indexes.
    rewrite lookup_insert_eq, Hidem, insert_insert_eq. reflexivity.
  - simpl. unfold IndexManager.rebuild_indexes. rewrite Hm. reflexivity.
Qed.

End IndexRebuild.

(** C9.  Index rebuild is idempotent: after [rebuild_indexes] has run
    twice in a row with the same row sequence, every lookup, in every
    index and for every value, answers what it answers after the first
    run; the second run also ends as the first (it raises the same
    exception if the first raised). *)
Theorem rebuild_indexes_idempotent (m : IndexManager.t) (table_name : string)
    (rows : list Row) :
  let once := IndexManager.rebuild_indexes m table_name rows in
  let twice := IndexManager.rebuild_indexes (fst once) table_name rows in
  (forall (t c : string) (v : value),
      lookup_in (fst twice) t c v = lookup_in (fst once) t c v)
  /\ snd twice = snd once.
Proof.
  intros once twice. subst once twice.
  rewrite rebuild_indexes_twice. split; reflexivity.
Qed.

(** ** LIMIT *)

Lemma length_slice_to {A} (n : Z) (rows : list A) :
  (0 <= n)%Z -> length (slice_to n rows) <= Z.to_nat n.
Proof.
  intros Hn. unfold slice_to.
  destruct (0 <=? n)%Z eqn:E; [|lia].
  rewrite length_take. lia.
Qed.

(** A LIMIT above zero bounds the number of rows of the answer. *)
Lemma select_positive_limit (s s' : State) (env : Envelope.t)
    (columns : list string) (table : string) (where_ : option Where)
    (join : option Join.t) (order_by : option string) (n : Z)
    (rows : list Row) :
  (0 < n)%Z ->
  execute (SELECT columns table where_ join order_by (Some n)) s = (s', env) ->
  Envelope.data env = Some rows ->
  length rows <= Z.to_nat n.
Proof.
  intros Hn Hexec Hdata.
  unfold execute, dispatch, _execute_select, bind, gets in Hexec.
  destruct (SchemaManager.get_schema (schema_mgr s) table);
    [|inversion Hexec; subst; discriminate].
  destruct (get_all_rows table s) as [s1 [objs|e]];
    [|inversion Hexec; subst; discriminate].
  unfold read_rows, gets in Hexec.
  match type of Hexec with
  | context [match ?w s1 with _ => _ end] =>
      destruct (w s1) as [s2 [rows1|e]];
        [|inversion Hexec; subst; discriminate]
  end.
  match type of Hexec with
  | context [match ?w s2 with _ => _ end] =>
      destruct (w s2) as [s3 [rows2|e]];
        [|inversion Hexec; subst; discriminate]
  end.
  unfold ret in Hexec. inversion Hexec; subst; clear Hexec.
  simpl in Hdata. inversion Hdata; subst; clear Hdata.
  unfold order_and_limit. simpl.
  destruct (n =? 0)%Z eqn:E; [lia|]. simpl.
  apply length_slice_to. lia.
Qed.

(** C4.  [SELECT * FROM people LIMIT 0] on a table of two rows answers
    with both rows: the test [if parsed['limit']] takes the limit 0 for an
    absent limit, so nothing is cut. *)
Theorem limit_zero_returns_every_row :
  snd (execute (SELECT ["*"] "people" None None None (Some 0%Z)) two_people)
  = Envelope.Build true "Found 2 row(s)"
      (Some [person 1 "Ann"; person 2 "Bob"]) (Some ["id"; "name"]).
Proof. vm_compute. reflexivity. Qed.

(** ** ORDER BY *)

(** The ranks of the example, in the order of the table. *)
Lemma four_scores_rows :
  table_rows four_scores "scores"
  = Some [[("rank", VInt 1)]; [("rank", VInt 3)]; [("rank", VInt 2)];
          [("rank", VNone)]].
Proof. vm_compute. reflexivity. Qed.

(** C7.  [SELECT * FROM scores ORDER BY rank] on the ranks 1, 3, 2, NULL:
    the sort raises when it compares NULL with a number, the exception is
    dropped and the command succeeds, but the rows come back as the sort
    left them, 1, 2, 3, NULL, and not in the order of the table. *)
Theorem failed_sort_leaves_rows_rearranged :
  snd (list_sort Py.lt (row_get_default "rank" (VStr ""))
         [[("rank", VInt 1)]; [("rank", VInt 3)]; [("rank", VInt 2)];
          [("rank", VNone)]])
  = Some (TypeError
            "'<' not supported between instances of 'NoneType' and 'int'")
  /\ snd (execute (SELECT ["*"] "scores" None None (Some "rank") None)
                  four_scores)
     = Envelope.Build true "Found 4 row(s)"
         (Some [[("rank", VInt 1)]; [("rank", VInt 2)]; [("rank", VInt 3)];
                [("rank", VNone)]])
         (Some ["rank"]).
Proof. split; vm_compute; reflexivity. Qed.

(** ** UPDATE *)

(** C1.  [UPDATE people SET name = 'Robert' WHERE id = 2] fails the
    validation of VARCHAR(3) and answers with a failure envelope, yet the
    table has changed: the assignment was made on the row object the
    storage engine holds, since [get_all_rows] copies the list and not the
    rows.  The file is not written by the failed UPDATE, but the next
    command that saves writes the changed row. *)
Theorem failed_update_changes_the_table :
  let before := two_people in
  let '(after, env) := execute rename_bob before in
  env = failed "Validation error: Value 'Robert' exceeds max length 3"
  /\ table_rows before "people" = Some [person 1 "Ann"; person 2 "Bob"]
  /\ table_rows after "people" = Some [person 1 "Ann"; person 2 "Robert"]
  /\ persisted after
     = Some {[ "people" := [person 1 "Ann"; person 2 "Bob"] ]}
  /\ persisted (fst (execute (insert_person 3 "Cy") after))
     = Some {[ "people" := [person 1 "Ann"; person 2 "Robert";
                            person 3 "Cy"] ]}.
Proof. vm_compute. repeat split; reflexivity. Qed.

(** C2.  After the rows with the primary keys 1 and 2 are inserted, a
    second INSERT of the key 1 fails and leaves the two rows, but
    [UPDATE people SET id = 1] leaves two rows with the primary key 1 in
    the table: the rows are stored before the unique index is rebuilt, and
    the rebuild is what raises. *)
Theorem update_stores_duplicate_primary_keys :
  execute (insert_person 1 "Cy") two_people
  = (two_people, failed "Duplicate primary key value: 1")
  /\ snd (execute same_id_for_all two_people)
     = failed "Error: Duplicate value '1' violates unique constraint on people.id"
  /\ table_rows (fst (execute same_id_for_all two_people)) "people"
     = Some [person 1 "Ann"; person 1 "Bob"]
  /\ persisted (fst (execute same_id_for_all two_people))
     = Some {[ "people" := [person 1 "Ann"; person 1 "Bob"] ]}.
Proof. vm_compute. repeat split; reflexivity. Qed.

(** ** The executor boundary *)

(** C5.  [execute] always answers with an envelope and never raises: when
    the handler of the command raises [e] at any point, the answer is the
    failure envelope with the message ["Error: " + str(e)], in the state
    the handler had reached; when the handler returns, the answer is its
    envelope. *)
Theorem execute_never_raises (c : Command) (s : State) :
  exists (s' : State) (env : Envelope.t),
    execute c s = (s', env)
    /\ s' = fst (dispatch c s)
    /\ match snd (dispatch c s) with
       | Raise e => env = failed ("Error: " +:+ str_exn e)
       | Ok env' => env = env'
       end.
Proof.
  unfold execute.
  destruct (dispatch c s) as [s' [env|e]]; simpl; eauto.
Qed.

(** An exception that reaches the boundary: the comparison of a number
    with a string in a WHERE clause. *)
Remark ill_typed_where_is_reported :
  snd (dispatch select_ill_typed two_people)
  = Raise (TypeError
             "'>' not supported between instances of 'int' and 'str'")
  /\ execute select_ill_typed two_people
     = (two_people,
        failed "Error: '>' not supported between instances of 'int' and 'str'").
Proof. split; vm_compute; reflexivity. Qed.

(** ** Coercion of column values *)

(** An INTEGER column takes the float 3.5, which is neither an integer
    nor a string, and stores 3. *)
Lemma integer_column_truncates_a_float :
  isinstance_int (VFloat three_and_a_half) = false
  /\ isinstance_str (VFloat three_and_a_half) = false
  /\ Column.validate_value integer_column (VFloat three_and_a_half)
     = Ok (VInt 3).
Proof. repeat split. Qed.

(** An INTEGER column stores a boolean as the boolean it is. *)
Remark integer_column_keeps_a_boolean :
  Column.validate_value integer_column (VBool true) = Ok (VBool true).
Proof. reflexivity. Qed.

(** C6, amended.  For a value that is not NULL:
    - an INTEGER column stores integers and booleans unchanged, converts
      the strings [int] reads and the floats (truncated toward zero; NaN
      fails and an infinity raises [OverflowError]), and fails on every
      other string;
    - a FLOAT column converts booleans, integers (an integer too large
      for a float raises [OverflowError]), floats and the strings [float]
      reads, fails on every other string, and what it stores is a float;
    - a VARCHAR column stores [str(value)]; with no [max_length] it
      accepts every value, and with a positive [max_length] it rejects
      the value exactly when the length of the string exceeds it;
    - a BOOLEAN column stores booleans unchanged, reads the strings
      true/1/yes and false/0/no in any letter case, and fails on
      everything else. *)
Theorem validate_value_coercion (col : Column.t) (v : value)
    (Hv : is_None v = false) :
  match Column.data_type col, v with
  | _, VNone => True
  | INTEGER, (VBool _ | VInt _) => Column.validate_value col v = Ok v
  | INTEGER, VStr s =>
      Column.validate_value col v
      = match int_of_str s with
        | Some n => Ok (VInt n)
        | None => Raise (cannot_convert s "INTEGER")
        end
  | INTEGER, VFloat f =>
      Column.validate_value col v
      = match f with
        | S754_nan => Raise (cannot_convert "nan" "INTEGER")
        | S754_infinity _ =>
            Raise (OverflowError "cannot convert float infinity to integer")
        | S754_zero _ => Ok (VInt 0)
        | S754_finite neg m e =>
            Ok (VInt (cond_Zopp neg
                        (if (0 <=? e)%Z then Z.pos m * 2 ^ e
                         else Z.pos m / 2 ^ (- e))))
        end
  | FLOAT, VBool b => Column.validate_value col v = Ok (VFloat (float_of_bool b))
  | FLOAT, VInt n =>
      Column.validate_value col v
      = match float_of_Z n with
        | Ok f => Ok (VFloat f)
        | Raise e => Raise e
        end
  | FLOAT, VFloat f => Column.validate_value col v = Ok (VFloat f)
  | FLOAT, VStr s =>
      Column.validate_value col v
      = match float_of_str s with
        | Some f => Ok (VFloat f)
        | None => Raise (cannot_convert s "FLOAT")
        end
  | VARCHAR, _ =>
      match Column.max_length col with
      | None => Column.validate_value col v = Ok (VStr (str v))
      | Some n =>
          (0 < n)%Z ->
          Column.validate_value col v
          = if (n <? Z.of_nat (String.length (str v)))%Z
            then Raise (exceeds (str v) n)
            else Ok (VStr (str v))
      end
  | BOOLEAN, VBool b => Column.validate_value col v = Ok (VBool b)
  | BOOLEAN, VStr s =>
      Column.validate_value col v
      = if str_in (lower s) ["true"; "1"; "yes"] then Ok (VBool true)
        else if str_in (lower s) ["false"; "0"; "no"] then Ok (VBool false)
        else Raise (cannot_convert s "BOOLEAN")
  | BOOLEAN, _ =>
      Column.validate_value col v = Raise (cannot_convert (str v) "BOOLEAN")
  end.
Proof.
  destruct col as [name ty len nullable].
  destruct ty, v as [|b|n|f|s]; simpl in *; try discriminate; trivial;
    unfold Column.validate_value, cannot_convert; simpl; try reflexivity;
    lazymatch goal with
    | |- match len with _ => _ end =>
        unfold Column.too_long, exceeds, Column.max_length_str; simpl;
        destruct len as [k|]; [intros Hk|reflexivity];
        replace (k =? 0)%Z with false by (symmetry; apply Z.eqb_neq; lia);
        reflexivity
    | |- context [int_of_float ?f] => destruct f; reflexivity
    | |- context [int_of_str ?s] => destruct (int_of_str s); reflexivity
    | |- context [float_of_Z ?n] => destruct (float_of_Z n); reflexivity
    | |- context [float_of_str ?s] => destruct (float_of_str s); reflexivity
    end.
Qed.

Lemma validate_value_coercion_witness :
  is_None (VFloat three_and_a_half) = false
  /\ Column.validate_value integer_column (VFloat three_and_a_half)
     = Ok (VInt 3).
Proof.
  split; [reflexivity|].
  exact (validate_value_coercion integer_column (VFloat three_and_a_half)
           eq_refl).
Defined.

(** What the amended statement leaves open: a VARCHAR column of length 0
    accepts a string of any length. *)
Remark varchar_zero_accepts_everything :
  Column.validate_value (Column.Build "s" VARCHAR (Some 0%Z) true) (VStr "abc")
  = Ok (VStr "abc").
Proof. reflexivity. Qed.

(** ** Catalog and row store *)

Section Preservation.

Variable R : State -> State -> Prop.
Hypothesis R_refl : forall s, R s s.
Hypothesis R_trans : forall s1 s2 s3, R s1 s2 -> R s2 s3 -> R s1 s3.

Lemma preserves_ret {A} (a : A) : preserves R (ret a).
Proof. intros s s' r H. inversion H; subst. apply R_refl. Qed.

Lemma preserves_raise {A} (e : exn) : preserves R (@raise A e).
Proof. intros s s' r H. inversion H; subst. apply R_refl. Qed.

Lemma preserves_lift {A} (x : result A) : preserves R (lift x).
Proof. intros s s' r H. inversion H; subst. apply R_refl. Qed.

Lemma preserves_gets {A} (f : State -> A) : preserves R (gets f).
Proof. intros s s' r H. inversion H; subst. apply R_refl. Qed.

Lemma preserves_get_all_rows (t : string) : preserves R (get_all_rows t).
Proof. intros s s' r H. inversion H; subst. apply R_refl. Qed.

Lemma preserves_read_rows (rows : list loc) : preserves R (read_rows rows).
Proof. apply preserves_gets. Qed.

Lemma preserves_keep_unmatched (w : Where) (rows : list loc) :
  preserves R (keep_unmatched w rows).
Proof. intros s s' r H. inversion H; subst. apply R_refl. Qed.

Lemma preserves_bind {A B} (m : M A) (k : A -> M B) :
  preserves R m -> (forall a, preserves R (k a)) -> preserves R (bind m k).
Proof.
  intros Hm Hk s s' r H. unfold bind in H.
  destruct (m s) as [s1 [a|e]] eqn:E.
  - eapply R_trans; [eapply Hm, E | eapply Hk, H].
  - inversion H; subst. eapply Hm, E.
Qed.

End Preservation.

Lemma only_indexes_refl (s : State) : only_indexes s s.
Proof. repeat split. Qed.

Lemma only_indexes_trans (s1 s2 s3 : State) :
  only_indexes s1 s2 -> only_indexes s2 s3 -> only_indexes s1 s3.
Proof. intros (?&?&?) (?&?&?). repeat split; congruence. Qed.

Lemma same_names_refl (s : State) : same_names s s.
Proof. split; reflexivity. Qed.

Lemma same_names_trans (s1 s2 s3 : State) :
  same_names s1 s2 -> same_names s2 s3 -> same_names s1 s3.
Proof. intros [? ?] [? ?]. split; congruence. Qed.

Lemma only_indexes_same_names (s s' : State) :
  only_indexes s s' -> same_names s s'.
Proof. intros (?&Hst&?). split; [assumption|]. rewrite Hst. reflexivity. Qed.

Lemma same_names_in_sync (s s' : State) :
  same_names s s' -> in_sync s -> in_sync s'.
Proof. unfold in_sync. intros [H1 H2] H. rewrite H1, H2. exact H. Qed.

Lemma on_index_mgr_only_indexes {A}
    (f : IndexManager.t -> IndexManager.t * result A) :
  preserves only_indexes (on_index_mgr f).
Proof.
  intros s s' r H. unfold on_index_mgr in H.
  destruct (f (index_mgr s)) as [m x]. inversion H; subst. repeat split.
Qed.

Lemma on_index_mgr_same_names {A}
    (f : IndexManager.t -> IndexManager.t * result A) :
  preserves same_names (on_index_mgr f).
Proof.
  intros s s' r H. eapply only_indexes_same_names, on_index_mgr_only_indexes, H.
Qed.

Lemma new_row_same_names (r : Row) : preserves same_names (new_row r).
Proof. intros s s' x H. inversion H; subst. split; reflexivity. Qed.

Lemma assign_all_same_names (row : loc) (updates : dict value) :
  preserves same_names (assign_all row updates).
Proof. intros s s' x H. inversion H; subst. split; reflexivity. Qed.

Lemma save_keeps_tables (h : heap) (st : StorageEngine.t) :
  StorageEngine.tables (StorageEngine._save_to_disk h st)
  = StorageEngine.tables st.
Proof.
  unfold StorageEngine._save_to_disk.
  destruct (opt_str_truthy (StorageEngine.data_file st)); reflexivity.
Qed.

Lemma dom_insert_present {V} (m : gmap string V) (k : string) (v w : V) :
  m !! k = Some w -> dom (<[k := v]> m) =@{gset string} dom m.
Proof. intros Hk. apply dom_insert_lookup_L. eauto. Qed.

Lemma insert_row_same_names (t : string) (obj : loc) :
  preserves same_names
    (on_storage (fun h st => StorageEngine.insert_row h st t obj)).
Proof.
  intros s s' r H. unfold on_storage, StorageEngine.insert_row in H.
  destruct (StorageEngine.tables (storage s) !! t) as [rows|] eqn:E;
    inversion H; subst; split; try reflexivity.
  simpl. rewrite save_keeps_tables. simpl.
  eapply dom_insert_present, E.
Qed.

Lemma update_rows_same_names (t : string) (rows : list loc) :
  preserves same_names
    (on_storage (fun h st => StorageEngine.update_rows h st t rows)).
Proof.
  intros s s' r H. unfold on_storage, StorageEngine.update_rows in H.
  destruct (StorageEngine.tables (storage s) !! t) as [old|] eqn:E;
    inversion H; subst; split; try reflexivity.
  simpl. rewrite save_keeps_tables. simpl.
  eapply dom_insert_present, E.
Qed.

(** One step of a proof that a handler preserves a relation: the handler
    is taken apart along its binds and case distinctions. *)
Ltac preserves_step Hrefl Htrans :=
  lazymatch goal with
  | |- preserves _ (bind _ _) =>
      apply (preserves_bind _ Htrans); [|intros ?]
  | |- preserves _ (ret _) => apply (preserves_ret _ Hrefl)
  | |- preserves _ (raise _) => apply (preserves_raise _ Hrefl)
  | |- preserves _ (lift _) => apply (preserves_lift _ Hrefl)
  | |- preserves _ (gets _) => apply (preserves_gets _ Hrefl)
  | |- preserves _ (get_all_rows _) => apply (preserves_get_all_rows _ Hrefl)
  | |- preserves _ (read_rows _) => apply (preserves_read_rows _ Hrefl)
  | |- preserves _ (keep_unmatched _ _) =>
      apply (preserves_keep_unmatched _ Hrefl)
  | |- preserves _ (match ?x with _ => _ end) => destruct x
  end.

Ltac same_names_step :=
  first [ apply on_index_mgr_same_names
        | apply new_row_same_names
        | apply assign_all_same_names
        | apply insert_row_same_names
        | apply update_rows_same_names
        | preserves_step same_names_refl same_names_trans ].

Lemma update_loop_same_names (schema : TableSchema.t) (w : option Where)
    (updates : dict value) (todo : list loc) :
  forall (i : nat) (rows : list loc) (n : nat),
    preserves same_names (update_loop schema w updates todo i rows n).
Proof.
  induction todo as [|row todo IH]; intros i rows n; simpl.
  - repeat same_names_step.
  - repeat (first [apply IH | same_names_step]).
Qed.

Lemma save_and_rebuild_same_names (t : string) (rows : list loc) :
  preserves same_names (save_and_rebuild t rows).
Proof. unfold save_and_rebuild. repeat same_names_step. Qed.

Lemma update_indexes_same_names (t : string) (r : Row) (i : nat) :
  preserves same_names (update_indexes t r i).
Proof. apply on_index_mgr_same_names. Qed.

Lemma insert_same_names (t : string) (columns : option (list string))
    (values : list value) :
  preserves same_names (_execute_insert t columns values).
Proof.
  unfold _execute_insert.
  repeat (first [apply update_indexes_same_names | same_names_step]).
Qed.

Lemma apply_join_same_names (rows : list Row) (j : Join.t) (t : string) :
  preserves same_names (_apply_join rows j t).
Proof. unfold _apply_join. repeat same_names_step. Qed.

Lemma select_same_names (columns : list string) (t : string)
    (w : option Where) (j : option Join.t) (o : option string)
    (limit : option Z) :
  preserves same_names (_execute_select columns t w j o limit).
Proof.
  unfold _execute_select.
  repeat (first [apply apply_join_same_names | same_names_step]).
Qed.

Lemma update_same_names (t : string) (updates : dict value)
    (w : option Where) :
  preserves same_names (_execute_update t updates w).
Proof.
  unfold _execute_update.
  repeat (first [apply update_loop_same_names
                | apply save_and_rebuild_same_names | same_names_step]).
Qed.

Lemma delete_same_names (t : string) (w : option Where) :
  preserves same_names (_execute_delete t w).
Proof.
  unfold _execute_delete.
  repeat (first [apply save_and_rebuild_same_names | same_names_step]).
Qed.

Lemma bind_inv {A B} (m : M A) (k : A -> M B) (s s' : State) (r : result B) :
  bind m k s = (s', r) ->
  (exists s1 a, m s = (s1, Ok a) /\ k a s1 = (s', r))
  \/ (exists e, m s = (s', Raise e) /\ r = Raise e).
Proof.
  unfold bind. destruct (m s) as [s1 [a|e]]; intros H.
  - left. eauto.
  - right. inversion H; subst. eauto.
Qed.

Lemma create_table_schema_cases (m m' : SchemaManager.t) (t : string)
    (columns : list Column.t) (pk : option string) (uq : list string)
    (r : result TableSchema.t) :
  SchemaManager.create_table_schema m t columns pk uq = (m', r) ->
  match r with
  | Raise _ => m' = m
  | Ok schema =>
      m !! t = None /\ m' = <[t := schema]> m
      /\ TableSchema.columns schema = columns
  end.
Proof.
  unfold SchemaManager.create_table_schema.
  destruct (m !! t); [intros H; inversion H; reflexivity|].
  destruct (opt_str_truthy pk && _); [intros H; inversion H; reflexivity|].
  destruct (SchemaManager.check_unique columns uq);
    intros H; inversion H; auto.
Qed.

Ltac only_indexes_step :=
  first [ apply on_index_mgr_only_indexes
        | preserves_step only_indexes_refl only_indexes_trans ].

Lemma create_unique_indexes_only_indexes (t : string) (pk : option string)
    (cols : list string) :
  preserves only_indexes (create_unique_indexes t pk cols).
Proof.
  induction cols as [|c cols IH]; simpl.
  - only_indexes_step.
  - repeat (first [apply IH | only_indexes_step]).
Qed.

Lemma create_indexes_only_indexes (t : string) (schema : TableSchema.t) :
  preserves only_indexes (create_indexes t schema).
Proof.
  unfold create_indexes.
  repeat (first [apply create_unique_indexes_only_indexes
                | only_indexes_step]).
Qed.

Lemma storage_create_table_cases (t : string) (s s' : State)
    (r : result unit) :
  on_storage (fun h st => StorageEngine.create_table h st t) s = (s', r) ->
  (is_Some (StorageEngine.tables (storage s) !! t)
   /\ s' = s /\ exists e, r = Raise e)
  \/ (StorageEngine.tables (storage s) !! t = None
      /\ r = Ok tt
      /\ heap_of s' = heap_of s /\ schema_mgr s' = schema_mgr s
      /\ index_mgr s' = index_mgr s
      /\ StorageEngine.tables (storage s')
         = <[t := []]> (StorageEngine.tables (storage s))).
Proof.
  unfold on_storage, StorageEngine.create_table.
  destruct (StorageEngine.tables (storage s) !! t) eqn:Ht;
    intros H; inversion H; subst; clear H.
  - left. destruct s; eauto.
  - right. simpl. rewrite save_keeps_tables. auto 10.
Qed.

Lemma storage_drop_table_cases (t : string) (s s' : State)
    (r : result unit) :
  on_storage (fun h st => StorageEngine.drop_table h st t) s = (s', r) ->
  (StorageEngine.tables (storage s) !! t = None
   /\ s' = s /\ exists e, r = Raise e)
  \/ (is_Some (StorageEngine.tables (storage s) !! t)
      /\ r = Ok tt
      /\ heap_of s' = heap_of s /\ schema_mgr s' = schema_mgr s
      /\ index_mgr s' = index_mgr s
      /\ StorageEngine.tables (storage s')
         = delete t (StorageEngine.tables (storage s))).
Proof.
  unfold on_storage, StorageEngine.drop_table.
  destruct (StorageEngine.tables (storage s) !! t) eqn:Ht;
    intros H; inversion H; subst; clear H.
  - right. simpl. rewrite save_keeps_tables. eauto 10.
  - left. destruct s; eauto.
Qed.

(** What CREATE TABLE does to the catalog and to the row store: nothing
    when it is rejected at once; else the schema is registered, and the
    table is added to the row store unless the row store has it already. *)
Lemma create_table_outcome (t : string) (infos : list ColInfo.t)
    (pk : option string) (uq : list string) (s s' : State)
    (r : result Envelope.t) :
  _execute_create_table t infos pk uq s = (s', r) ->
  (s' = s /\ exists e, r = Raise e)
  \/ (exists schema,
        schema_mgr s !! t = None
        /\ make_columns infos = Ok (TableSchema.columns schema)
        /\ schema_mgr s' = <[t := schema]> (schema_mgr s)
        /\ ((is_Some (StorageEngine.tables (storage s) !! t)
             /\ storage s' = storage s /\ exists e, r = Raise e)
            \/ (StorageEngine.tables (storage s) !! t = None
                /\ StorageEngine.tables (storage s')
                   = <[t := []]> (StorageEngine.tables (storage s))))).
Proof.
  unfold _execute_create_table. intros H.
  apply bind_inv in H as [(s1 & columns & H1 & H)|(e & H1 & ->)].
  2: { left. inversion H1; subst. eauto. }
  inversion H1; subst s1; clear H1.
  unfold on_schema_mgr in H.
  apply bind_inv in H as [(s1 & schema & H1 & H)|(e & H1 & ->)];
    destruct (SchemaManager.create_table_schema _ _ _ _ _) as [m x] eqn:Hc;
    inversion H1; subst; clear H1; apply create_table_schema_cases in Hc.
  2: { left. subst m. destruct s; eauto. }
  destruct Hc as (Hnone & -> & <-).
  right. exists schema. split; [assumption|]. split; [assumption|].
  apply bind_inv in H as [(s1 & [] & H1 & H)|(e & H1 & ->)];
    apply storage_create_table_cases in H1
      as [(Hsome & -> & e' & He)|(Ht & Hr & _ & Hsch & _ & Htab)];
    try discriminate.
  - apply bind_inv in H as [(s2 & [] & H1 & H)|(e & H1 & ->)];
      apply create_indexes_only_indexes in H1 as (_ & Hst & Hsch');
      [inversion H; subst; clear H|];
      (split; [rewrite Hsch'; exact Hsch|]); right; (split; [exact Ht|]);
      rewrite Hst; exact Htab.
  - split; [reflexivity|]. left. split; [exact Hsome|].
    split; [reflexivity|eauto].
Qed.

(** What DROP TABLE does to the catalog and to the row store. *)
Lemma drop_table_outcome (t : string) (s s' : State)
    (r : result Envelope.t) :
  _execute_drop_table t s = (s', r) ->
  (schema_mgr s !! t = None /\ s' = s /\ r = Ok (no_table t))
  \/ (is_Some (schema_mgr s !! t)
      /\ schema_mgr s' = delete t (schema_mgr s)
      /\ ((StorageEngine.tables (storage s) !! t = None
           /\ storage s' = storage s /\ exists e, r = Raise e)
          \/ (is_Some (StorageEngine.tables (storage s) !! t)
              /\ StorageEngine.tables (storage s')
                 = delete t (StorageEngine.tables (storage s))
              /\ r = Ok (succeeded ("Table '" +:+ t
                                    +:+ "' dropped successfully"))))).
Proof.
  unfold _execute_drop_table. intros H.
  apply bind_inv in H as [(s1 & b & H1 & H)|(e & H1 & ->)];
    [|discriminate H1].
  unfold gets in H1. injection H1 as <- <-.
  unfold SchemaManager.table_exists in H.
  destruct (schema_mgr s !! t) as [schema|] eqn:Hs; simpl in H.
  2: { left. inversion H; subst. auto. }
  right. split; [eauto|].
  apply bind_inv in H as [(s1 & [] & H1 & H)|(e & H1 & ->)];
    unfold on_schema_mgr, SchemaManager.drop_schema in H1;
    rewrite Hs in H1; [|discriminate H1].
  injection H1 as <-.
  apply bind_inv in H as [(s1 & [] & H1 & H)|(e & H1 & ->)];
    apply storage_drop_table_cases in H1
      as [(Hnone & -> & e' & He)|(Hsome & Hr & _ & Hsch & _ & Htab)];
    try discriminate.
  - apply bind_inv in H as [(s2 & [] & H1 & H)|(e & H1 & ->)];
      [|discriminate H1].
    apply on_index_mgr_only_indexes in H1 as (_ & Hst & Hsch').
    inversion H; subst; clear H.
    split; [rewrite Hsch'; exact Hsch|]. right. split; [exact Hsome|].
    rewrite Hst. split; [exact Htab|reflexivity].
  - split; [reflexivity|]. left. eauto.
Qed.

Lemma create_table_in_sync (t : string) (infos : list ColInfo.t)
    (pk : option string) (uq : list string) (s s' : State)
    (r : result Envelope.t) :
  _execute_create_table t infos pk uq s = (s', r) ->
  in_sync s -> in_sync s'.
Proof.
  intros H Hs. unfold in_sync in *.
  apply create_table_outcome in H
    as [[-> _]|(schema & Hnone & _ & Hsch & [(Hsome & _)|(Ht & Htab)])].
  - assumption.
  - exfalso. apply elem_of_dom in Hsome. rewrite <- Hs in Hsome.
    apply elem_of_dom in Hsome. rewrite Hnone in Hsome.
    destruct Hsome; discriminate.
  - rewrite Hsch, Htab, !dom_insert_L, Hs. reflexivity.
Qed.

Lemma drop_table_in_sync (t : string) (s s' : State)
    (r : result Envelope.t) :
  _execute_drop_table t s = (s', r) -> in_sync s -> in_sync s'.
Proof.
  intros H Hs. unfold in_sync in *.
  apply drop_table_outcome in H
    as [(_ & -> & _)|(Hsome & Hsch & [(Hnone & _)|(_ & Htab & _)])].
  - assumption.
  - exfalso. apply elem_of_dom in Hsome. rewrite Hs in Hsome.
    apply elem_of_dom in Hsome. rewrite Hnone in Hsome.
    destruct Hsome; discriminate.
  - rewrite Hsch, Htab, !dom_delete_L, Hs. reflexivity.
Qed.

(** Every command keeps the catalog and the row store in sync. *)
Lemma execute_in_sync (c : Command) (s : State) :
  in_sync s -> in_sync (fst (execute c s)).
Proof.
  intros Hs. unfold execute.
  destruct (dispatch c s) as [s' r] eqn:H.
  assert (in_sync s') as Hs'.
  { destruct c; simpl in H.
    - eapply create_table_in_sync; eauto.
    - eapply drop_table_in_sync; eauto.
    - eapply same_names_in_sync; [eapply insert_same_names, H|assumption].
    - eapply same_names_in_sync; [eapply select_same_names, H|assumption].
    - eapply same_names_in_sync; [eapply update_same_names, H|assumption].
    - eapply same_names_in_sync; [eapply delete_same_names, H|assumption].
    - inversion H; subst. assumption. }
  destruct r; assumption.
Qed.

Lemma run_in_sync (cmds : list Command) :
  forall s : State, in_sync s -> in_sync (run cmds s).
Proof.
  induction cmds as [|c cmds IH]; intros s Hs; simpl; [assumption|].
  apply IH, execute_in_sync, Hs.
Qed.

Lemma start_without_snapshot (data_file : option string)
    (file : option snapshot) :
  loaded data_file file = None ->
  start data_file file = MkState [] (StorageEngine.Build ∅ data_file file) ∅ ∅.
Proof.
  unfold loaded, start, StorageEngine.init. intros H.
  destruct file as [doc|]; [|reflexivity].
  destruct (opt_str_truthy data_file); [discriminate|reflexivity].
Qed.

(** Initialisation on a snapshot leaves tables the catalog does not
    know. *)
Lemma started_on_snapshot_out_of_sync : ~ in_sync started_on_snapshot.
Proof.
  unfold in_sync. intros H.
  assert ("people" ∈ dom (StorageEngine.tables (storage started_on_snapshot)))
    as Hin by (apply elem_of_dom; vm_compute; eauto).
  rewrite <- H in Hin. apply elem_of_dom in Hin.
  vm_compute in Hin. destruct Hin; discriminate.
Qed.

(** C3, amended.  When the engine is initialised without a snapshot to
    load (no data file is configured, or the file does not exist yet),
    the table names of the Schema Catalog are the table names of the Row
    Store in every state reached by executing commands. *)
Theorem catalog_and_store_in_sync (data_file : option string)
    (file : option snapshot) (cmds : list Command) :
  loaded data_file file = None ->
  in_sync (run cmds (start data_file file)).
Proof.
  intros H. apply run_in_sync. rewrite (start_without_snapshot _ _ H).
  reflexivity.
Qed.

Lemma catalog_and_store_in_sync_witness :
  loaded (Some "db.json") None = None
  /\ in_sync (run [create_people; insert_person 1 "Ann"; rename_bob;
                   DROP_TABLE "people"]
                  (start (Some "db.json") None)).
Proof.
  split; [reflexivity|].
  apply (catalog_and_store_in_sync (Some "db.json") None); reflexivity.
Defined.

(** ** Tables the catalog does not know *)

(** A data command addressed at a table without a schema reports that the
    table does not exist and changes nothing. *)
Lemma unknown_table_is_reported (c : Command) (t : string) (s : State) :
  table_of c = Some t -> schema_mgr s !! t = None ->
  execute c s = (s, no_table t).
Proof.
  intros Hc Hs.
  destruct c; simpl in Hc; try discriminate; injection Hc as ->;
    unfold execute, dispatch, _execute_insert, _execute_select,
      _execute_update, _execute_delete, bind, gets,
      SchemaManager.get_schema;
    rewrite Hs; reflexivity.
Qed.

Lemma drop_unknown_table (t : string) (s : State) :
  schema_mgr s !! t = None -> execute (DROP_TABLE t) s = (s, no_table t).
Proof.
  intros Hs.
  unfold execute, dispatch, _execute_drop_table, bind, gets,
    SchemaManager.table_exists.
  rewrite Hs. reflexivity.
Qed.

Lemma execute_on_empty_catalog (c : Command) (s : State) :
  schema_mgr s = ∅ -> is_create c = false -> fst (execute c s) = s.
Proof.
  intros Hs Hc.
  assert (forall t, schema_mgr s !! t = None) as Hnone
      by (intros t; rewrite Hs; apply lookup_empty).
  destruct c; try discriminate.
  - rewrite drop_unknown_table by apply Hnone. reflexivity.
  - erewrite unknown_table_is_reported; [reflexivity| |apply Hnone]; reflexivity.
  - erewrite unknown_table_is_reported; [reflexivity| |apply Hnone]; reflexivity.
  - erewrite unknown_table_is_reported; [reflexivity| |apply Hnone]; reflexivity.
  - erewrite unknown_table_is_reported; [reflexivity| |apply Hnone]; reflexivity.
  - reflexivity.
Qed.

Lemma run_on_empty_catalog (cmds : list Command) (s : State) :
  schema_mgr s = ∅ ->
  forallb (fun c => negb (is_create c)) cmds = true ->
  run cmds s = s.
Proof.
  intros Hs. induction cmds as [|c cmds IH]; simpl; [reflexivity|].
  intros Hc. apply andb_true_iff in Hc as [Hc Hcs].
  apply negb_true_iff in Hc.
  rewrite execute_on_empty_catalog by assumption. apply IH, Hcs.
Qed.

(** *** Loading a snapshot *)

Lemma deref_app_old (h h' : heap) (l : loc) :
  l < length h -> deref (h ++ h') l = deref h l.
Proof.
  intros Hl. unfold deref. rewrite nth_error_app1 by assumption. reflexivity.
Qed.

Lemma deref_new_rows (h : heap) (rows : list Row) :
  map (deref (h ++ rows)) (seq (length h) (length rows)) = rows.
Proof.
  revert h. induction rows as [|r rows IH]; intros h; simpl; [reflexivity|].
  f_equal.
  - unfold deref. rewrite nth_error_app2 by lia.
    rewrite Nat.sub_diag. reflexivity.
  - specialize (IH (h ++ [r])).
    rewrite <- app_assoc, length_app in IH. simpl in IH.
    rewrite Nat.add_1_r in IH. exact IH.
Qed.

(** After [json.load], every table of the document is a table of the
    store with the rows of the document, and there are no others. *)
Lemma json_load_rows (h : heap) (doc : snapshot) :
  forall t : string,
    map (deref (fst (StorageEngine.json_load h doc)))
      <$> (snd (StorageEngine.json_load h doc) !! t)
    = doc !! t.
Proof.
  unfold StorageEngine.json_load.
  cut ((forall t,
          map (deref (fst (map_fold StorageEngine.load_table (h, ∅) doc)))
            <$> (snd (map_fold StorageEngine.load_table (h, ∅) doc) !! t)
          = doc !! t)
       /\ (forall t locs,
             snd (map_fold StorageEngine.load_table (h, ∅) doc) !! t
             = Some locs ->
             Forall (fun l => l < length
                       (fst (map_fold StorageEngine.load_table (h, ∅) doc)))
                    locs)).
  { intros [H _]. exact H. }
  apply (map_fold_weak_ind
           (fun (acc : heap * gmap string (list loc)) (m : snapshot) =>
              (forall t, map (deref (fst acc)) <$> (snd acc !! t) = m !! t)
              /\ (forall t locs, snd acc !! t = Some locs ->
                    Forall (fun l => l < length (fst acc)) locs))).
  - split.
    + intros t. simpl. rewrite !lookup_empty. reflexivity.
    + intros t locs. simpl. rewrite lookup_empty. discriminate.
  - intros name rows m [h1 tbl] Hfresh [Hrows Hbound]. simpl in *. split.
    + intros t. destruct (decide (name = t)) as [->|Hne].
      * rewrite !lookup_insert_eq. simpl. rewrite deref_new_rows. reflexivity.
      * rewrite !lookup_insert_ne by assumption.
        rewrite <- Hrows.
        destruct (tbl !! t) as [locs|] eqn:Ht; simpl; [|reflexivity].
        f_equal. apply map_ext_in. intros l Hl.
        apply deref_app_old.
        specialize (Hbound t locs Ht).
        rewrite Forall_forall in Hbound. apply Hbound.
        apply list_elem_of_In. exact Hl.
    + intros t locs. destruct (decide (name = t)) as [->|Hne].
      * rewrite lookup_insert_eq. intros [= <-].
        apply Forall_forall. intros l Hl.
        apply list_elem_of_In, in_seq in Hl. rewrite length_app. lia.
      * rewrite lookup_insert_ne by assumption. intros Ht.
        eapply Forall_impl; [apply (Hbound t locs Ht)|].
        simpl. intros l Hl. rewrite length_app. lia.
Qed.

Lemma start_on_snapshot (path : string) (doc : snapshot) :
  str_truthy path = true ->
  schema_mgr (start (Some path) (Some doc)) = ∅
  /\ index_mgr (start (Some path) (Some doc)) = ∅
  /\ forall t, table_rows (start (Some path) (Some doc)) t = doc !! t.
Proof.
  intros Hp. unfold start, StorageEngine.init, StorageEngine.load_from_disk.
  simpl. rewrite Hp.
  pose proof (json_load_rows [] doc) as Hload.
  destruct (StorageEngine.json_load [] doc) as [h tbl]. simpl in *.
  repeat split. exact Hload.
Qed.

(** C10.  The persisted document maps table names to row sequences and
    holds no schema.  When the engine is initialised from an existing
    snapshot and no CREATE TABLE is executed, then after any sequence of
    commands the row store holds the tables of the snapshot with their
    rows, the schema catalog is empty, and every INSERT, SELECT, UPDATE or
    DELETE, whatever table it is addressed at, answers with the failure
    envelope "Table '...' does not exist" and changes nothing. *)
Theorem loaded_tables_have_no_schema (path : string) (doc : snapshot)
    (cmds : list Command) :
  str_truthy path = true ->
  forallb (fun c => negb (is_create c)) cmds = true ->
  let s := run cmds (start (Some path) (Some doc)) in
  schema_mgr s = ∅
  /\ (forall t, table_rows s t = doc !! t)
  /\ (forall c t, table_of c = Some t ->
        execute c s = (s, failed ("Table '" +:+ t +:+ "' does not exist"))).
Proof.
  intros Hp Hc s.
  destruct (start_on_snapshot path doc Hp) as (Hsch & _ & Hrows).
  assert (s = start (Some path) (Some doc)) as ->
      by (apply run_on_empty_catalog; assumption).
  split; [assumption|]. split; [assumption|].
  intros c t Ht. apply unknown_table_is_reported; [assumption|].
  rewrite Hsch. apply lookup_empty.
Qed.

Lemma loaded_tables_have_no_schema_witness :
  str_truthy "db.json" = true
  /\ forallb (fun c => negb (is_create c))
       [select_people; DROP_TABLE "people"] = true
  /\ table_rows (run [select_people; DROP_TABLE "people"] started_on_snapshot)
       "people"
     = Some [person 1 "Ann"]
  /\ execute (insert_person 2 "Bob")
       (run [select_people; DROP_TABLE "people"] started_on_snapshot)
     = (run [select_people; DROP_TABLE "people"] started_on_snapshot,
        failed "Table 'people' does not exist").
Proof.
  pose proof (loaded_tables_have_no_schema "db.json"
                {[ "people" := [person 1 "Ann"] ]}
                [select_people; DROP_TABLE "people"] eq_refl eq_refl)
    as (_ & Hrows & Hfail).
  split; [reflexivity|]. split; [reflexivity|]. split.
  - unfold started_on_snapshot. rewrite (Hrows "people").
    apply lookup_singleton_eq.
  - apply (Hfail (insert_person 2 "Bob") "people"). reflexivity.
Defined.

(** ** CREATE TABLE, SELECT, DROP TABLE, SELECT *)

Lemma order_and_limit_nil (order_by : option string) (limit : option Z) :
  order_and_limit order_by limit [] = [].
Proof.
  unfold order_and_limit.
  assert (match order_by with
          | Some col => if str_truthy col then sort_rows col [] else []
          | None => []
          end = []) as ->.
  { destruct order_by as [col|]; [|reflexivity].
    destruct (str_truthy col); reflexivity. }
  destruct (opt_int_truthy limit); [|reflexivity].
  unfold slice_to. destruct (0 <=? default 0%Z limit)%Z; apply take_nil.
Qed.

Lemma make_columns_names (infos : list ColInfo.t) :
  forall columns,
    make_columns infos = Ok columns ->
    map Column.name columns = map ColInfo.name infos.
Proof.
  induction infos as [|info infos IH]; simpl; intros columns H.
  - inversion H. reflexivity.
  - destruct (DataType_of_name (ColInfo.type info)); [|discriminate].
    destruct (make_columns infos) as [cols|]; [|discriminate].
    inversion H; subst. simpl. f_equal. apply IH. reflexivity.
Qed.

(** The names in the [columns] entry of the answer to a SELECT. *)
Lemma select_from_empty_table (s : State) (t : string)
    (schema : TableSchema.t) (columns : list string)
    (where_ : option Where) (join : option Join.t)
    (order_by : option string) (limit : option Z) :
  schema_mgr s !! t = Some schema ->
  StorageEngine.tables (storage s) !! t = Some [] ->
  joins_stored_table s join ->
  execute (SELECT columns t where_ join order_by limit) s
  = (s, Envelope.Build true "Found 0 row(s)" (Some [])
          (Some (if negb (is_star columns) then columns
                 else TableSchema.get_column_names schema))).
Proof.
  intros Hs Ht Hj.
  unfold execute, dispatch, _execute_select.
  unfold bind at 1, gets, SchemaManager.get_schema. rewrite Hs.
  unfold bind at 1, get_all_rows, StorageEngine.get_all_rows. rewrite Ht.
  unfold bind at 1, read_rows, gets. simpl map.
  assert (match where_ with
          | Some w => lift (_apply_where [] w)
          | None => ret []
          end s = (s, Ok [])) as Hw by (destruct where_; reflexivity).
  unfold bind at 1. rewrite Hw.
  assert (match join with
          | Some join_info => _apply_join [] join_info t
          | None => ret []
          end s = (s, Ok [])) as Hjoin.
  { destruct join as [j|]; [|reflexivity].
    simpl in Hj. destruct Hj as [right Hright].
    unfold _apply_join, bind, get_all_rows, StorageEngine.get_all_rows.
    rewrite Hright. reflexivity. }
  unfold bind at 1. rewrite Hjoin.
  assert ((if is_star columns then [] else map (project columns) []) = [])
    as -> by (destruct (is_star columns); reflexivity).
  rewrite order_and_limit_nil. reflexivity.
Qed.

(** A CREATE TABLE that succeeds leaves the schema in the catalog and an
    empty table in the row store. *)
Lemma create_table_success (s : State) (t : string)
    (infos : list ColInfo.t) (pk : option string) (uq : list string) :
  Envelope.success (snd (execute (CREATE_TABLE t infos pk uq) s)) = true ->
  exists schema,
    schema_mgr (fst (execute (CREATE_TABLE t infos pk uq) s)) !! t
    = Some schema
    /\ StorageEngine.tables
         (storage (fst (execute (CREATE_TABLE t infos pk uq) s))) !! t
       = Some []
    /\ make_columns infos = Ok (TableSchema.columns schema).
Proof.
  unfold execute. simpl dispatch.
  destruct (_execute_create_table t infos pk uq s) as [s1 [env1|e]] eqn:Hc;
    simpl; [|discriminate].
  intros _.
  apply create_table_outcome in Hc
    as [[_ [e He]]|(schema & Hnone & Hcols & Hsch
                    & [(_ & _ & e & He)|(Hfree & Htab)])];
    try discriminate.
  exists schema. rewrite Hsch, Htab, !lookup_insert_eq. auto.
Qed.

(** A DROP TABLE that succeeds leaves no schema for the table. *)
Lemma drop_table_success (s : State) (t : string) :
  Envelope.success (snd (execute (DROP_TABLE t) s)) = true ->
  schema_mgr (fst (execute (DROP_TABLE t) s)) !! t = None.
Proof.
  unfold execute. simpl dispatch.
  destruct (_execute_drop_table t s) as [s1 r] eqn:Hd.
  apply drop_table_outcome in Hd
    as [(_ & _ & ->)|(_ & Hsch & [(_ & _ & e & ->)|(_ & _ & ->)])];
    simpl; try discriminate.
  intros _. rewrite Hsch. apply lookup_delete_eq.
Qed.

(** DROP TABLE succeeds on a table that the catalog and the row store
    both have. *)
Lemma drop_known_table (s : State) (t : string) :
  is_Some (schema_mgr s !! t) ->
  is_Some (StorageEngine.tables (storage s) !! t) ->
  snd (execute (DROP_TABLE t) s)
  = succeeded ("Table '" +:+ t +:+ "' dropped successfully").
Proof.
  intros [schema Hs] [rows Ht].
  unfold execute. simpl dispatch.
  destruct (_execute_drop_table t s) as [s1 r] eqn:Hd.
  apply drop_table_outcome in Hd
    as [(Hno & _)|(_ & _ & [(Hno & _)|(_ & _ & ->)])].
  - rewrite Hs in Hno. discriminate.
  - rewrite Ht in Hno. discriminate.
  - reflexivity.
Qed.

(** C8.  When CREATE TABLE succeeds, a SELECT on the new table (with any
    columns, WHERE, ORDER BY and LIMIT, and with a JOIN, if any, on a
    table of the row store) succeeds and returns zero rows; the DROP
    TABLE of the new table succeeds; and after a DROP TABLE that
    succeeded, in whatever state, every SELECT on the dropped table fails
    with "Table '...' does not exist". *)
Theorem create_select_drop_select (s : State) (t : string)
    (infos : list ColInfo.t) (pk : option string) (uq : list string) :
  let created := execute (CREATE_TABLE t infos pk uq) s in
  Envelope.success (snd created) = true ->
  (forall columns where_ join order_by limit,
      joins_stored_table (fst created) join ->
      execute (SELECT columns t where_ join order_by limit) (fst created)
      = (fst created,
         Envelope.Build true "Found 0 row(s)" (Some [])
           (Some (if negb (is_star columns) then columns
                  else map ColInfo.name infos))))
  /\ snd (execute (DROP_TABLE t) (fst created))
     = succeeded ("Table '" +:+ t +:+ "' dropped successfully")
  /\ (forall s2 columns where_ join order_by limit,
         Envelope.success (snd (execute (DROP_TABLE t) s2)) = true ->
         execute (SELECT columns t where_ join order_by limit)
                 (fst (execute (DROP_TABLE t) s2))
         = (fst (execute (DROP_TABLE t) s2),
            failed ("Table '" +:+ t +:+ "' does not exist"))).
Proof.
  intros created Hok.
  destruct (create_table_success s t infos pk uq Hok)
    as (schema & Hs1 & Ht1 & Hcols).
  fold created in Hs1, Ht1.
  split; [|split].
  - intros columns where_ join order_by limit Hj.
    rewrite (select_from_empty_table (fst created) t schema) by assumption.
    unfold TableSchema.get_column_names.
    rewrite (make_columns_names infos _ Hcols). reflexivity.
  - apply drop_known_table; eauto.
  - intros s2 columns where_ join order_by limit Hdrop.
    apply (unknown_table_is_reported
             (SELECT columns t where_ join order_by limit) t);
      [reflexivity|].
    apply drop_table_success, Hdrop.
Qed.

Lemma create_select_drop_select_witness :
  Envelope.success (snd (execute create_people (start None None))) = true
  /\ execute select_people (fst (execute create_people (start None None)))
     = (fst (execute create_people (start None None)),
        Envelope.Build true "Found 0 row(s)" (Some [])
          (Some ["id"; "name"]))
  /\ snd (execute (DROP_TABLE "people")
            (fst (execute create_people (start None None))))
     = succeeded "Table 'people' dropped successfully".
Proof.
  pose proof (create_select_drop_select (start None None) "people"
                [ColInfo.Build "id" "INTEGER" None false;
                 ColInfo.Build "name" "VARCHAR" (Some 3%Z) true]
                (Some "id") [] eq_refl) as (Hsel & Hdrop & _).
  split; [reflexivity|]. split.
  - apply (Hsel ["*"] None None None None). exact I.
  - exact Hdrop.
Defined.

(** ** A valid CREATE TABLE succeeds *)

Lemma dict_has_set {V} (k k' : string) (v : V) (d : dict V) :
  k <> k' -> dict_has k (dict_set k' v d) = dict_has k d.
Proof.
  intros Hne. unfold dict_has.
  induction d as [|[k0 v0] d IH]; simpl.
  - destruct (String.eqb_spec k k'); [contradiction|reflexivity].
  - destruct (String.eqb_spec k' k0) as [<-|Hk0]; simpl.
    + destruct (String.eqb_spec k k'); [contradiction|reflexivity].
    + destruct (String.eqb_spec k k0); [reflexivity|exact IH].
Qed.

(** The index of a column that has none yet is created. *)
Lemma create_index_new (m : IndexManager.t) (t c : string) (unique : bool) :
  dict_has c (default [] (m !! t)) = false ->
  exists m',
    IndexManager.create_index m t c unique
    = (m', Ok (Index.Build t c unique []))
    /\ m' !! t
       = Some (dict_set c (Index.Build t c unique []) (default [] (m !! t))).
Proof.
  intros Hfree. unfold IndexManager.create_index.
  destruct (m !! t) as [ixs|] eqn:Hm; simpl in *.
  - rewrite Hm. simpl. rewrite Hfree.
    eexists. split; [reflexivity|]. apply lookup_insert_eq.
  - rewrite lookup_insert_eq. simpl.
    eexists. split; [reflexivity|]. apply lookup_insert_eq.
Qed.

Lemma create_unique_indexes_ok (t : string) (pk : option string)
    (cols : list string) :
  forall s : State,
    NoDup cols ->
    (forall c, c ∈ cols -> differs c pk = true ->
               dict_has c (default [] (index_mgr s !! t)) = false) ->
    exists s', create_unique_indexes t pk cols s = (s', Ok tt).
Proof.
  induction cols as [|c cols IH]; intros s Hnd Hfree; simpl.
  - eexists. reflexivity.
  - apply NoDup_cons in Hnd as [Hc Hnd].
    destruct (differs c pk) eqn:Hd.
    + destruct (create_index_new (index_mgr s) t c true) as (m' & Hm' & Hl).
      { apply Hfree; [left|assumption]. }
      unfold bind at 1. unfold bind at 1. unfold on_index_mgr at 1.
      rewrite Hm'. unfold ret at 1.
      apply IH; [assumption|].
      intros c' Hc' Hd'.
      replace (index_mgr (with_index_mgr s m') !! t)
        with (Some (dict_set c (Index.Build t c true [])
                      (default [] (index_mgr s !! t))))
        by (symmetry; exact Hl).
      change (default [] (Some ?x)) with x.
      rewrite dict_has_set by (intros ->; contradiction).
      apply Hfree; [right; assumption|assumption].
    + unfold bind at 1. unfold ret at 1.
      apply IH; [assumption|].
      intros c' Hc' Hd'. apply Hfree; [right; assumption|assumption].
Qed.

Lemma check_unique_ok (columns : list Column.t) (uq : list string) :
  forallb (SchemaManager.is_column columns) uq = true ->
  SchemaManager.check_unique columns uq = Ok tt.
Proof.
  induction uq as [|c uq IH]; simpl; [reflexivity|].
  intros H. apply andb_true_iff in H as [Hc Huq].
  rewrite Hc. simpl. apply IH, Huq.
Qed.

(** A CREATE TABLE command succeeds when its column types are known, its
    primary key and its unique columns are columns of the table, and no
    component of the engine knows the name of the table. *)
Lemma valid_create_table_succeeds (s : State) (t : string)
    (infos : list ColInfo.t) (pk : option string) (uq : list string)
    (columns : list Column.t) :
  make_columns infos = Ok columns ->
  (opt_str_truthy pk = true ->
   SchemaManager.is_column columns (default "" pk) = true) ->
  forallb (SchemaManager.is_column columns) uq = true ->
  schema_mgr s !! t = None ->
  StorageEngine.tables (storage s) !! t = None ->
  index_mgr s !! t = None ->
  snd (execute (CREATE_TABLE t infos pk uq) s)
  = succeeded ("Table '" +:+ t +:+ "' created successfully").
Proof.
  intros Hcols Hpk Huq Hs Ht Hi.
  unfold execute. simpl dispatch. unfold _execute_create_table.
  unfold bind at 1, lift. rewrite Hcols.
  unfold bind at 1, on_schema_mgr, SchemaManager.create_table_schema.
  rewrite Hs.
  assert (opt_str_truthy pk
          && negb (SchemaManager.is_column columns
                     match pk with Some p => p | None => "" end) = false)
    as ->.
  { destruct (opt_str_truthy pk) eqn:E; [|reflexivity].
    specialize (Hpk eq_refl). destruct pk; simpl in *; rewrite Hpk;
      reflexivity. }
  rewrite (check_unique_ok _ _ Huq).
  unfold bind at 1, on_storage, StorageEngine.create_table. simpl.
  rewrite Ht.
  set (s1 := with_storage _ _).
  assert (index_mgr s1 !! t = None) as Hi1 by exact Hi.
  assert (exists s2, create_indexes t
            (TableSchema.Build t columns pk (set_of_list uq)
               (if opt_str_truthy pk
                then [match pk with Some p => p | None => "" end] else []))
            s1 = (s2, Ok tt)) as [s2 Hs2].
  { unfold create_indexes. simpl.
    destruct pk as [p|]; simpl.
    - destruct (str_truthy p) eqn:Hp.
      + destruct (create_index_new (index_mgr s1) t p true) as (m' & Hm' & Hl).
        { replace (index_mgr s1 !! t) with (@None (dict Index.t))
            by (symmetry; exact Hi1).
          reflexivity. }
        unfold bind at 1. unfold bind at 1. unfold on_index_mgr at 1.
        rewrite Hm'. unfold ret at 1.
        apply create_unique_indexes_ok; [apply NoDup_remove_dups|].
        intros c Hc Hd.
        replace (index_mgr (with_index_mgr s1 m') !! t)
          with (Some (dict_set p (Index.Build t p true [])
                        (default [] (index_mgr s1 !! t))))
          by (symmetry; exact Hl).
        replace (index_mgr s1 !! t) with (@None (dict Index.t))
          by (symmetry; exact Hi1).
        unfold differs in Hd. unfold dict_has. simpl.
        destruct (String.eqb c p); [discriminate|reflexivity].
      + unfold bind at 1. unfold ret at 1.
        apply create_unique_indexes_ok; [apply NoDup_remove_dups|].
        intros c Hc Hd.
        replace (index_mgr s1 !! t) with (@None (dict Index.t))
          by (symmetry; exact Hi1).
        reflexivity.
    - unfold bind at 1. unfold ret at 1.
      apply create_unique_indexes_ok; [apply NoDup_remove_dups|].
      intros c Hc Hd.
      replace (index_mgr s1 !! t) with (@None (dict Index.t))
        by (symmetry; exact Hi1).
      reflexivity. }
  unfold bind. rewrite Hs2. reflexivity.
Qed.

(** ** What a sort keeps *)

Lemma binarysort_permutation {K A} (lt_key : K -> K -> result bool)
    (rest : list (K * A)) :
  forall pre, fst (binarysort lt_key pre rest) ≡ₚ pre ++ rest.
Proof.
  induction rest as [|[k x] rest IH]; intros pre; simpl.
  - rewrite app_nil_r. reflexivity.
  - destruct (bisect lt_key (length pre) pre k 0 (length pre)) as [l|e];
      simpl; [|reflexivity].
    rewrite IH.
    rewrite <- (take_drop l pre) at 3.
    rewrite <- !app_assoc. simpl.
    apply Permutation_app_head.
    rewrite (Permutation_middle (drop l pre) rest (k, x)).
    reflexivity.
Qed.

(** Whether the sort succeeds or fails, the list holds the same elements
    afterwards. *)
Lemma list_sort_permutation {K A} (lt_key : K -> K -> result bool)
    (key : A -> K) (l : list A) :
  fst (list_sort lt_key key l) ≡ₚ l.
Proof.
  unfold list_sort.
  destruct (Nat.ltb (length l) 2); [reflexivity|].
  destruct (count_run lt_key (map (fun x => (key x, x)) l))
    as [[n descending]|e]; [|reflexivity].
  pose proof (binarysort_permutation lt_key
                (drop n (map (fun x => (key x, x)) l))
                (if descending
                 then rev (take n (map (fun x => (key x, x)) l))
                 else take n (map (fun x => (key x, x)) l))) as Hp.
  destruct (binarysort _ _ _) as [kv' e]. simpl in *.
  rewrite Hp.
  assert ((if descending
           then rev (take n (map (fun x => (key x, x)) l))
           else take n (map (fun x => (key x, x)) l))
          ≡ₚ take n (map (fun x => (key x, x)) l)) as ->.
  { destruct descending; [symmetry; apply Permutation_rev|reflexivity]. }
  rewrite take_drop, map_map. simpl. rewrite map_id. reflexivity.
Qed.

(** ORDER BY returns the rows it was given, in some order. *)
Lemma sort_rows_permutation (order_by : string) (rows : list Row) :
  sort_rows order_by rows ≡ₚ rows.
Proof. apply list_sort_permutation. Qed.

(** ** Equality of values *)

Lemma pow2_pos (k : Z) : (0 <= k -> 0 < 2 ^ k)%Z.
Proof. intros. apply Z.pow_pos_nonneg; lia. Qed.

(** Two scaled integers are equal at one common scale exactly when they
    are at a finer one. *)
Lemma fin_eq_shift (m1 e1 m2 e2 E E' : Z) :
  (E' <= E -> E <= e1 -> E <= e2 ->
   (m1 * 2 ^ (e1 - E') = m2 * 2 ^ (e2 - E')
    <-> m1 * 2 ^ (e1 - E) = m2 * 2 ^ (e2 - E)))%Z.
Proof.
  intros H0 H1 H2.
  replace (e1 - E')%Z with ((e1 - E) + (E - E'))%Z by lia.
  replace (e2 - E')%Z with ((e2 - E) + (E - E'))%Z by lia.
  rewrite !Z.pow_add_r by lia. rewrite !Z.mul_assoc.
  pose proof (pow2_pos (E - E')%Z ltac:(lia)) as Hp.
  split; intros H.
  - apply Z.mul_cancel_r in H; [assumption|lia].
  - rewrite H. reflexivity.
Qed.

Lemma num_eqb_fin (m1 e1 m2 e2 E : Z) :
  (E <= e1 -> E <= e2 ->
   (num_eqb (NFin m1 e1) (NFin m2 e2) = true
    <-> m1 * 2 ^ (e1 - E) = m2 * 2 ^ (e2 - E)))%Z.
Proof.
  intros H1 H2. unfold num_eqb. simpl.
  rewrite (fin_eq_shift m1 e1 m2 e2 (Z.min e1 e2) E) by lia.
  destruct (Z.compare_spec (m1 * 2 ^ (e1 - Z.min e1 e2))
              (m2 * 2 ^ (e2 - Z.min e1 e2))); split; intros;
    try discriminate; try reflexivity; try assumption; lia.
Qed.

Lemma num_eqb_sym (x y : num) : num_eqb x y = num_eqb y x.
Proof.
  destruct x as [|s|m1 e1], y as [|t|m2 e2]; try reflexivity.
  - unfold num_eqb. simpl. destruct s, t; reflexivity.
  - unfold num_eqb. simpl. destruct s; reflexivity.
  - unfold num_eqb. simpl. destruct t; reflexivity.
  - apply eq_true_iff_eq.
    rewrite (num_eqb_fin m1 e1 m2 e2 (Z.min e1 e2)) by lia.
    rewrite (num_eqb_fin m2 e2 m1 e1 (Z.min e1 e2)) by lia.
    split; intros; symmetry; assumption.
Qed.

Lemma num_eqb_trans (x y z : num) :
  num_eqb x y = true -> num_eqb y z = true -> num_eqb x z = true.
Proof.
  destruct x as [|s|m1 e1], y as [|t|m2 e2], z as [|u|m3 e3];
    try (unfold num_eqb; simpl; discriminate);
    try (unfold num_eqb; simpl; destruct s; discriminate);
    try (unfold num_eqb; simpl; destruct t; discriminate);
    try (unfold num_eqb; simpl; destruct u; discriminate).
  - unfold num_eqb. simpl. destruct s, t, u; auto; discriminate.
  - set (E := Z.min e1 (Z.min e2 e3)).
    rewrite (num_eqb_fin m1 e1 m2 e2 E) by lia.
    rewrite (num_eqb_fin m2 e2 m3 e3 E) by lia.
    rewrite (num_eqb_fin m1 e1 m3 e3 E) by lia.
    congruence.
Qed.

Lemma py_eq_num (a b : value) (x y : num) :
  as_num a = Some x -> as_num b = Some y -> Py.eq a b = num_eqb x y.
Proof. unfold Py.eq. intros -> ->. reflexivity. Qed.

(** [==] is symmetric. *)
Lemma py_eq_sym (a b : value) : Py.eq a b = Py.eq b a.
Proof.
  destruct (as_num a) as [x|] eqn:Ha, (as_num b) as [y|] eqn:Hb.
  - rewrite (py_eq_num a b x y), (py_eq_num b a y x) by assumption.
    apply num_eqb_sym.
  - unfold Py.eq. rewrite Ha, Hb. destruct a, b; try discriminate; reflexivity.
  - unfold Py.eq. rewrite Ha, Hb. destruct a, b; try discriminate; reflexivity.
  - unfold Py.eq. rewrite Ha, Hb.
    destruct a, b; try discriminate; try reflexivity.
    apply String.eqb_sym.
Qed.

(** [==] is transitive. *)
Lemma py_eq_trans (a b c : value) :
  Py.eq a b = true -> Py.eq b c = true -> Py.eq a c = true.
Proof.
  destruct (as_num a) as [x|] eqn:Ha, (as_num b) as [y|] eqn:Hb,
           (as_num c) as [z|] eqn:Hc.
  1: { rewrite (py_eq_num a b x y), (py_eq_num b c y z), (py_eq_num a c x z)
         by assumption.
       apply num_eqb_trans. }
  all: unfold Py.eq; rewrite ?Ha, ?Hb, ?Hc;
    destruct a, b, c; simpl in *; try congruence.
  intros H1 H2. apply String.eqb_eq in H1, H2. apply String.eqb_eq.
  congruence.
Qed.

(** NULL equals nothing that is not NULL. *)
Lemma py_eq_None (a b : value) :
  Py.eq a b = true -> is_None b = is_None a.
Proof. destruct a, b; simpl; intros H; try reflexivity; discriminate. Qed.

(** ** Validation of values and rows *)

Lemma row_get_set (n k : string) (x : value) (d : Row) :
  row_get n (dict_set k x d) = if String.eqb n k then x else row_get n d.
Proof.
  unfold row_get. induction d as [|[k0 v0] d IH]; simpl.
  - destruct (String.eqb n k); reflexivity.
  - destruct (String.eqb_spec k k0) as [<-|Hk]; simpl.
    + destruct (String.eqb n k); reflexivity.
    + destruct (String.eqb_spec n k0) as [->|Hn].
      * destruct (String.eqb_spec k0 k); [congruence|reflexivity].
      * exact IH.
Qed.

Lemma dict_has_set_eq {V} (n k : string) (x : V) (d : dict V) :
  dict_has n (dict_set k x d) = String.eqb n k || dict_has n d.
Proof.
  unfold dict_has. induction d as [|[k0 v0] d IH]; simpl.
  - destruct (String.eqb n k); reflexivity.
  - destruct (String.eqb_spec k k0) as [<-|Hk]; simpl.
    + destruct (String.eqb n k); reflexivity.
    + destruct (String.eqb_spec n k0) as [->|Hn].
      * destruct (String.eqb k0 k); reflexivity.
      * exact IH.
Qed.

(** NULL comes out of [validate_value] exactly when it goes in. *)
Lemma validate_value_None (col : Column.t) (v w : value) :
  Column.validate_value col v = Ok w ->
  is_None w = is_None v
  /\ (is_None v = true -> Column.nullable col = true).
Proof.
  unfold Column.validate_value.
  destruct v as [|b|n|f|s]; simpl.
  1: { destruct (Column.nullable col); simpl; intros H; inversion H; auto. }
  all: destruct (Column.data_type col); simpl;
      repeat match goal with
             | |- context [match ?x with _ => _ end] => destruct x
             end;
      intros H; inversion H; subst; split;
      (reflexivity || (intros; discriminate)).
Qed.

(** X1.  [validate_value] returns NULL exactly when it is given NULL, and
    it accepts NULL only for a nullable column. *)
Theorem validate_value_null (col : Column.t) (v w : value) :
  Column.validate_value col v = Ok w ->
  is_None w = is_None v
  /\ (is_None v = true -> Column.nullable col = true).
Proof. apply validate_value_None. Qed.

Lemma validate_value_null_witness :
  Column.validate_value integer_column (VStr "42") = Ok (VInt 42)
  /\ is_None (VInt 42) = is_None (VStr "42").
Proof.
  split; [reflexivity|].
  apply (validate_value_null integer_column (VStr "42") (VInt 42)).
  reflexivity.
Defined.

(** A validated value is validated into itself. *)
Lemma validate_value_again (col : Column.t) (v w : value) :
  Column.validate_value col v = Ok w ->
  Column.validate_value col w = Ok w.
Proof.
  unfold Column.validate_value.
  destruct v as [|b|n|f|s]; simpl.
  1: { destruct (Column.nullable col) eqn:E; simpl; intros H;
       inversion H; subst. reflexivity. }
  all: destruct (Column.data_type col) eqn:E; simpl; intros H;
    repeat match type of H with
           | context [match ?x with _ => _ end] => destruct x eqn:?
           end;
    inversion H; subst; simpl;
    try match goal with
        | L : Column.too_long _ _ = _ |- _ => simpl in L; rewrite L
        end;
    reflexivity.
Qed.

(** X2.  A value that [validate_value] returned passes the validation of
    the same column again and comes back unchanged. *)
Theorem validate_value_idempotent (col : Column.t) (v w : value) :
  Column.validate_value col v = Ok w ->
  Column.validate_value col w = Ok w.
Proof. apply validate_value_again. Qed.

Lemma validate_value_idempotent_witness :
  Column.validate_value integer_column (VFloat three_and_a_half)
  = Ok (VInt 3)
  /\ Column.validate_value integer_column (VInt 3) = Ok (VInt 3).
Proof.
  split; [reflexivity|].
  apply (validate_value_idempotent integer_column (VFloat three_and_a_half)).
  reflexivity.
Defined.

(** *** Rows *)

Lemma is_column_In (columns : list Column.t) (n : string) :
  SchemaManager.is_column columns n = true
  <-> In n (map Column.name columns).
Proof.
  unfold SchemaManager.is_column. rewrite existsb_exists, in_map_iff.
  split; intros (col & H1 & H2); exists col.
  - apply String.eqb_eq in H2. auto.
  - split; [assumption|]. apply String.eqb_eq. assumption.
Qed.

Lemma get_column_Some (schema : TableSchema.t) (n : string) :
  (exists col, TableSchema.get_column schema n = Some col)
  <-> In n (TableSchema.get_column_names schema).
Proof.
  unfold TableSchema.get_column, TableSchema.get_column_names.
  rewrite in_map_iff. split.
  - intros (col & H). apply find_some in H as [H1 H2].
    apply String.eqb_eq in H2. eauto.
  - intros (col & H1 & H2).
    destruct (find _ _) as [c|] eqn:E; [eauto|].
    eapply find_none in E; [|exact H2]. simpl in E.
    apply String.eqb_neq in E. contradiction.
Qed.

Lemma check_extra_keys (schema : TableSchema.t) (keys : list string) :
  TableSchema.check_extra schema keys = Ok tt ->
  forall k, In k keys -> In k (TableSchema.get_column_names schema).
Proof.
  induction keys as [|key keys IH]; simpl; [tauto|].
  destruct (TableSchema.get_column schema key) as [col|] eqn:E;
    [|discriminate].
  intros H k [<-|Hk]; [|auto].
  apply get_column_Some. eauto.
Qed.

Lemma dict_has_In {V} (k : string) (d : dict V) :
  dict_has k d = true <-> In k (map fst d).
Proof.
  unfold dict_has. induction d as [|[k0 v0] d IH]; simpl.
  - split; [discriminate|tauto].
  - destruct (String.eqb_spec k k0) as [->|Hk].
    + split; auto.
    + rewrite IH. split; [auto|]. intros [H|H]; [congruence|assumption].
Qed.

Lemma validate_columns_keys (row : Row) (cols : list Column.t) :
  forall acc validated,
    TableSchema.validate_columns cols row acc = Ok validated ->
    forall k, In k (map fst validated)
              <-> In k (map fst acc) \/ In k (map Column.name cols).
Proof.
  induction cols as [|col cols IH]; simpl; intros acc validated H k.
  - inversion H; subst. tauto.
  - assert (forall x,
              In k (map fst (dict_set (Column.name col) x acc))
              <-> In k (map fst acc) \/ Column.name col = k) as Hset.
    { intros x. rewrite <- !dict_has_In, dict_has_set_eq.
      rewrite orb_true_iff, String.eqb_eq. intuition congruence. }
    destruct (negb (dict_has (Column.name col) row)).
    + destruct (negb (Column.nullable col)); [discriminate|].
      rewrite (IH _ _ H k), Hset. tauto.
    + destruct (Column.validate_value col _) as [x|]; [|discriminate].
      rewrite (IH _ _ H k), Hset. tauto.
Qed.

(** X3.  A row that [validate_row] accepts has no key outside the schema,
    and the row it returns has one entry for every column the schema
    names, and no other. *)
Theorem validate_row_keys (schema : TableSchema.t) (row validated : Row) :
  TableSchema.validate_row schema row = Ok validated ->
  (forall k, In k (map fst row) ->
             In k (TableSchema.get_column_names schema))
  /\ (forall k, In k (map fst validated)
                <-> In k (TableSchema.get_column_names schema)).
Proof.
  unfold TableSchema.validate_row, rbind.
  destruct (TableSchema.validate_columns _ _ _) as [v|] eqn:Hv;
    [|discriminate].
  destruct (TableSchema.check_extra _ _) as [[]|] eqn:Hx; [|discriminate].
  intros H. inversion H; subst. split.
  - apply check_extra_keys, Hx.
  - intros k. rewrite (validate_columns_keys _ _ _ _ Hv k). simpl.
    unfold TableSchema.get_column_names. tauto.
Qed.

Lemma validate_columns_not_null (row : Row) (cols : list Column.t) :
  forall acc validated,
    TableSchema.validate_columns cols row acc = Ok validated ->
    forall n,
      dict_has n row = true -> is_None (row_get n row) = false ->
      In n (map Column.name cols) \/ is_None (row_get n acc) = false ->
      is_None (row_get n validated) = false.
Proof.
  induction cols as [|col cols IH]; simpl; intros acc validated H n Hn Hv Hor.
  - inversion H; subst. destruct Hor; [contradiction|assumption].
  - destruct (dict_has (Column.name col) row) eqn:Hhas; simpl in H.
    + destruct (Column.validate_value col _) as [x|] eqn:Hx; [|discriminate].
      apply (IH _ _ H n Hn Hv). rewrite row_get_set.
      destruct (String.eqb_spec n (Column.name col)) as [->|Hne].
      * right. apply validate_value_None in Hx as [Hx _]. congruence.
      * destruct Hor as [[Heq|Hin]|Hacc]; [congruence|auto|auto].
    + destruct (negb (Column.nullable col)); [discriminate|].
      apply (IH _ _ H n Hn Hv). rewrite row_get_set.
      destruct (String.eqb_spec n (Column.name col)) as [->|Hne];
        [congruence|].
      destruct Hor as [[Heq|Hin]|Hacc]; [congruence|auto|auto].
Qed.

Lemma validate_columns_required (row : Row) (cols : list Column.t) :
  forall acc validated,
    TableSchema.validate_columns cols row acc = Ok validated ->
    forall col, In col cols -> Column.nullable col = false ->
      dict_has (Column.name col) row = true
      /\ is_None (row_get (Column.name col) row) = false.
Proof.
  induction cols as [|c cols IH]; simpl; intros acc validated H col Hin Hnn;
    [contradiction|].
  destruct (dict_has (Column.name c) row) eqn:Hhas; simpl in H.
  - destruct (Column.validate_value c _) as [x|] eqn:Hx; [|discriminate].
    destruct Hin as [->|Hin]; [|eapply IH; eauto].
    split; [assumption|].
    destruct (is_None (row_get (Column.name col) row)) eqn:E; [|reflexivity].
    apply validate_value_None in Hx as [_ Hx]. rewrite Hx in Hnn; congruence.
  - destruct (Column.nullable c) eqn:Hc; simpl in H; [|discriminate].
    destruct Hin as [->|Hin]; [congruence|eapply IH; eauto].
Qed.

(** X4.  In a row that [validate_row] returns, every column that is not
    nullable holds a value that is not NULL. *)
Theorem validate_row_not_null (schema : TableSchema.t) (row validated : Row)
    (col : Column.t) :
  TableSchema.validate_row schema row = Ok validated ->
  In col (TableSchema.columns schema) ->
  Column.nullable col = false ->
  is_None (row_get (Column.name col) validated) = false.
Proof.
  unfold TableSchema.validate_row, rbind.
  destruct (TableSchema.validate_columns _ _ _) as [v|] eqn:Hv;
    [|discriminate].
  destruct (TableSchema.check_extra _ _) as [[]|]; [|discriminate].
  intros H Hin Hnn. inversion H; subst.
  destruct (validate_columns_required _ _ _ _ Hv col Hin Hnn) as [Hhas Hval].
  apply (validate_columns_not_null _ _ _ _ Hv); try assumption.
  left. apply in_map. assumption.
Qed.
Lemma validate_row_keys_witness :
  (forall k, In k (map fst [("name", VStr "Ann"); ("id", VInt 1)]) ->
             In k (TableSchema.get_column_names people_schema))
  /\ (forall k, In k (map fst (person 1 "Ann"))
                <-> In k (TableSchema.get_column_names people_schema)).
Proof.
  apply (validate_row_keys people_schema
           [("name", VStr "Ann"); ("id", VInt 1)] (person 1 "Ann")).
  reflexivity.
Defined.

Lemma validate_row_not_null_witness :
  is_None (row_get "id" (person 1 "Ann")) = false.
Proof.
  apply (validate_row_not_null people_schema
           [("name", VStr "Ann"); ("id", VInt 1)] (person 1 "Ann")
           (Column.Build "id" INTEGER None false)).
  - reflexivity.
  - left. reflexivity.
  - reflexivity.
Defined.

Lemma dict_set_fresh {V} (k : string) (x : V) (d : dict V) :
  ~ In k (map fst d) -> dict_set k x d = d ++ [(k, x)].
Proof.
  induction d as [|[k0 v0] d IH]; simpl; intros Hk; [reflexivity|].
  destruct (String.eqb_spec k k0) as [->|Hne]; [tauto|].
  rewrite IH by tauto. reflexivity.
Qed.

Lemma dict_get_NoDup {V} (d : dict V) (k : string) (x : V) :
  NoDup (map fst d) -> In (k, x) d -> dict_get k d = Some x.
Proof.
  induction d as [|[k0 v0] d IH]; simpl; intros Hnd Hin; [contradiction|].
  apply NoDup_cons in Hnd as [Hk0 Hnd].
  destruct Hin as [[= -> ->]|Hin].
  - rewrite String.eqb_refl. reflexivity.
  - destruct (String.eqb_spec k k0) as [->|Hne]; [|auto].
    exfalso. apply Hk0. apply list_elem_of_In, in_map_iff.
    exists (k0, x). auto.
Qed.

(** With column names that differ, the first loop of [validate_row]
    returns one entry per column, in the order of the columns, each with a
    value the column accepts as it is. *)
Lemma validate_columns_shape (row : Row) (cols : list Column.t) :
  forall acc validated,
    TableSchema.validate_columns cols row acc = Ok validated ->
    NoDup (map fst acc ++ map Column.name cols) ->
    exists tail,
      validated = acc ++ tail
      /\ Forall2 (fun col kv =>
                    fst kv = Column.name col
                    /\ Column.validate_value col (snd kv) = Ok (snd kv))
                 cols tail.
Proof.
  induction cols as [|col cols IH]; simpl; intros acc validated H Hnd.
  - inversion H; subst. exists []. rewrite app_nil_r. auto.
  - assert (~ In (Column.name col) (map fst acc)) as Hfresh.
    { apply NoDup_app in Hnd as (_ & Hdisj & _).
      intros Hin. apply (Hdisj (Column.name col)).
      - apply list_elem_of_In. assumption.
      - left. }
    assert (forall x,
              NoDup (map fst (acc ++ [(Column.name col, x)])
                     ++ map Column.name cols)) as Hnd'.
    { intros x. rewrite map_app, <- app_assoc. exact Hnd. }
    destruct (dict_has (Column.name col) row); simpl in H.
    + destruct (Column.validate_value col _) as [x|] eqn:Hx; [|discriminate].
      rewrite dict_set_fresh in H by assumption.
      destruct (IH _ _ H (Hnd' x)) as (tail & -> & Htail).
      exists ((Column.name col, x) :: tail).
      rewrite <- app_assoc. split; [reflexivity|].
      constructor; [|assumption]. split; [reflexivity|].
      eapply validate_value_again, Hx.
    + destruct (Column.nullable col) eqn:Hnull; simpl in H; [|discriminate].
      rewrite dict_set_fresh in H by assumption.
      destruct (IH _ _ H (Hnd' VNone)) as (tail & -> & Htail).
      exists ((Column.name col, VNone) :: tail).
      rewrite <- app_assoc. split; [reflexivity|].
      constructor; [|assumption]. split; [reflexivity|].
      unfold Column.validate_value. simpl. rewrite Hnull. reflexivity.
Qed.

Lemma validate_columns_again (row : Row) (cols : list Column.t)
    (tail : Row) :
  Forall2 (fun col kv =>
             fst kv = Column.name col
             /\ Column.validate_value col (snd kv) = Ok (snd kv))
          cols tail ->
  forall acc,
    (forall k x, In (k, x) tail -> dict_get k row = Some x) ->
    NoDup (map fst acc ++ map fst tail) ->
    TableSchema.validate_columns cols row acc = Ok (acc ++ tail).
Proof.
  induction 1 as [|col [k x] cols tail [Hk Hx] _ IH]; intros acc Hrow Hnd;
    simpl.
  - rewrite app_nil_r. reflexivity.
  - simpl in Hk, Hx. subst k.
    assert (dict_get (Column.name col) row = Some x) as Hget
        by (apply Hrow; left; reflexivity).
    unfold dict_has, row_get. rewrite Hget. simpl. rewrite Hx.
    rewrite dict_set_fresh.
    + rewrite IH.
      * rewrite <- app_assoc. reflexivity.
      * intros k0 x0 Hin. apply Hrow. right. assumption.
      * rewrite map_app, <- app_assoc. exact Hnd.
    + apply NoDup_app in Hnd as (_ & Hdisj & _).
      intros Hin. apply (Hdisj (Column.name col)).
      * apply list_elem_of_In. assumption.
      * left.
Qed.

Lemma map_fst_shape (cols : list Column.t) (tail : Row) :
  Forall2 (fun col kv =>
             fst kv = Column.name col
             /\ Column.validate_value col (snd kv) = Ok (snd kv))
          cols tail ->
  map fst tail = map Column.name cols.
Proof.
  induction 1 as [|col kv cols tail [Hk _] _ IH]; simpl; [reflexivity|].
  rewrite Hk, IH. reflexivity.
Qed.

Lemma check_extra_ok (schema : TableSchema.t) (keys : list string) :
  (forall k, In k keys -> In k (TableSchema.get_column_names schema)) ->
  TableSchema.check_extra schema keys = Ok tt.
Proof.
  induction keys as [|key keys IH]; simpl; intros H; [reflexivity|].
  destruct (proj2 (get_column_Some schema key) (H key (or_introl eq_refl)))
    as [col ->].
  apply IH. auto.
Qed.

(** X5.  When the columns of the schema have different names, the row
    [validate_row] returns lists the columns in the order of the schema,
    and validating it again returns it unchanged. *)
Theorem validate_row_idempotent (schema : TableSchema.t)
    (row validated : Row) :
  NoDup (TableSchema.get_column_names schema) ->
  TableSchema.validate_row schema row = Ok validated ->
  map fst validated = TableSchema.get_column_names schema
  /\ TableSchema.validate_row schema validated = Ok validated.
Proof.
  unfold TableSchema.validate_row, rbind. intros Hnd.
  destruct (TableSchema.validate_columns _ row _) as [v|] eqn:Hv;
    [|discriminate].
  destruct (TableSchema.check_extra _ _) as [[]|]; [|discriminate].
  intros H. inversion H; subst. clear H.
  destruct (validate_columns_shape _ _ _ _ Hv Hnd) as (tail & -> & Htail).
  simpl in *.
  pose proof (map_fst_shape _ _ Htail) as Hkeys.
  split; [exact Hkeys|].
  rewrite (validate_columns_again tail _ tail Htail []).
  - simpl. rewrite check_extra_ok; [reflexivity|].
    intros k Hk. rewrite Hkeys in Hk. exact Hk.
  - intros k x Hin. apply dict_get_NoDup; [|assumption].
    rewrite Hkeys. exact Hnd.
  - simpl. rewrite Hkeys. exact Hnd.
Qed.

(** ** The schema catalog *)

(** X6.  A schema that [create_table_schema] registers names only columns
    of the table as its primary key and in its unique constraints, and
    [get_schema] finds it under the name of the table; a name that is
    registered already is rejected and the catalog stays as it is. *)
Theorem create_table_schema_valid (schemas schemas' : SchemaManager.t)
    (table_name : string) (columns : list Column.t)
    (primary_key : option string) (unique_constraints : list string)
    (r : result TableSchema.t) :
  SchemaManager.create_table_schema schemas table_name columns primary_key
    unique_constraints = (schemas', r) ->
  match r with
  | Ok schema =>
      schemas !! table_name = None
      /\ SchemaManager.get_schema schemas' table_name = Some schema
      /\ (forall t, t <> table_name ->
            SchemaManager.get_schema schemas' t
            = SchemaManager.get_schema schemas t)
      /\ (forall p, TableSchema.primary_key schema = Some p -> p <> "" ->
            In p (TableSchema.get_column_names schema))
      /\ (forall u, In u (TableSchema.unique_constraints schema) ->
            In u (TableSchema.get_column_names schema))
  | Raise _ => schemas' = schemas
  end.
Proof.
  unfold SchemaManager.create_table_schema, SchemaManager.get_schema.
  destruct (schemas !! table_name) eqn:Hs;
    [intros H; inversion H; reflexivity|].
  destruct (opt_str_truthy primary_key && _) eqn:Hpk;
    [intros H; inversion H; reflexivity|].
  destruct (SchemaManager.check_unique columns unique_constraints) as [[]|]
    eqn:Hu; intros H; inversion H; subst; clear H; [|reflexivity].
  split; [reflexivity|]. split; [apply lookup_insert_eq|].
  split; [intros t Ht; apply lookup_insert_ne; congruence|].
  unfold TableSchema.get_column_names. simpl. split.
  - intros p -> Hp. apply is_column_In.
    destruct p as [|c p]; [congruence|]. simpl in Hpk.
    destruct (SchemaManager.is_column columns (String c p));
      [reflexivity|discriminate].
  - intros u Hin. apply is_column_In.
    unfold set_of_list in Hin.
    rewrite <- list_elem_of_In, elem_of_remove_dups, list_elem_of_In in Hin.
    clear -Hu Hin. induction unique_constraints as [|x xs IH];
      [contradiction|].
    simpl in Hu.
    destruct (SchemaManager.is_column columns x) eqn:Hx; simpl in Hu;
      [|discriminate].
    simpl in Hin. destruct Hin as [->|Hin]; [assumption|auto].
Qed.
Lemma validate_row_idempotent_witness :
  map fst (person 1 "Ann") = TableSchema.get_column_names people_schema
  /\ TableSchema.validate_row people_schema (person 1 "Ann")
     = Ok (person 1 "Ann").
Proof.
  apply (validate_row_idempotent people_schema
           [("name", VStr "Ann"); ("id", VInt 1)] (person 1 "Ann")).
  - unfold TableSchema.get_column_names. simpl.
    apply NoDup_cons_2; [|apply NoDup_cons_2; [|apply NoDup_nil_2]];
      intros H; apply list_elem_of_In in H; simpl in H;
      repeat destruct H as [H|H]; try discriminate H; exact H.
  - vm_compute. reflexivity.
Defined.

Lemma create_table_schema_valid_witness :
  (∅ : SchemaManager.t) !! "people" = None
  /\ SchemaManager.get_schema (<["people" := people_schema]> ∅) "people"
     = Some people_schema
  /\ (forall t, t <> "people" ->
        SchemaManager.get_schema (<["people" := people_schema]> ∅) t
        = SchemaManager.get_schema ∅ t)
  /\ (forall p, TableSchema.primary_key people_schema = Some p -> p <> "" ->
        In p (TableSchema.get_column_names people_schema))
  /\ (forall u, In u (TableSchema.unique_constraints people_schema) ->
        In u (TableSchema.get_column_names people_schema)).
Proof.
  apply (create_table_schema_valid ∅ (<["people" := people_schema]> ∅)
           "people" (TableSchema.columns people_schema) (Some "id") []
           (Ok people_schema)).
  reflexivity.
Defined.

(** ** The index of a column *)

Lemma map_get_append (m : list (value * list nat)) (v w : value) (i : nat) :
  Index.map_get w (Index.map_append v i m)
  = if Py.eq w v
    then Some (default [] (Index.map_get w m) ++ [i])
    else Index.map_get w m.
Proof.
  induction m as [|[k b] m IH]; simpl.
  - destruct (Py.eq w v); reflexivity.
  - destruct (Py.eq v k) eqn:Hvk; simpl.
    + destruct (Py.eq w k) eqn:Hwk.
      * rewrite (py_eq_trans w k v Hwk) by (rewrite py_eq_sym; exact Hvk).
        reflexivity.
      * destruct (Py.eq w v) eqn:Hwv; [|reflexivity].
        rewrite (py_eq_trans w v k Hwv Hvk) in Hwk. discriminate.
    + destruct (Py.eq w k) eqn:Hwk; [|exact IH].
      destruct (Py.eq w v) eqn:Hwv; [|reflexivity].
      rewrite py_eq_sym in Hwv. rewrite (py_eq_trans v w k Hwv Hwk) in Hvk.
      discriminate.
Qed.

(** What [add] does to the answers of [lookup]. *)
Lemma add_lookup (ix ix' : Index.t) (v : value) (row_idx : nat) :
  is_None v = false ->
  Index.add ix v row_idx = (ix', Ok tt) ->
  (forall w, Index.lookup ix' w
             = if Py.eq w v then Index.lookup ix w ++ [row_idx]
               else Index.lookup ix w)
  /\ Index.column_name ix' = Index.column_name ix
  /\ Index.unique ix' = Index.unique ix.
Proof.
  unfold Index.add. intros Hv. rewrite Hv.
  destruct (Index.unique ix && Index.map_has v (Index.index_map ix));
    [discriminate|].
  intros H. inversion H; subst; clear H. split; [|split; reflexivity].
  intros w. unfold Index.lookup. simpl. rewrite map_get_append.
  destruct (Py.eq w v); [|reflexivity].
  destruct (Index.map_get w (Index.index_map ix)); reflexivity.
Qed.

(** X7.  [add] followed by [lookup]: when [add] accepts a value that is
    not NULL, the lookup of every equal value ([1], [1.0] and [True] are
    equal) gains the new position at its end, and the lookup of every
    other value is as before. *)
Theorem add_then_lookup (ix ix' : Index.t) (v w : value) (row_idx : nat) :
  is_None v = false ->
  Index.add ix v row_idx = (ix', Ok tt) ->
  Index.lookup ix' w
  = if Py.eq w v then Index.lookup ix w ++ [row_idx] else Index.lookup ix w.
Proof.
  intros Hv Hadd. destruct (add_lookup ix ix' v row_idx Hv Hadd) as [H _].
  apply H.
Qed.

Lemma add_then_lookup_witness :
  is_None (VInt 7) = false
  /\ Index.lookup (fst (Index.add (id_index true) (VInt 7) 0))
       (VFloat (float_of_bool true))
     = []
  /\ Index.lookup (fst (Index.add (id_index true) (VInt 7) 0)) (VInt 7)
     = [0].
Proof.
  split; [reflexivity|]. split.
  - exact (add_then_lookup (id_index true)
             (fst (Index.add (id_index true) (VInt 7) 0)) (VInt 7)
             (VFloat (float_of_bool true)) 0 eq_refl eq_refl).
  - exact (add_then_lookup (id_index true)
             (fst (Index.add (id_index true) (VInt 7) 0)) (VInt 7)
             (VInt 7) 0 eq_refl eq_refl).
Defined.

Lemma add_None (ix : Index.t) (i : nat) : Index.add ix VNone i = (ix, Ok tt).
Proof. reflexivity. Qed.

Lemma build_from_lookup (rows : list Row) :
  forall (ix ix' : Index.t) (i : nat),
    Index.build_from ix rows i = (ix', Ok tt) ->
    Index.column_name ix' = Index.column_name ix
    /\ Index.unique ix' = Index.unique ix
    /\ forall w, Index.lookup ix' w
                 = Index.lookup ix w
                   ++ positions_from (Index.column_name ix) w rows i.
Proof.
  induction rows as [|row rows IH]; simpl; intros ix ix' i H.
  - inversion H; subst. repeat split. intros w. rewrite app_nil_r.
    reflexivity.
  - destruct (is_None (row_get (Index.column_name ix) row)) eqn:Hnone;
      simpl in *.
    + destruct (IH _ _ _ H) as (Hc & Hu & Hl). repeat split; try assumption.
    + destruct (Index.add ix _ i) as [ix1 [[]|e]] eqn:Hadd; [|discriminate].
      destruct (add_lookup _ _ _ _ Hnone Hadd) as (Hl1 & Hc1 & Hu1).
      destruct (IH _ _ _ H) as (Hc & Hu & Hl).
      split; [congruence|]. split; [congruence|].
      intros w. rewrite Hl, Hl1, Hc1.
      destruct (Py.eq w _); simpl; [rewrite <- app_assoc|]; reflexivity.
Qed.

(** X8.  After [build] has succeeded, [lookup] answers for every value
    with the positions of the rows that hold an equal value in the column
    of the index, in the order of the rows; NULL values are in no
    answer. *)
Theorem build_then_lookup (ix ix' : Index.t) (rows : list Row) (w : value) :
  Index.build ix rows = (ix', Ok tt) ->
  Index.lookup ix' w = positions_from (Index.column_name ix) w rows 0.
Proof.
  unfold Index.build. intros H.
  destruct (build_from_lookup _ _ _ _ H) as (_ & _ & Hl).
  rewrite Hl. reflexivity.
Qed.

Lemma build_then_lookup_witness :
  Index.build (id_index false)
    [person 5 "Ann"; person 7 "Bob"; person 5 "Cy"]
  = (Index.Build "people" "id" false [(VInt 5, [0; 2]); (VInt 7, [1])],
     Ok tt)
  /\ Index.lookup
       (Index.Build "people" "id" false [(VInt 5, [0; 2]); (VInt 7, [1])])
       (VInt 5)
     = positions_from "id" (VInt 5)
         [person 5 "Ann"; person 7 "Bob"; person 5 "Cy"] 0.
Proof.
  split; [reflexivity|].
  apply (build_then_lookup (id_index false)). reflexivity.
Defined.

(** *** Unique indexes *)

Lemma map_has_append (m : list (value * list nat)) (v w : value) (i : nat) :
  Index.map_has w (Index.map_append v i m)
  = Py.eq w v || Index.map_has w m.
Proof.
  unfold Index.map_has. rewrite map_get_append.
  destruct (Py.eq w v); reflexivity.
Qed.

Lemma distinct_values_cons (column : string) (row : Row) (rows : list Row) :
  distinct_values column (row :: rows)
  <-> (is_None (row_get column row) = false ->
       forall r, In r rows ->
                 Py.eq (row_get column r) (row_get column row) = false)
      /\ distinct_values column rows.
Proof.
  unfold distinct_values. split.
  - intros H. split.
    + intros Hrow r Hin.
      apply list_elem_of_In, list_elem_of_lookup in Hin as [j Hj].
      apply (H 0 (S j) row r); [lia|reflexivity|exact Hj|exact Hrow].
    + intros i j ri rj Hij Hi Hj.
      apply (H (S i) (S j)); [lia|exact Hi|exact Hj].
  - intros [Hfirst Hrest] i j ri rj Hij Hi Hj Hnone.
    destruct j as [|j]; [lia|]. simpl in Hj.
    destruct i as [|i].
    + simpl in Hi. inversion Hi; subst.
      apply Hfirst; [assumption|].
      apply list_elem_of_In, list_elem_of_lookup. eauto.
    + simpl in Hi. apply (Hrest i j); [lia|assumption..].
Qed.

Lemma build_from_unique (rows : list Row) :
  forall (ix : Index.t) (i : nat),
    Index.unique ix = true ->
    snd (Index.build_from ix rows i) = Ok tt
    <-> (forall r, In r rows ->
           is_None (row_get (Index.column_name ix) r) = false ->
           Index.map_has (row_get (Index.column_name ix) r)
                         (Index.index_map ix) = false)
        /\ distinct_values (Index.column_name ix) rows.
Proof.
  induction rows as [|row rows IH]; intros ix i Hu; simpl.
  - split; [|reflexivity]. intros _. split; [tauto|].
    intros i0 j ri rj _ Hi. discriminate.
  - rewrite distinct_values_cons.
    set (x := row_get (Index.column_name ix) row).
    destruct (is_None x) eqn:Hnone; simpl.
    + rewrite (IH ix (S i) Hu). split.
      * intros [H1 H2]. split; [|split; [congruence|assumption]].
        intros r [<-|Hin]; [fold x; congruence|auto].
      * intros [H1 [_ H2]]. split; [auto|assumption].
    + unfold Index.add. fold x. rewrite Hnone, Hu. simpl.
      destruct (Index.map_has x (Index.index_map ix)) eqn:Hhas; simpl.
      * split; [discriminate|]. intros [H1 _].
        pose proof (H1 row (or_introl eq_refl) Hnone) as E. fold x in E.
        congruence.
      * rewrite (IH (Index.with_map ix
                       (Index.map_append x i (Index.index_map ix)))
                    (S i) Hu).
        simpl. split.
        -- intros [H1 H2]. split; [|split; [|assumption]].
           ++ intros r [<-|Hin] Hr; [exact Hhas|].
              specialize (H1 r Hin Hr). rewrite map_has_append in H1.
              apply orb_false_iff in H1 as [_ H1]. exact H1.
           ++ intros _ r Hin.
              destruct (is_None (row_get (Index.column_name ix) r)) eqn:Hr.
              ** destruct (Py.eq _ x) eqn:E; [|reflexivity].
                 apply py_eq_None in E. congruence.
              ** specialize (H1 r Hin Hr). rewrite map_has_append in H1.
                 apply orb_false_iff in H1 as [H1 _]. exact H1.
        -- intros [H1 [H2 H3]]. split; [|assumption].
           intros r Hin Hr. rewrite map_has_append.
           apply orb_false_iff. split; [apply H2; auto|apply H1; auto].
Qed.

(** X9.  The build of a unique index succeeds exactly when no two rows
    hold equal values, NULL apart, in the column of the index. *)
Theorem unique_build_succeeds_iff_distinct (ix : Index.t)
    (rows : list Row) :
  Index.unique ix = true ->
  snd (Index.build ix rows) = Ok tt
  <-> distinct_values (Index.column_name ix) rows.
Proof.
  intros Hu. unfold Index.build.
  rewrite (build_from_unique rows (Index.with_map ix []) 0 Hu). simpl.
  split; [intros [_ H]; exact H|]. intros H. split; [|exact H].
  reflexivity.
Qed.

Lemma unique_build_succeeds_iff_distinct_witness :
  Index.unique (id_index true) = true
  /\ distinct_values "id" [person 5 "Ann"; person 7 "Bob"].
Proof.
  split; [reflexivity|].
  apply (unique_build_succeeds_iff_distinct (id_index true)
           [person 5 "Ann"; person 7 "Bob"]); reflexivity.
Defined.

(** An index that is not unique is built from any rows. *)
Lemma plain_build_succeeds (rows : list Row) :
  forall (ix : Index.t) (i : nat),
    Index.unique ix = false -> snd (Index.build_from ix rows i) = Ok tt.
Proof.
  induction rows as [|row rows IH]; intros ix i Hu; simpl; [reflexivity|].
  destruct (is_None (row_get (Index.column_name ix) row)) eqn:Hnone; simpl.
  - apply IH, Hu.
  - unfold Index.add. rewrite Hnone, Hu. simpl. apply IH. exact Hu.
Qed.

(** *** [remove] *)

(** Equal values find the same bucket. *)
Lemma map_get_equal (m : list (value * list nat)) (v w : value) :
  Py.eq w v = true -> Index.map_get w m = Index.map_get v m.
Proof.
  intros Hwv. induction m as [|[k b] m IH]; simpl; [reflexivity|].
  destruct (Py.eq w k) eqn:Hwk, (Py.eq v k) eqn:Hvk; try reflexivity.
  - rewrite py_eq_sym in Hwv. rewrite (py_eq_trans _ _ _ Hwv Hwk) in Hvk.
    discriminate.
  - rewrite (py_eq_trans _ _ _ Hwv Hvk) in Hwk. discriminate.
  - exact IH.
Qed.

Lemma map_get_remove (m : list (value * list nat)) (v w : value) (i : nat) :
  Index.keys_distinct m = true ->
  Index.map_get w (Index.map_remove v i m)
  = if Py.eq w v
    then match Index.remove_first i (default [] (Index.map_get v m)) with
         | [] => None
         | b => Some b
         end
    else Index.map_get w m.
Proof.
  induction m as [|[k b] m IH]; simpl; intros Hd.
  - destruct (Py.eq w v); reflexivity.
  - apply andb_true_iff in Hd as [Hk Hd]. apply negb_true_iff in Hk.
    unfold Index.map_has in Hk.
    destruct (Index.map_get k m) eqn:Hkm; [discriminate|]. clear Hk.
    destruct (Py.eq v k) eqn:Hvk; simpl.
    + destruct (Py.eq w v) eqn:Hwv.
      * pose proof (py_eq_trans _ _ _ Hwv Hvk) as Hwk.
        destruct (Index.remove_first i b) eqn:Hb.
        -- rewrite (map_get_equal m k w Hwk). exact Hkm.
        -- simpl. rewrite Hwk. reflexivity.
      * assert (Py.eq w k = false) as Hwk.
        { destruct (Py.eq w k) eqn:E; [|reflexivity].
          rewrite py_eq_sym in Hvk.
          rewrite (py_eq_trans _ _ _ E Hvk) in Hwv. discriminate. }
        rewrite Hwk.
        destruct (Index.remove_first i b); simpl; rewrite ?Hwk; reflexivity.
    + destruct (Py.eq w k) eqn:Hwk.
      * destruct (Py.eq w v) eqn:Hwv; [|reflexivity].
        rewrite py_eq_sym in Hwv.
        rewrite (py_eq_trans _ _ _ Hwv Hwk) in Hvk. discriminate.
      * apply IH, Hd.
Qed.

(** X10.  [remove] followed by [lookup], on an index whose keys are
    pairwise unequal (as [build] and [add] make them): the lookup of
    every value equal to the removed one loses the first occurrence of
    the position, and every other lookup is as before. *)
Theorem remove_then_lookup (ix : Index.t) (v w : value) (row_idx : nat) :
  Index.keys_distinct (Index.index_map ix) = true ->
  is_None v = false ->
  Index.lookup (Index.remove ix v row_idx) w
  = if Py.eq w v then Index.remove_first row_idx (Index.lookup ix w)
    else Index.lookup ix w.
Proof.
  intros Hd Hv. unfold Index.remove, Index.lookup. rewrite Hv. simpl.
  rewrite (map_get_remove _ _ _ _ Hd).
  destruct (Py.eq w v) eqn:Hwv; [|reflexivity].
  rewrite (map_get_equal _ v w Hwv).
  destruct (Index.map_get v (Index.index_map ix)) as [b|]; simpl.
  - destruct (Index.remove_first row_idx b); reflexivity.
  - reflexivity.
Qed.

Lemma remove_then_lookup_witness :
  Index.lookup
    (Index.remove (Index.Build "people" "id" false [(VInt 5, [0; 2; 0])])
       (VBool true) 0) (VInt 5)
  = [0; 2; 0]
  /\ Index.lookup
       (Index.remove (Index.Build "people" "id" false [(VInt 5, [0; 2; 0])])
          (VInt 5) 0) (VInt 5)
     = [2; 0].
Proof.
  split.
  - exact (remove_then_lookup
             (Index.Build "people" "id" false [(VInt 5, [0; 2; 0])])
             (VBool true) (VInt 5) 0 eq_refl eq_refl).
  - exact (remove_then_lookup
             (Index.Build "people" "id" false [(VInt 5, [0; 2; 0])])
             (VInt 5) (VInt 5) 0 eq_refl eq_refl).
Defined.

Lemma keys_distinct_append (m : list (value * list nat)) (v : value)
    (i : nat) :
  Index.keys_distinct m = true ->
  Index.keys_distinct (Index.map_append v i m) = true.
Proof.
  induction m as [|[k b] m IH]; simpl; intros Hd; [reflexivity|].
  apply andb_true_iff in Hd as [Hk Hd].
  destruct (Py.eq v k) eqn:Hvk; simpl.
  - rewrite Hk, Hd. reflexivity.
  - rewrite map_has_append, (py_eq_sym k v), Hvk. simpl.
    rewrite Hk. apply IH, Hd.
Qed.

(** [build] makes an index whose keys are pairwise unequal. *)
Lemma build_from_keys_distinct (rows : list Row) :
  forall (ix : Index.t) (i : nat),
    Index.keys_distinct (Index.index_map ix) = true ->
    Index.keys_distinct (Index.index_map (fst (Index.build_from ix rows i)))
    = true.
Proof.
  induction rows as [|row rows IH]; intros ix i Hd; simpl; [exact Hd|].
  destruct (is_None (row_get (Index.column_name ix) row)) eqn:Hnone; simpl.
  - apply IH, Hd.
  - unfold Index.add. rewrite Hnone.
    destruct (Index.unique ix && _); [exact Hd|].
    apply IH. simpl. apply keys_distinct_append, Hd.
Qed.

Lemma remove_first_last (i : nat) (b : list nat) :
  ~ In i b -> Index.remove_first i (b ++ [i]) = b.
Proof.
  induction b as [|j b IH]; simpl; intros Hin.
  - rewrite Nat.eqb_refl. reflexivity.
  - destruct (Nat.eqb_spec i j) as [->|Hne]; [tauto|].
    rewrite IH by tauto. reflexivity.
Qed.

(** X11.  [remove] undoes [add]: after a position that the bucket of the
    value does not hold has been added and removed again, every lookup
    answers as before. *)
Theorem remove_undoes_add (ix ix' : Index.t) (v w : value) (row_idx : nat) :
  Index.keys_distinct (Index.index_map ix) = true ->
  is_None v = false ->
  ~ In row_idx (Index.lookup ix v) ->
  Index.add ix v row_idx = (ix', Ok tt) ->
  Index.lookup (Index.remove ix' v row_idx) w = Index.lookup ix w.
Proof.
  intros Hd Hv Hin Hadd.
  destruct (add_lookup ix ix' v row_idx Hv Hadd) as (Hl & _ & _).
  assert (Index.keys_distinct (Index.index_map ix') = true) as Hd'.
  { revert Hadd. unfold Index.add. rewrite Hv.
    destruct (Index.unique ix && _); [discriminate|].
    intros H. inversion H; subst. simpl. apply keys_distinct_append, Hd. }
  unfold Index.remove, Index.lookup. rewrite Hv. simpl.
  rewrite (map_get_remove _ _ _ _ Hd').
  destruct (Py.eq w v) eqn:Hwv.
  - pose proof (Hl v) as Hlv. unfold Index.lookup in Hlv.
    assert (Py.eq v v = true) as Hvv.
    { rewrite py_eq_sym in Hwv. apply (py_eq_trans _ _ _ Hwv).
      rewrite py_eq_sym. exact Hwv. }
    rewrite Hvv in Hlv.
    replace (default [] (Index.map_get v (Index.index_map ix')))
      with (match Index.map_get v (Index.index_map ix') with
            | Some b => b
            | None => []
            end)
      by (destruct (Index.map_get v (Index.index_map ix')); reflexivity).
    rewrite Hlv, remove_first_last by exact Hin.
    rewrite (map_get_equal _ v w Hwv).
    unfold Index.lookup in Hin.
    destruct (Index.map_get v (Index.index_map ix)) as [[|j b]|] eqn:E;
      reflexivity.
  - pose proof (Hl w) as Hlw. rewrite Hwv in Hlw. exact Hlw.
Qed.

Lemma remove_undoes_add_witness :
  Index.lookup
    (Index.remove
       (fst (Index.add (Index.Build "people" "id" false [(VInt 5, [0])])
               (VInt 5) 1))
       (VInt 5) 1) (VInt 5)
  = [0].
Proof.
  refine (remove_undoes_add
            (Index.Build "people" "id" false [(VInt 5, [0])]) _
            (VInt 5) (VInt 5) 1 eq_refl eq_refl _ eq_refl).
  simpl. intros [H|[]]. discriminate H.
Defined.

(** ** SELECT *)

Lemma unchanged_refl (s : State) : unchanged s s.
Proof. reflexivity. Qed.

Lemma unchanged_trans (s1 s2 s3 : State) :
  unchanged s1 s2 -> unchanged s2 s3 -> unchanged s1 s3.
Proof. unfold unchanged. congruence. Qed.

Ltac unchanged_step := preserves_step unchanged_refl unchanged_trans.

Lemma apply_join_unchanged (rows : list Row) (j : Join.t) (t : string) :
  preserves unchanged (_apply_join rows j t).
Proof. unfold _apply_join. repeat unchanged_step. Qed.

Lemma select_unchanged (columns : list string) (t : string)
    (w : option Where) (j : option Join.t) (o : option string)
    (limit : option Z) :
  preserves unchanged (_execute_select columns t w j o limit).
Proof.
  unfold _execute_select.
  repeat (first [apply apply_join_unchanged | unchanged_step]).
Qed.

(** X12.  A SELECT changes nothing: whatever it answers, and also when it
    fails, the engine is in the state it was in. *)
Theorem select_is_read_only (columns : list string) (table : string)
    (where_ : option Where) (join : option Join.t)
    (order_by : option string) (limit : option Z) (s : State) :
  fst (execute (SELECT columns table where_ join order_by limit) s) = s.
Proof.
  unfold execute. simpl dispatch.
  destruct (_execute_select columns table where_ join order_by limit s)
    as [s' r] eqn:E.
  apply select_unchanged in E. destruct r; exact E.
Qed.

Lemma filter_rows_filter {A} (f : A -> result bool) (rows kept : list A) :
  filter_rows f rows = Ok kept ->
  kept = List.filter (fun r => match f r with Ok b => b | Raise _ => false end)
                rows
  /\ Forall (fun r => exists b, f r = Ok b) rows.
Proof.
  revert kept. induction rows as [|r rows IH]; simpl; intros kept H.
  - inversion H. split; [reflexivity|constructor].
  - destruct (f r) as [b|e] eqn:Hf; [|discriminate].
    destruct (filter_rows f rows) as [kept'|e]; [|discriminate].
    destruct (IH kept' eq_refl) as [-> Hall].
    inversion H; subst; clear H.
    split; [|constructor; eauto].
    simpl. rewrite ?Hf. reflexivity.
Qed.

Lemma slice_to_sublist {A} (n : Z) (rows : list A) :
  slice_to n rows `sublist_of` rows.
Proof.
  unfold slice_to. destruct (0 <=? n)%Z; apply sublist_take.
Qed.

Lemma order_and_limit_submseteq (order_by : option string)
    (limit : option Z) (rows : list Row) :
  order_and_limit order_by limit rows ⊆+ rows
  /\ (opt_int_truthy limit = false ->
      order_and_limit order_by limit rows ≡ₚ rows).
Proof.
  unfold order_and_limit.
  set (sorted := match order_by with
                 | Some col => if str_truthy col then sort_rows col rows
                               else rows
                 | None => rows
                 end).
  assert (sorted ≡ₚ rows) as Hs.
  { subst sorted. destruct order_by as [col|]; [|reflexivity].
    destruct (str_truthy col); [apply sort_rows_permutation|reflexivity]. }
  destruct (opt_int_truthy limit).
  - split; [|discriminate]. rewrite <- Hs.
    apply sublist_submseteq, slice_to_sublist.
  - split; [rewrite Hs; reflexivity|intros _; exact Hs].
Qed.

(** X13.  The rows [SELECT *] answers with, without a JOIN: each is a
    stored row of the table on which the WHERE clause is true, answered no
    more often than it is stored; without a LIMIT they are all of those
    rows.  ORDER BY only rearranges them. *)
Theorem select_star_answers_stored_rows (table : string)
    (where_ : option Where) (order_by : option string) (limit : option Z)
    (s : State) (stored rows : list Row) :
  table_rows s table = Some stored ->
  Envelope.data
    (snd (execute (SELECT ["*"] table where_ None order_by limit) s))
  = Some rows ->
  let matching :=
    match where_ with
    | Some w => List.filter (holds w) stored
    | None => stored
    end in
  rows ⊆+ matching
  /\ (opt_int_truthy limit = false -> rows ≡ₚ matching).
Proof.
  intros Hstored Hdata. simpl.
  unfold table_rows in Hstored.
  destruct (StorageEngine.tables (storage s) !! table) as [locs|] eqn:Ht;
    [|discriminate].
  simpl in Hstored. injection Hstored as <-.
  revert Hdata.
  unfold execute, dispatch, _execute_select, bind, gets, get_all_rows,
    read_rows, StorageEngine.get_all_rows.
  destruct (SchemaManager.get_schema (schema_mgr s) table);
    [|simpl; discriminate].
  rewrite Ht. unfold gets.
  destruct where_ as [w|].
  - unfold lift.
    destruct (_apply_where (map (deref (heap_of s)) locs) w)
      as [kept|e] eqn:Hw; [|simpl; discriminate].
    apply filter_rows_filter in Hw as [-> _].
    unfold ret. simpl. intros H. injection H as <-.
    apply order_and_limit_submseteq.
  - unfold ret. simpl. intros H. injection H as <-.
    apply order_and_limit_submseteq.
Qed.

Lemma select_star_answers_stored_rows_witness :
  [person 1 "Ann"; person 2 "Bob"] ≡ₚ [person 1 "Ann"; person 2 "Bob"].
Proof.
  refine (proj2 (select_star_answers_stored_rows "people" None (Some "name")
                   None two_people [person 1 "Ann"; person 2 "Bob"]
                   [person 1 "Ann"; person 2 "Bob"] _ _) eq_refl).
  - vm_compute. reflexivity.
  - vm_compute. reflexivity.
Defined.

(** ** UPDATE *)

Lemma only_heap_refl (s : State) : only_heap s s.
Proof. repeat split. Qed.

Lemma only_heap_trans (s1 s2 s3 : State) :
  only_heap s1 s2 -> only_heap s2 s3 -> only_heap s1 s3.
Proof. intros (?&?&?) (?&?&?). repeat split; congruence. Qed.

(** The loop of UPDATE touches row objects only, and its working list
    keeps its length. *)
Lemma update_loop_result (schema : TableSchema.t) (w : option Where)
    (updates : dict value) (todo : list loc) :
  forall (i : nat) (rows : list loc) (n : nat) (s s' : State)
         (r : result (flow (list loc * nat))),
    update_loop schema w updates todo i rows n s = (s', r) ->
    only_heap s s'
    /\ (forall rows' n', r = Ok (Next (rows', n')) ->
                         length rows' = length rows)
    /\ (forall env, r = Ok (Return env) -> Envelope.success env = false).
Proof.
  induction todo as [|row todo IH]; intros i rows n s s' r; simpl.
  - unfold ret. intros H. inversion H; subst. split; [apply only_heap_refl|].
    split; [|intros env E; discriminate E].
    intros rows' n' E. inversion E. reflexivity.
  - unfold bind, gets, lift.
    destruct (matches w (deref (heap_of s) row)) as [[|]|e].
    + unfold assign_all.
      match goal with
      | |- context [TableSchema.validate_row schema ?c] =>
          destruct (TableSchema.validate_row schema c) as [validated|e]
      end.
      * unfold new_row, alloc. intros H. apply IH in H as (Hh & Hl & Hf).
        split; [|split; [|exact Hf]].
        -- eapply only_heap_trans; [|exact Hh]. repeat split.
        -- intros rows' n' E. rewrite (Hl _ _ E). apply length_insert.
      * destruct e; unfold ret, raise; intros H; inversion H; subst;
          (split; [repeat split|]);
          (split; [intros ? ? E; discriminate E|]);
          intros env E; inversion E; reflexivity.
    + intros H. apply IH in H. exact H.
    + intros H. inversion H; subst.
      split; [apply only_heap_refl|].
      split; [intros ? ? E; discriminate E|intros ? E; discriminate E].
Qed.

Lemma row_counts_only_heap (s s' : State) :
  only_heap s s' -> row_counts s' = row_counts s.
Proof. intros (H & _). unfold row_counts. rewrite H. reflexivity. Qed.

Lemma save_and_rebuild_tables (t : string) (rows : list loc)
    (s s' : State) (r : result unit) :
  save_and_rebuild t rows s = (s', r) ->
  heap_of s' = heap_of s /\ schema_mgr s' = schema_mgr s
  /\ StorageEngine.tables (storage s')
     = match StorageEngine.tables (storage s) !! t with
       | Some _ => <[t := rows]> (StorageEngine.tables (storage s))
       | None => StorageEngine.tables (storage s)
       end.
Proof.
  unfold save_and_rebuild, bind, on_storage, StorageEngine.update_rows,
    read_rows, gets, on_index_mgr.
  destruct (StorageEngine.tables (storage s) !! t) as [old|] eqn:Ht.
  - simpl.
    match goal with
    | |- context [IndexManager.rebuild_indexes ?m ?t ?c] =>
        destruct (IndexManager.rebuild_indexes m t c) as [m' x]
    end.
    intros H. inversion H; subst; clear H. simpl.
    rewrite save_keeps_tables. auto.
  - intros H. inversion H; subst; clear H. auto.
Qed.

(** X14.  An UPDATE adds no row and removes none: whatever it answers,
    every table has as many rows as before. *)
Theorem update_keeps_row_counts (table : string) (updates : dict value)
    (where_ : option Where) (s : State) :
  row_counts (fst (execute (UPDATE table updates where_) s)) = row_counts s.
Proof.
  unfold execute. simpl dispatch.
  destruct (_execute_update table updates where_ s) as [s' r] eqn:E.
  assert (row_counts s' = row_counts s) as H; [|destruct r; exact H].
  revert E. unfold _execute_update, bind, gets, get_all_rows,
    StorageEngine.get_all_rows.
  destruct (SchemaManager.get_schema (schema_mgr s) table) as [schema|];
    [|unfold ret; intros E; inversion E; reflexivity].
  destruct (StorageEngine.tables (storage s) !! table) as [rows|] eqn:Ht;
    [|intros E; inversion E; reflexivity].
  destruct (update_loop schema where_ updates rows 0 rows 0 s)
    as [s1 out] eqn:Hloop.
  apply update_loop_result in Hloop as (Hheap & Hlen & _).
  destruct out as [[[rows' n']|env]|e].
  - destruct (save_and_rebuild table rows' s1) as [s2 x] eqn:Hsave.
    apply save_and_rebuild_tables in Hsave as (_ & _ & Htables).
    destruct Hheap as (Hst & _). rewrite Hst, Ht in Htables.
    intros E.
    assert (s' = s2) as -> by (destruct x; inversion E; reflexivity).
    unfold row_counts. rewrite Htables, fmap_insert.
    apply insert_id. rewrite lookup_fmap, Ht. simpl.
    f_equal. symmetry. apply (Hlen rows' n' eq_refl).
  - unfold ret. intros E. inversion E; subst.
    apply row_counts_only_heap, Hheap.
  - intros E. inversion E; subst. apply row_counts_only_heap, Hheap.
Qed.

(** ** DELETE *)

Lemma keep_unmatched_filter (w : Where) (locs kept : list loc) (h : heap) :
  filter_rows
    (fun row =>
       match _row_matches_where (deref h row) w with
       | Ok b => Ok (negb b)
       | Raise e => Raise e
       end) locs = Ok kept ->
  map (deref h) kept
  = List.filter (fun r => negb (holds w r)) (map (deref h) locs)
  /\ Forall (fun r => _row_matches_where r w = Ok false)
            (map (deref h) kept).
Proof.
  revert kept. induction locs as [|l locs IH]; simpl; intros kept H.
  - inversion H. split; [reflexivity|constructor].
  - unfold holds at 1.
    destruct (_row_matches_where (deref h l) w) as [b|e] eqn:Hm;
      [|discriminate].
    destruct (filter_rows _ locs) as [kept'|e]; [|discriminate].
    destruct (IH kept' eq_refl) as [IH1 IH2].
    inversion H; subst; clear H.
    destruct b; simpl; [auto|]. rewrite IH1. split; [reflexivity|].
    constructor; [exact Hm|]. rewrite <- IH1. exact IH2.
Qed.

Lemma table_rows_insert (s s' : State) (t : string) (locs : list loc) :
  heap_of s' = heap_of s ->
  StorageEngine.tables (storage s')
  = <[t := locs]> (StorageEngine.tables (storage s)) ->
  table_rows s' t = Some (map (deref (heap_of s)) locs)
  /\ forall t', t' <> t -> table_rows s' t' = table_rows s t'.
Proof.
  intros Hh Ht. unfold table_rows. rewrite Hh, Ht. split.
  - rewrite lookup_insert_eq. reflexivity.
  - intros t' Hne. rewrite lookup_insert_ne by congruence. reflexivity.
Qed.

(** What a DELETE that reports success has done. *)
Lemma delete_outcome (t : string) (where_ : option Where) (s s' : State)
    (env : Envelope.t) (stored : list Row) :
  execute (DELETE t where_) s = (s', env) ->
  Envelope.success env = true ->
  table_rows s t = Some stored ->
  let kept :=
    match where_ with
    | Some w => List.filter (fun r => negb (holds w r)) stored
    | None => []
    end in
  table_rows s' t = Some kept
  /\ (forall t', t' <> t -> table_rows s' t' = table_rows s t')
  /\ schema_mgr s' = schema_mgr s
  /\ is_Some (schema_mgr s !! t)
  /\ Envelope.message env
     = "Deleted " +:+ str_of_nat (length stored - length kept) +:+ " row(s)"
  /\ match where_ with
     | Some w => Forall (fun r => _row_matches_where r w = Ok false) kept
     | None => True
     end.
Proof.
  intros Hexec Hok Hstored. simpl.
  unfold table_rows in Hstored.
  destruct (StorageEngine.tables (storage s) !! t) as [locs|] eqn:Ht;
    [|discriminate].
  simpl in Hstored. injection Hstored as <-.
  revert Hexec.
  unfold execute, dispatch, _execute_delete, bind, gets, get_all_rows,
    StorageEngine.get_all_rows, SchemaManager.get_schema.
  destruct (schema_mgr s !! t) as [schema|] eqn:Hs;
    [|unfold ret, no_table; intros H; inversion H; subst; discriminate].
  rewrite Ht.
  assert (forall kept : list loc,
            (let '(s1, r) := save_and_rebuild t kept s in
             match r with
             | Ok _ =>
                 (s1, succeeded ("Deleted "
                        +:+ str_of_nat (length locs - length kept)
                        +:+ " row(s)"))
             | Raise e => (s1, failed ("Error: " +:+ str_exn e))
             end) = (s', env) ->
            table_rows s' t = Some (map (deref (heap_of s)) kept)
            /\ (forall t', t' <> t -> table_rows s' t' = table_rows s t')
            /\ schema_mgr s' = schema_mgr s
            /\ Envelope.message env
               = "Deleted " +:+ str_of_nat (length locs - length kept)
                   +:+ " row(s)") as Hend.
  { intros kept.
    destruct (save_and_rebuild t kept s) as [s1 r] eqn:Hsave.
    apply save_and_rebuild_tables in Hsave as (Hh & Hsch & Htab).
    rewrite Ht in Htab.
    destruct r as [[]|e]; intros H; inversion H; subst;
      [|discriminate].
    destruct (table_rows_insert s s' t kept Hh Htab) as [H1 H2].
    auto. }
  destruct where_ as [w|].
  - unfold keep_unmatched.
    destruct (filter_rows _ locs) as [kept|e] eqn:Hkept;
      [|intros H; inversion H; subst; discriminate].
    apply keep_unmatched_filter in Hkept as [Hk1 Hk2].
    intros H.
    destruct (Hend kept) as (H1 & H2 & H3 & H4).
    { destruct (save_and_rebuild t kept s) as [s1 [[]|e]];
        unfold ret in H; exact H. }
    rewrite <- Hk1, !length_map. eauto 10.
  - unfold ret at 1. intros H.
    destruct (Hend []) as (H1 & H2 & H3 & H4).
    { destruct (save_and_rebuild t [] s) as [s1 [[]|e]];
        unfold ret in H; exact H. }
    rewrite length_map. eauto 10.
Qed.

(** X15.  A DELETE that reports success has removed from the table the
    rows on which its WHERE clause is true (every row, without a WHERE
    clause) and kept the others in their order; it reports the number of
    removed rows and leaves every other table and the catalog as they
    were. *)
Theorem delete_removes_the_matching_rows (t : string)
    (where_ : option Where) (s s' : State) (env : Envelope.t)
    (stored : list Row) :
  execute (DELETE t where_) s = (s', env) ->
  Envelope.success env = true ->
  table_rows s t = Some stored ->
  let kept :=
    match where_ with
    | Some w => List.filter (fun r => negb (holds w r)) stored
    | None => []
    end in
  table_rows s' t = Some kept
  /\ (forall t', t' <> t -> table_rows s' t' = table_rows s t')
  /\ schema_mgr s' = schema_mgr s
  /\ Envelope.message env
     = "Deleted " +:+ str_of_nat (length stored - length kept)
         +:+ " row(s)".
Proof.
  intros Hexec Hok Hstored.
  destruct (delete_outcome t where_ s s' env stored Hexec Hok Hstored)
    as (H1 & H2 & H3 & _ & H4 & _).
  auto.
Qed.

Lemma delete_removes_the_matching_rows_witness :
  table_rows
    (fst (execute (DELETE "people" (Some (Cond "id" ">" (VInt 1))))
            two_people)) "people"
  = Some [person 1 "Ann"].
Proof.
  refine (proj1 (delete_removes_the_matching_rows "people"
                   (Some (Cond "id" ">" (VInt 1))) two_people _ _
                   [person 1 "Ann"; person 2 "Bob"] _ _ _)).
  - apply surjective_pairing.
  - vm_compute. reflexivity.
  - vm_compute. reflexivity.
Defined.

Lemma apply_where_none_match (w : Where) (rows : list Row) :
  Forall (fun r => _row_matches_where r w = Ok false) rows ->
  _apply_where rows w = Ok [].
Proof.
  unfold _apply_where. induction 1 as [|r rows Hr _ IH]; simpl;
    [reflexivity|].
  rewrite Hr, IH. reflexivity.
Qed.

(** X16.  After a DELETE with a WHERE clause has reported success, a
    SELECT with the same WHERE clause on that table finds no row. *)
Theorem select_after_delete_finds_nothing (t : string) (w : Where)
    (columns : list string) (order_by : option string) (limit : option Z)
    (s s' : State) (env : Envelope.t) :
  execute (DELETE t (Some w)) s = (s', env) ->
  Envelope.success env = true ->
  Envelope.data
    (snd (execute (SELECT columns t (Some w) None order_by limit) s'))
  = Some [].
Proof.
  intros Hexec Hok.
  destruct (table_rows s t) as [stored|] eqn:Hstored.
  - destruct (delete_outcome t (Some w) s s' env stored Hexec Hok Hstored)
      as (H1 & _ & H3 & [schema H4] & _ & H5).
    unfold table_rows in H1.
    destruct (StorageEngine.tables (storage s') !! t) as [locs|] eqn:Ht;
      [|discriminate].
    simpl in H1. injection H1 as H1.
    unfold execute, dispatch, _execute_select, bind, gets, get_all_rows,
      read_rows, StorageEngine.get_all_rows, SchemaManager.get_schema.
    rewrite H3, H4, Ht. unfold gets, lift. rewrite H1.
    rewrite (apply_where_none_match w _ H5). unfold ret. simpl.
    destruct (is_star columns); simpl; rewrite order_and_limit_nil;
      reflexivity.
  - exfalso. revert Hexec. unfold table_rows in Hstored.
    destruct (StorageEngine.tables (storage s) !! t) eqn:Ht; [discriminate|].
    unfold execute, dispatch, _execute_delete, bind, gets, get_all_rows,
      StorageEngine.get_all_rows.
    destruct (SchemaManager.get_schema (schema_mgr s) t);
      rewrite ?Ht; unfold ret, no_table; intros H; inversion H; subst;
      discriminate.
Qed.

Lemma select_after_delete_finds_nothing_witness :
  Envelope.data
    (snd (execute (SELECT ["name"] "people" (Some (Cond "id" ">" (VInt 1)))
                     None None None)
            (fst (execute (DELETE "people" (Some (Cond "id" ">" (VInt 1))))
                    two_people))))
  = Some [].
Proof.
  refine (select_after_delete_finds_nothing "people" (Cond "id" ">" (VInt 1))
            ["name"] None None two_people _ _ _ _).
  - apply surjective_pairing.
  - vm_compute. reflexivity.
Defined.

(** ** INSERT *)

Lemma map_deref_app_old (h h' : heap) (locs : list loc) :
  Forall (fun l => l < length h) locs ->
  map (deref (h ++ h')) locs = map (deref h) locs.
Proof.
  induction 1 as [|l locs Hl _ IH]; simpl; [reflexivity|].
  rewrite deref_app_old by exact Hl. rewrite IH. reflexivity.
Qed.

Lemma deref_alloc (h : heap) (r : Row) : deref (h ++ [r]) (length h) = r.
Proof.
  unfold deref. rewrite nth_error_app2 by lia.
  rewrite Nat.sub_diag. reflexivity.
Qed.

Lemma build_row_return (schema : TableSchema.t)
    (columns : option (list string)) (values : list value)
    (env : Envelope.t) :
  build_row schema columns values = Return env ->
  Envelope.success env = false.
Proof.
  unfold build_row. destruct columns as [[|c cs]|];
    match goal with
    | |- context [if ?b then _ else _] => destruct b
    end; intros H; inversion H; reflexivity.
Qed.

Lemma check_unique_columns_return (indexes : IndexManager.t) (t : string)
    (row : Row) (cols : list string) (env : Envelope.t) :
  check_unique_columns indexes t row cols = Return env ->
  Envelope.success env = false.
Proof.
  induction cols as [|c cols IH]; simpl; [discriminate|].
  destruct (IndexManager.get_index indexes t c); [|exact IH].
  destruct (negb (is_None (row_get c row)) && _); [|exact IH].
  intros H. inversion H. reflexivity.
Qed.

Lemma check_primary_key_return (indexes : IndexManager.t) (t : string)
    (row : Row) (pk : option string) (env : Envelope.t) :
  check_primary_key indexes t row pk = Return env ->
  Envelope.success env = false.
Proof.
  unfold check_primary_key. destruct pk as [pk|]; [|discriminate].
  destruct (str_truthy pk); [|discriminate].
  destruct (IndexManager.get_index indexes t pk); [|discriminate].
  destruct (negb (is_None (row_get pk row)) && _); [|discriminate].
  intros H. inversion H. reflexivity.
Qed.

(** What an INSERT that reports success has done to the engine. *)
Lemma insert_outcome (t : string) (columns : option (list string))
    (values : list value) (s s' : State) (env : Envelope.t) :
  execute (INSERT t columns values) s = (s', env) ->
  Envelope.success env = true ->
  exists (schema : TableSchema.t) (row validated : Row) (locs : list loc),
    schema_mgr s !! t = Some schema
    /\ build_row schema columns values = Next row
    /\ TableSchema.validate_row schema row = Ok validated
    /\ check_unique_columns (index_mgr s) t validated
         (TableSchema.unique_constraints schema) = Next tt
    /\ check_primary_key (index_mgr s) t validated
         (TableSchema.primary_key schema) = Next tt
    /\ StorageEngine.tables (storage s) !! t = Some locs
    /\ heap_of s' = heap_of s ++ [validated]
    /\ StorageEngine.tables (storage s')
       = <[t := locs ++ [length (heap_of s)]]>
           (StorageEngine.tables (storage s))
    /\ schema_mgr s' = schema_mgr s
    /\ update_indexes t validated (length locs) s
       = (with_index_mgr s (index_mgr s'), Ok tt).
Proof.
  unfold execute, dispatch, _execute_insert, bind, gets,
    SchemaManager.get_schema.
  destruct (schema_mgr s !! t) as [schema|] eqn:Hs;
    [|unfold ret, no_table; intros H; inversion H; subst; discriminate].
  destruct (build_row schema columns values) as [row|env0] eqn:Hrow.
  2: { apply build_row_return in Hrow. unfold ret. intros H.
       inversion H; subst. congruence. }
  destruct (TableSchema.validate_row schema row) as [validated|e] eqn:Hv.
  2: { destruct e; unfold ret, raise; intros H; inversion H; subst;
       discriminate. }
  destruct (check_unique_columns (index_mgr s) t validated
              (TableSchema.unique_constraints schema)) as [[]|env0] eqn:Hu.
  2: { apply check_unique_columns_return in Hu. unfold ret. intros H.
       inversion H; subst. congruence. }
  destruct (check_primary_key (index_mgr s) t validated
              (TableSchema.primary_key schema)) as [[]|env0] eqn:Hp.
  2: { apply check_primary_key_return in Hp. unfold ret. intros H.
       inversion H; subst. congruence. }
  unfold new_row, alloc, on_storage, StorageEngine.insert_row,
    get_all_rows, StorageEngine.get_all_rows. simpl.
  destruct (StorageEngine.tables (storage s) !! t) as [locs|] eqn:Ht.
  2: { intros H. inversion H; subst. discriminate. }
  simpl. rewrite save_keeps_tables. simpl. rewrite lookup_insert_eq.
  rewrite length_app. simpl.
  replace (length locs + 1 - 1) with (length locs) by lia.
  unfold update_indexes, on_index_mgr. simpl.
  destruct (index_mgr s !! t) as [ixs|] eqn:Hi.
  - match goal with
    | |- context [add_to_each ?a ?b ?c] =>
        destruct (add_to_each a b c) as [ixs' [[]|e]] eqn:Hadd
    end;
      unfold ret; intros H Hok; inversion H; subst; [|discriminate].
    exists schema, row, validated, locs. simpl.
    rewrite save_keeps_tables. simpl. repeat split; auto.
    match goal with
    | |- context [add_to_each ?a ?b ?c] =>
        replace (add_to_each a b c) with (ixs', @Ok unit tt)
          by (symmetry; exact Hadd)
    end.
    reflexivity.
  - unfold ret. intros H Hok. inversion H; subst.
    exists schema, row, validated, locs. simpl.
    rewrite save_keeps_tables. simpl. repeat split; auto.
Qed.

Lemma heap_ok_lookup (s : State) (t : string) (locs : list loc) :
  heap_ok s -> StorageEngine.tables (storage s) !! t = Some locs ->
  Forall (fun l => l < length (heap_of s)) locs.
Proof. intros H Ht. exact (H t locs Ht). Qed.

(** The rows of the tables after an INSERT has reported success. *)
Lemma insert_rows (t : string) (columns : option (list string))
    (values : list value) (s s' : State) (env : Envelope.t)
    (stored : list Row) :
  heap_ok s ->
  execute (INSERT t columns values) s = (s', env) ->
  Envelope.success env = true ->
  table_rows s t = Some stored ->
  exists schema row validated,
    schema_mgr s !! t = Some schema
    /\ build_row schema columns values = Next row
    /\ TableSchema.validate_row schema row = Ok validated
    /\ table_rows s' t = Some (stored ++ [validated])
    /\ (forall t', t' <> t -> table_rows s' t' = table_rows s t')
    /\ schema_mgr s' = schema_mgr s
    /\ heap_ok s'
    /\ update_indexes t validated (length stored) s
       = (with_index_mgr s (index_mgr s'), Ok tt).
Proof.
  intros Hheap Hexec Hok Hstored.
  destruct (insert_outcome t columns values s s' env Hexec Hok)
    as (schema & row & validated & locs & Hs & Hrow & Hv & _ & _ & Ht
        & Hh & Htab & Hsch & Hix).
  exists schema, row, validated.
  unfold table_rows in Hstored. rewrite Ht in Hstored. simpl in Hstored.
  injection Hstored as <-.
  pose proof (heap_ok_lookup s t locs Hheap Ht) as Hlocs.
  rewrite length_map.
  repeat split; try assumption.
  - unfold table_rows. rewrite Htab, Hh, lookup_insert_eq. simpl.
    rewrite map_app, map_deref_app_old by exact Hlocs. simpl.
    rewrite deref_alloc. reflexivity.
  - intros t' Hne. unfold table_rows.
    rewrite Htab, Hh, lookup_insert_ne by congruence.
    destruct (StorageEngine.tables (storage s) !! t') as [locs'|] eqn:Ht';
      [|reflexivity].
    simpl. f_equal. apply map_deref_app_old.
    exact (heap_ok_lookup s t' locs' Hheap Ht').
  - unfold heap_ok. rewrite Htab, Hh. apply map_Forall_insert_2.
    + rewrite length_app. simpl. apply Forall_app. split.
      * eapply Forall_impl; [exact Hlocs|]. simpl. intros; lia.
      * constructor; [lia|constructor].
    + intros t' locs' Ht'. rewrite length_app.
      eapply Forall_impl; [exact (Hheap t' locs' Ht')|]. simpl. intros; lia.
Qed.

(** X17.  An INSERT that reports success has put one row at the end of
    the table: the row its values make, as the schema validates it; the
    rows before it, the other tables and the catalog are as they were.
    The tables are taken to refer to existing row objects, as they do in
    every state the engine reaches. *)
Theorem insert_appends_the_validated_row (t : string)
    (columns : option (list string)) (values : list value)
    (s s' : State) (env : Envelope.t) (stored : list Row) :
  heap_ok s ->
  execute (INSERT t columns values) s = (s', env) ->
  Envelope.success env = true ->
  table_rows s t = Some stored ->
  exists schema row validated,
    schema_mgr s !! t = Some schema
    /\ build_row schema columns values = Next row
    /\ TableSchema.validate_row schema row = Ok validated
    /\ table_rows s' t = Some (stored ++ [validated])
    /\ (forall t', t' <> t -> table_rows s' t' = table_rows s t')
    /\ schema_mgr s' = schema_mgr s
    /\ heap_ok s'.
Proof.
  intros Hheap Hexec Hok Hstored.
  destruct (insert_rows t columns values s s' env stored Hheap Hexec Hok
              Hstored)
    as (schema & row & validated & H1 & H2 & H3 & H4 & H5 & H6 & H7 & _).
  exists schema, row, validated. auto 10.
Qed.

Lemma insert_appends_the_validated_row_witness :
  exists schema row validated,
    schema_mgr two_people !! "people" = Some schema
    /\ build_row schema None [VFloat three_and_a_half; VStr "Cy"] = Next row
    /\ TableSchema.validate_row schema row = Ok validated
    /\ table_rows
         (fst (execute (INSERT "people" None
                          [VFloat three_and_a_half; VStr "Cy"]) two_people))
         "people"
       = Some ([person 1 "Ann"; person 2 "Bob"] ++ [validated])
    /\ (forall t', t' <> "people" ->
          table_rows
            (fst (execute (INSERT "people" None
                             [VFloat three_and_a_half; VStr "Cy"])
                    two_people)) t'
          = table_rows two_people t')
    /\ schema_mgr
         (fst (execute (INSERT "people" None
                          [VFloat three_and_a_half; VStr "Cy"]) two_people))
       = schema_mgr two_people
    /\ heap_ok
         (fst (execute (INSERT "people" None
                          [VFloat three_and_a_half; VStr "Cy"]) two_people)).
Proof.
  refine (insert_appends_the_validated_row "people" None
            [VFloat three_and_a_half; VStr "Cy"] two_people _ _
            [person 1 "Ann"; person 2 "Bob"] _ _ _ _).
  - apply map_Forall_to_list. vm_compute.
    repeat constructor.
  - apply surjective_pairing.
  - vm_compute. reflexivity.
  - vm_compute. reflexivity.
Defined.

(** ** CREATE TABLE *)

(** X18.  CREATE TABLE on a name the catalog already holds is rejected,
    and nothing changes: the schema, the rows and the indexes of the
    table stay. *)
Theorem create_existing_table_is_rejected (t : string)
    (infos : list ColInfo.t) (pk : option string) (uq : list string)
    (s : State) :
  is_Some (schema_mgr s !! t) ->
  fst (execute (CREATE_TABLE t infos pk uq) s) = s
  /\ Envelope.success (snd (execute (CREATE_TABLE t infos pk uq) s)) = false.
Proof.
  intros [schema Hs]. unfold execute. simpl dispatch.
  destruct (_execute_create_table t infos pk uq s) as [s' r] eqn:E.
  apply create_table_outcome in E
    as [(-> & e & ->)|(schema' & Hnone & _)].
  - split; reflexivity.
  - congruence.
Qed.

Lemma create_existing_table_is_rejected_witness :
  fst (execute create_people two_people) = two_people
  /\ Envelope.success (snd (execute create_people two_people)) = false.
Proof.
  apply (create_existing_table_is_rejected "people").
  vm_compute. eauto.
Defined.

(** ** Saving and loading *)

Lemma save_to_disk_file (h : heap) (st : StorageEngine.t) :
  opt_str_truthy (StorageEngine.data_file st) = true ->
  StorageEngine.file (StorageEngine._save_to_disk h st)
  = Some (StorageEngine.dump h (StorageEngine.tables st)).
Proof.
  intros H. unfold StorageEngine._save_to_disk. rewrite H. reflexivity.
Qed.

Lemma save_to_disk_data_file (h : heap) (st : StorageEngine.t) :
  StorageEngine.data_file (StorageEngine._save_to_disk h st)
  = StorageEngine.data_file st.
Proof.
  unfold StorageEngine._save_to_disk.
  destruct (opt_str_truthy (StorageEngine.data_file st)); reflexivity.
Qed.

(** A method of the row store that returns has saved the tables. *)
Lemma on_storage_saved (f : heap -> StorageEngine.t ->
                            StorageEngine.t * result unit)
    (s s' : State) :
  (exists t, f = fun h st => StorageEngine.create_table h st t)
  \/ (exists t, f = fun h st => StorageEngine.drop_table h st t)
  \/ (exists t obj, f = fun h st => StorageEngine.insert_row h st t obj)
  \/ (exists t rows, f = fun h st => StorageEngine.update_rows h st t rows) ->
  opt_str_truthy (StorageEngine.data_file (storage s)) = true ->
  on_storage f s = (s', Ok tt) ->
  saved s' /\ heap_of s' = heap_of s
  /\ StorageEngine.data_file (storage s')
     = StorageEngine.data_file (storage s).
Proof.
  intros Hf Htruthy. unfold on_storage, saved, persisted.
  destruct Hf as [[t ->]|[[t ->]|[(t & obj & ->)|(t & rows & ->)]]];
    unfold StorageEngine.create_table, StorageEngine.drop_table,
      StorageEngine.insert_row, StorageEngine.update_rows;
    destruct (StorageEngine.tables (storage s) !! t);
    intros H; inversion H; subst; clear H; simpl;
    rewrite save_keeps_tables; simpl;
    (split; [rewrite save_to_disk_file by exact Htruthy; reflexivity|]);
    (split; [reflexivity|rewrite save_to_disk_data_file; reflexivity]).
Qed.

Lemma saved_only_indexes (s s' : State) :
  only_indexes s s' -> saved s -> saved s'.
Proof.
  intros (Hh & Hst & _). unfold saved, persisted. rewrite Hh, Hst. auto.
Qed.

Lemma save_and_rebuild_saved (t : string) (rows : list loc) (s s' : State) :
  opt_str_truthy (StorageEngine.data_file (storage s)) = true ->
  save_and_rebuild t rows s = (s', Ok tt) ->
  saved s'
  /\ StorageEngine.data_file (storage s')
     = StorageEngine.data_file (storage s).
Proof.
  intros Htruthy H. unfold save_and_rebuild in H.
  apply bind_inv in H as [(s1 & [] & H1 & H)|(e & _ & ?)]; [|discriminate].
  apply on_storage_saved in H1 as (Hsaved & _ & Hdf); [|eauto 10|exact Htruthy].
  apply bind_inv in H as [(s2 & contents & H2 & H)|(e & _ & ?)];
    [|discriminate].
  unfold read_rows, gets in H2. injection H2 as <- _.
  apply on_index_mgr_only_indexes in H. split.
  - eapply saved_only_indexes; eassumption.
  - destruct H as (_ & -> & _). exact Hdf.
Qed.

Lemma restart_of_saved (s : State) :
  opt_str_truthy (StorageEngine.data_file (storage s)) = true ->
  saved s ->
  forall t, table_rows (restart s) t = table_rows s t.
Proof.
  intros Htruthy Hsaved t. unfold restart. rewrite Hsaved.
  destruct (StorageEngine.data_file (storage s)) as [path|];
    [|discriminate].
  simpl in Htruthy.
  destruct (start_on_snapshot path
              (StorageEngine.dump (heap_of s)
                 (StorageEngine.tables (storage s))) Htruthy)
    as (_ & _ & H).
  rewrite H. unfold StorageEngine.dump, table_rows.
  apply lookup_fmap.
Qed.

Lemma create_table_saved (t : string) (infos : list ColInfo.t)
    (pk : option string) (uq : list string) (s s' : State)
    (env : Envelope.t) :
  opt_str_truthy (StorageEngine.data_file (storage s)) = true ->
  _execute_create_table t infos pk uq s = (s', Ok env) ->
  saved s'
  /\ StorageEngine.data_file (storage s')
     = StorageEngine.data_file (storage s).
Proof.
  intros Htruthy H. unfold _execute_create_table in H.
  apply bind_inv in H as [(s1 & columns & H1 & H)|(e & _ & ?)];
    [|discriminate].
  unfold lift in H1. injection H1 as <- _.
  apply bind_inv in H as [(s1 & schema & H1 & H)|(e & _ & ?)];
    [|discriminate].
  unfold on_schema_mgr in H1.
  destruct (SchemaManager.create_table_schema _ _ _ _ _) as [m x].
  injection H1 as <- _.
  apply bind_inv in H as [(s2 & [] & H2 & H)|(e & _ & ?)]; [|discriminate].
  apply on_storage_saved in H2 as (Hsaved & _ & Hdf);
    [|eauto 10|exact Htruthy].
  apply bind_inv in H as [(s3 & [] & H3 & H)|(e & _ & ?)]; [|discriminate].
  apply create_indexes_only_indexes in H3.
  inversion H; subst; clear H. split.
  - eapply saved_only_indexes; eassumption.
  - destruct H3 as (_ & -> & _). exact Hdf.
Qed.

Lemma drop_table_saved (t : string) (s s' : State) (env : Envelope.t) :
  opt_str_truthy (StorageEngine.data_file (storage s)) = true ->
  _execute_drop_table t s = (s', Ok env) ->
  Envelope.success env = true ->
  saved s'
  /\ StorageEngine.data_file (storage s')
     = StorageEngine.data_file (storage s).
Proof.
  intros Htruthy H Hok. unfold _execute_drop_table in H.
  apply bind_inv in H as [(s1 & b & H1 & H)|(e & _ & ?)]; [|discriminate].
  unfold gets in H1. injection H1 as <- <-.
  destruct (negb _); [inversion H; subst; discriminate|].
  apply bind_inv in H as [(s1 & [] & H1 & H)|(e & _ & ?)]; [|discriminate].
  unfold on_schema_mgr in H1. injection H1 as <-.
  apply bind_inv in H as [(s2 & [] & H2 & H)|(e & _ & ?)]; [|discriminate].
  apply on_storage_saved in H2 as (Hsaved & _ & Hdf);
    [|eauto 10|exact Htruthy].
  apply bind_inv in H as [(s3 & [] & H3 & H)|(e & _ & ?)]; [|discriminate].
  apply on_index_mgr_only_indexes in H3.
  inversion H; subst; clear H. split.
  - eapply saved_only_indexes; eassumption.
  - destruct H3 as (_ & -> & _). exact Hdf.
Qed.

Lemma insert_saved (t : string) (columns : option (list string))
    (values : list value) (s s' : State) (env : Envelope.t) :
  opt_str_truthy (StorageEngine.data_file (storage s)) = true ->
  _execute_insert t columns values s = (s', Ok env) ->
  Envelope.success env = true ->
  saved s'
  /\ StorageEngine.data_file (storage s')
     = StorageEngine.data_file (storage s).
Proof.
  intros Htruthy H Hok. unfold _execute_insert in H.
  apply bind_inv in H as [(s1 & schema & H1 & H)|(e & _ & ?)];
    [|discriminate].
  unfold gets in H1. injection H1 as <- <-.
  destruct (SchemaManager.get_schema (schema_mgr s) t) as [schema|];
    [|inversion H; subst; discriminate].
  destruct (build_row schema columns values) as [row|env0] eqn:Hrow.
  2: { apply build_row_return in Hrow. inversion H; subst. congruence. }
  destruct (TableSchema.validate_row schema row) as [validated|e].
  2: { destruct e; inversion H; subst; discriminate. }
  apply bind_inv in H as [(s1 & indexes & H1 & H)|(e & _ & ?)];
    [|discriminate].
  unfold gets in H1. injection H1 as <- <-.
  destruct (check_unique_columns _ _ _ _) as [[]|env0] eqn:Hu.
  2: { apply check_unique_columns_return in Hu. inversion H; subst.
       congruence. }
  destruct (check_primary_key _ _ _ _) as [[]|env0] eqn:Hp.
  2: { apply check_primary_key_return in Hp. inversion H; subst.
       congruence. }
  apply bind_inv in H as [(s1 & obj & H1 & H)|(e & _ & ?)]; [|discriminate].
  unfold new_row, alloc in H1. injection H1 as <- <-.
  apply bind_inv in H as [(s2 & [] & H2 & H)|(e & _ & ?)]; [|discriminate].
  apply on_storage_saved in H2 as (Hsaved & _ & Hdf);
    [|eauto 10|exact Htruthy].
  apply bind_inv in H as [(s3 & rows & H3 & H)|(e & _ & ?)]; [|discriminate].
  unfold get_all_rows in H3. injection H3 as <- _.
  apply bind_inv in H as [(s4 & [] & H4 & H)|(e & _ & ?)]; [|discriminate].
  unfold update_indexes in H4. apply on_index_mgr_only_indexes in H4.
  inversion H; subst; clear H. split.
  - eapply saved_only_indexes; eassumption.
  - destruct H4 as (_ & -> & _). exact Hdf.
Qed.

Lemma update_saved (t : string) (updates : dict value)
    (where_ : option Where) (s s' : State) (env : Envelope.t) :
  opt_str_truthy (StorageEngine.data_file (storage s)) = true ->
  _execute_update t updates where_ s = (s', Ok env) ->
  Envelope.success env = true ->
  saved s'
  /\ StorageEngine.data_file (storage s')
     = StorageEngine.data_file (storage s).
Proof.
  intros Htruthy H Hok. unfold _execute_update in H.
  apply bind_inv in H as [(s1 & schema & H1 & H)|(e & _ & ?)];
    [|discriminate].
  unfold gets in H1. injection H1 as <- <-.
  destruct (SchemaManager.get_schema (schema_mgr s) t) as [schema|];
    [|inversion H; subst; discriminate].
  apply bind_inv in H as [(s1 & rows & H1 & H)|(e & _ & ?)]; [|discriminate].
  unfold get_all_rows in H1. injection H1 as <- _.
  apply bind_inv in H as [(s1 & out & H1 & H)|(e & _ & ?)]; [|discriminate].
  apply update_loop_result in H1 as ((Hst & _) & _ & Hfail).
  destruct out as [[rows' n]|env0].
  - apply bind_inv in H as [(s2 & [] & H2 & H)|(e & _ & ?)]; [|discriminate].
    apply save_and_rebuild_saved in H2 as [Hsaved Hdf];
      [|rewrite Hst; exact Htruthy].
    inversion H; subst; clear H. rewrite <- Hst. auto.
  - inversion H; subst. rewrite (Hfail env eq_refl) in Hok. discriminate.
Qed.

Lemma delete_saved (t : string) (where_ : option Where) (s s' : State)
    (env : Envelope.t) :
  opt_str_truthy (StorageEngine.data_file (storage s)) = true ->
  _execute_delete t where_ s = (s', Ok env) ->
  Envelope.success env = true ->
  saved s'
  /\ StorageEngine.data_file (storage s')
     = StorageEngine.data_file (storage s).
Proof.
  intros Htruthy H Hok. unfold _execute_delete in H.
  apply bind_inv in H as [(s1 & schema & H1 & H)|(e & _ & ?)];
    [|discriminate].
  unfold gets in H1. injection H1 as <- <-.
  destruct (SchemaManager.get_schema (schema_mgr s) t) as [schema|];
    [|inversion H; subst; discriminate].
  apply bind_inv in H as [(s1 & rows & H1 & H)|(e & _ & ?)]; [|discriminate].
  unfold get_all_rows in H1. injection H1 as <- _.
  apply bind_inv in H as [(s1 & kept & H1 & H)|(e & _ & ?)]; [|discriminate].
  assert (s1 = s) as ->.
  { destruct where_ as [w|]; [unfold keep_unmatched in H1|unfold ret in H1];
      injection H1 as <- _; reflexivity. }
  apply bind_inv in H as [(s2 & [] & H2 & H)|(e & _ & ?)]; [|discriminate].
  apply save_and_rebuild_saved in H2 as [Hsaved Hdf]; [|exact Htruthy].
  inversion H; subst; clear H. auto.
Qed.

(** X19.  With a data file configured, the rows survive a restart: after
    a CREATE TABLE, DROP TABLE, INSERT, UPDATE or DELETE has reported
    success, an engine started on the data file holds, in every table, the
    rows the running engine holds. *)
Theorem restart_recovers_the_rows (c : Command) (s s' : State)
    (env : Envelope.t) :
  opt_str_truthy (StorageEngine.data_file (storage s)) = true ->
  writes c = true ->
  execute c s = (s', env) ->
  Envelope.success env = true ->
  forall t, table_rows (restart s') t = table_rows s' t.
Proof.
  intros Htruthy Hw Hexec Hok.
  assert (saved s'
          /\ StorageEngine.data_file (storage s')
             = StorageEngine.data_file (storage s)) as [Hsaved Hdf].
  { unfold execute in Hexec.
    destruct (dispatch c s) as [s1 [env1|e]] eqn:Hd;
      inversion Hexec; subst; clear Hexec; [|discriminate].
    destruct c; simpl in Hd; try discriminate.
    - eapply create_table_saved; eassumption.
    - eapply drop_table_saved; eassumption.
    - eapply insert_saved; eassumption.
    - eapply update_saved; eassumption.
    - eapply delete_saved; eassumption. }
  apply restart_of_saved; [rewrite Hdf; exact Htruthy|exact Hsaved].
Qed.

Lemma restart_recovers_the_rows_witness :
  table_rows (restart (fst (execute (insert_person 3 "Cy") two_people)))
    "people"
  = table_rows (fst (execute (insert_person 3 "Cy") two_people)) "people".
Proof.
  refine (restart_recovers_the_rows (insert_person 3 "Cy") two_people _ _
            _ _ _ _ "people").
  - vm_compute. reflexivity.
  - reflexivity.
  - apply surjective_pairing.
  - vm_compute. reflexivity.
Defined.

(** ** Indexes and the rows of a table *)

Lemma positions_from_hit (c : string) (v : value) (rows : list Row) :
  forall (i : nat) (r : Row),
    In r rows -> is_None (row_get c r) = false ->
    Py.eq v (row_get c r) = true ->
    positions_from c v rows i <> [].
Proof.
  induction rows as [|row rows IH]; intros i r Hin Hnone Heq; simpl;
    [destruct Hin|].
  destruct Hin as [->|Hin].
  - rewrite Hnone, Heq. simpl. discriminate.
  - intros H. apply app_eq_nil in H as [_ H]. exact (IH _ _ Hin Hnone Heq H).
Qed.

(** X20.  INSERT enforces the primary key: when the index of the primary
    key agrees with the table, a row whose primary key value equals that
    of a stored row is rejected, and nothing changes. *)
Theorem insert_rejects_a_duplicate_primary_key (t pk : string)
    (columns : option (list string)) (values : list value) (s : State)
    (schema : TableSchema.t) (row validated stored : Row) :
  schema_mgr s !! t = Some schema ->
  TableSchema.primary_key schema = Some pk ->
  str_truthy pk = true ->
  index_agrees s t pk ->
  build_row schema columns values = Next row ->
  TableSchema.validate_row schema row = Ok validated ->
  In stored (default [] (table_rows s t)) ->
  is_None (row_get pk stored) = false ->
  Py.eq (row_get pk validated) (row_get pk stored) = true ->
  fst (execute (INSERT t columns values) s) = s
  /\ Envelope.success (snd (execute (INSERT t columns values) s)) = false.
Proof.
  intros Hs Hpk Htruthy (ix & rows & Hix & _ & Hrows & Hagree) Hrow Hv
    Hin Hnone Heq.
  rewrite Hrows in Hin. simpl in Hin.
  unfold execute, dispatch, _execute_insert, bind, gets,
    SchemaManager.get_schema.
  rewrite Hs, Hrow, Hv.
  destruct (check_unique_columns (index_mgr s) t validated
              (TableSchema.unique_constraints schema)) as [[]|env0] eqn:Hu.
  2: { apply check_unique_columns_return in Hu. unfold ret. simpl. auto. }
  unfold check_primary_key. rewrite Hpk, Htruthy, Hix.
  rewrite (py_eq_None _ _ Heq) in Hnone. rewrite Hnone. simpl.
  rewrite Hagree.
  destruct (positions_from pk (row_get pk validated) rows 0) eqn:Hpos.
  - exfalso. eapply positions_from_hit; eauto.
    rewrite <- (py_eq_None _ _ Heq) in Hnone. exact Hnone.
  - simpl. unfold ret. simpl. auto.
Qed.

Lemma insert_rejects_a_duplicate_primary_key_witness :
  fst (execute (INSERT "people" None [VBool true; VStr "Cy"]) two_people)
  = two_people
  /\ Envelope.success
       (snd (execute (INSERT "people" None [VBool true; VStr "Cy"])
               two_people))
     = false.
Proof.
  refine (insert_rejects_a_duplicate_primary_key "people" "id" None
            [VBool true; VStr "Cy"] two_people people_schema
            [("id", VBool true); ("name", VStr "Cy")]
            [("id", VBool true); ("name", VStr "Cy")]
            (person 1 "Ann") _ _ _ _ _ _ _ _ _).
  - vm_compute. reflexivity.
  - reflexivity.
  - reflexivity.
  - exists (Index.Build "people" "id" true [(VInt 1, [0]); (VInt 2, [1])]),
      [person 1 "Ann"; person 2 "Bob"].
    split; [vm_compute; reflexivity|]. split; [reflexivity|].
    split; [vm_compute; reflexivity|].
    intros v.
    destruct (build_from_lookup [person 1 "Ann"; person 2 "Bob"]
                (Index.with_map (id_index true) [])
                (Index.Build "people" "id" true
                   [(VInt 1, [0]); (VInt 2, [1])]) 0 eq_refl)
      as (_ & _ & H).
    exact (H v).
  - reflexivity.
  - vm_compute. reflexivity.
  - vm_compute. auto.
  - reflexivity.
  - vm_compute. reflexivity.
Defined.

Lemma positions_from_app (c : string) (v : value) (rows rows' : list Row) :
  forall i : nat,
    positions_from c v (rows ++ rows') i
    = positions_from c v rows i ++ positions_from c v rows' (i + length rows).
Proof.
  induction rows as [|row rows IH]; intros i; simpl.
  - rewrite Nat.add_0_r. reflexivity.
  - rewrite IH, <- app_assoc.
    replace (S i + length rows) with (i + S (length rows)) by lia.
    reflexivity.
Qed.

Lemma add_to_each_get (c : string) (row : Row) (i : nat) (ixs : dict Index.t) :
  forall (ixs' : dict Index.t) (ix : Index.t),
    add_to_each ixs row i = (ixs', Ok tt) ->
    dict_get c ixs = Some ix ->
    exists ix',
      dict_get c ixs' = Some ix'
      /\ if is_None (row_get c row) then ix' = ix
         else Index.add ix (row_get c row) i = (ix', Ok tt).
Proof.
  induction ixs as [|[k index] ixs IH]; simpl; intros ixs' ix Hadd Hget;
    [discriminate|].
  destruct (is_None (row_get k row)) eqn:Hnone; simpl in Hadd.
  - destruct (add_to_each ixs row i) as [ixs'' r] eqn:Hrest.
    injection Hadd as <- ->. simpl.
    destruct (String.eqb_spec c k) as [->|Hne].
    + injection Hget as <-. exists index. rewrite Hnone. auto.
    + apply (IH _ _ eq_refl Hget).
  - destruct (Index.add index (row_get k row) i) as [index' [[]|e]] eqn:Hi;
      [|discriminate].
    destruct (add_to_each ixs row i) as [ixs'' r] eqn:Hrest.
    injection Hadd as <- ->. simpl.
    destruct (String.eqb_spec c k) as [->|Hne].
    + injection Hget as <-. exists index'. rewrite Hnone. auto.
    + apply (IH _ _ eq_refl Hget).
Qed.

Lemma get_index_Some (m : IndexManager.t) (t c : string)
    (ixs : dict Index.t) :
  m !! t = Some ixs -> IndexManager.get_index m t c = dict_get c ixs.
Proof.
  intros H. unfold IndexManager.get_index.
  match goal with
  | |- context [default [] ?x] =>
      replace x with (Some ixs) by (symmetry; exact H)
  end.
  reflexivity.
Qed.

Lemma get_index_None (m : IndexManager.t) (t c : string) :
  m !! t = None -> IndexManager.get_index m t c = None.
Proof.
  intros H. unfold IndexManager.get_index.
  match goal with
  | |- context [default [] ?x] =>
      replace x with (@None (dict Index.t)) by (symmetry; exact H)
  end.
  reflexivity.
Qed.

Lemma get_index_insert (m : IndexManager.t) (t c : string)
    (ixs : dict Index.t) :
  IndexManager.get_index (<[t := ixs]> m) t c = dict_get c ixs.
Proof.
  unfold IndexManager.get_index. rewrite lookup_insert_eq. reflexivity.
Qed.

(** X21.  INSERT keeps an index in agreement with its table: when the
    index of a column answers with the positions of the rows before an
    INSERT that reports success, it does so after it, the new row
    included. *)
Theorem insert_keeps_the_index_in_agreement (t c : string)
    (columns : option (list string)) (values : list value)
    (s s' : State) (env : Envelope.t) :
  heap_ok s ->
  index_agrees s t c ->
  execute (INSERT t columns values) s = (s', env) ->
  Envelope.success env = true ->
  index_agrees s' t c.
Proof.
  intros Hheap (ix & rows & Hix & Hcol & Hrows & Hagree) Hexec Hok.
  destruct (insert_rows t columns values s s' env rows Hheap Hexec Hok Hrows)
    as (schema & row & validated & _ & _ & _ & Hrows' & _ & _ & _ & Hupd).
  unfold update_indexes, on_index_mgr in Hupd.
  unfold IndexManager.get_index in Hix.
  destruct (index_mgr s !! t) as [ixs|] eqn:Hm; [|discriminate Hix].
  simpl in Hix.
  destruct (add_to_each ixs validated (length rows)) as [ixs' r] eqn:Hadd.
  injection Hupd as Hm' ->.
  destruct (add_to_each_get c validated (length rows) ixs ixs' ix Hadd Hix)
    as (ix' & Hget & Hix').
  exists ix', (rows ++ [validated]).
  split; [rewrite <- Hm'; rewrite get_index_insert; exact Hget|].
  destruct (is_None (row_get c validated)) eqn:Hnone.
  - subst ix'. split; [exact Hcol|]. split; [exact Hrows'|].
    intros v. rewrite positions_from_app, Hagree. simpl.
    rewrite Hnone. simpl. rewrite app_nil_r. reflexivity.
  - destruct (add_lookup _ _ _ _ Hnone Hix') as (Hl & Hc & _).
    split; [congruence|]. split; [exact Hrows'|].
    intros v. rewrite positions_from_app, Hl, Hagree. simpl.
    rewrite Hnone. simpl.
    destruct (Py.eq v (row_get c validated)); simpl;
      [reflexivity|rewrite app_nil_r; reflexivity].
Qed.

Lemma insert_keeps_the_index_in_agreement_witness :
  index_agrees
    (fst (execute (INSERT "people" None [VInt 3; VStr "Cy"]) two_people))
    "people" "id".
Proof.
  refine (insert_keeps_the_index_in_agreement "people" "id" None
            [VInt 3; VStr "Cy"] two_people _ _ _ _ _ _).
  - apply map_Forall_to_list. vm_compute. repeat constructor.
  - exists (Index.Build "people" "id" true [(VInt 1, [0]); (VInt 2, [1])]),
      [person 1 "Ann"; person 2 "Bob"].
    split; [vm_compute; reflexivity|]. split; [reflexivity|].
    split; [vm_compute; reflexivity|].
    intros v.
    destruct (build_from_lookup [person 1 "Ann"; person 2 "Bob"]
                (Index.with_map (id_index true) [])
                (Index.Build "people" "id" true
                   [(VInt 1, [0]); (VInt 2, [1])]) 0 eq_refl)
      as (_ & _ & H).
    exact (H v).
  - apply surjective_pairing.
  - vm_compute. reflexivity.
Defined.

Lemma rebuild_each_get (rows : list Row) (c : string) (ixs : dict Index.t) :
  forall (ixs' : dict Index.t) (ix : Index.t),
    IndexManager.rebuild_each ixs rows = (ixs', Ok tt) ->
    dict_get c ixs' = Some ix ->
    exists ix0, Index.build ix0 rows = (ix, Ok tt).
Proof.
  induction ixs as [|[k index] ixs IH]; simpl; intros ixs' ix Hre Hget.
  - injection Hre as <-. discriminate.
  - destruct (Index.build index rows) as [index' [[]|e]] eqn:Hb;
      [|discriminate].
    destruct (IndexManager.rebuild_each ixs rows) as [ixs'' r] eqn:Hrest.
    injection Hre as <- ->. simpl in Hget.
    destruct (String.eqb c k).
    + injection Hget as <-. eauto.
    + eapply IH; eauto.
Qed.

(** After [save_and_rebuild] has returned, every index of the table was
    built from the rows of the table. *)
Lemma save_and_rebuild_indexes (t : string) (locs : list loc)
    (s s' : State) (c : string) (ix : Index.t) (rows : list Row) :
  save_and_rebuild t locs s = (s', Ok tt) ->
  IndexManager.get_index (index_mgr s') t c = Some ix ->
  table_rows s' t = Some rows ->
  exists ix0, Index.build ix0 rows = (ix, Ok tt).
Proof.
  intros H Hix Hrows.
  pose proof (save_and_rebuild_tables _ _ _ _ _ H) as (Hh & _ & Htab).
  unfold save_and_rebuild in H.
  apply bind_inv in H as [(s1 & [] & H1 & H)|(e & _ & ?)]; [|discriminate].
  unfold on_storage, StorageEngine.update_rows in H1.
  destruct (StorageEngine.tables (storage s) !! t) as [old|] eqn:Ht;
    [|discriminate].
  injection H1 as <-.
  apply bind_inv in H as [(s2 & contents & H2 & H)|(e & _ & ?)];
    [|discriminate].
  unfold read_rows, gets in H2. injection H2 as <- <-. simpl in H.
  unfold on_index_mgr, IndexManager.rebuild_indexes in H. simpl in H.
  unfold table_rows in Hrows. rewrite Htab, lookup_insert_eq, Hh in Hrows.
  simpl in Hrows. injection Hrows as <-.
  destruct (index_mgr s !! t) as [ixs|] eqn:Hm.
  - destruct (IndexManager.rebuild_each ixs (map (deref (heap_of s)) locs))
      as [ixs' r] eqn:Hre.
    injection H as <- ->.
    cbn [index_mgr with_index_mgr with_storage] in Hix.
    rewrite get_index_insert in Hix.
    eapply rebuild_each_get; eauto.
  - injection H as <-.
    cbn [index_mgr with_index_mgr with_storage] in Hix.
    rewrite (get_index_None _ _ _ Hm) in Hix. discriminate.
Qed.

Lemma rebuilds_success (c : Command) (t : string) (s s' : State)
    (env : Envelope.t) :
  rebuilds c = Some t ->
  execute c s = (s', env) ->
  Envelope.success env = true ->
  exists s1 locs, save_and_rebuild t locs s1 = (s', Ok tt).
Proof.
  intros Hc Hexec Hok. unfold execute in Hexec.
  destruct (dispatch c s) as [s1 [env1|e]] eqn:H;
    inversion Hexec; subst; clear Hexec; [|discriminate].
  destruct c; try discriminate; injection Hc as ->; simpl in H.
  - unfold _execute_update in H.
    apply bind_inv in H as [(s1 & schema & H1 & H)|(e & _ & ?)];
      [|discriminate].
    destruct schema as [schema|]; [|inversion H; subst; discriminate].
    apply bind_inv in H as [(s2 & rows & H2 & H)|(e & _ & ?)];
      [|discriminate].
    apply bind_inv in H as [(s3 & out & H3 & H)|(e & _ & ?)];
      [|discriminate].
    apply update_loop_result in H3 as (_ & _ & Hfail).
    destruct out as [[rows' n]|env0].
    + apply bind_inv in H as [(s4 & [] & H4 & H)|(e & _ & ?)];
        [|discriminate].
      inversion H; subst. eauto.
    + inversion H; subst. rewrite (Hfail env eq_refl) in Hok. discriminate.
  - unfold _execute_delete in H.
    apply bind_inv in H as [(s1 & schema & H1 & H)|(e & _ & ?)];
      [|discriminate].
    destruct schema as [schema|]; [|inversion H; subst; discriminate].
    apply bind_inv in H as [(s2 & rows & H2 & H)|(e & _ & ?)];
      [|discriminate].
    apply bind_inv in H as [(s3 & kept & H3 & H)|(e & _ & ?)];
      [|discriminate].
    apply bind_inv in H as [(s4 & [] & H4 & H)|(e & _ & ?)];
      [|discriminate].
    inversion H; subst. eauto.
Qed.

(** X22.  After an UPDATE or a DELETE has reported success, every index
    of the table answers with the positions of the rows that hold the
    value, and no two rows hold equal values, NULL apart, in a column
    whose index is unique. *)
Theorem success_leaves_unique_columns_distinct (cmd : Command)
    (t c : string) (s s' : State) (env : Envelope.t) (ix : Index.t)
    (rows : list Row) :
  rebuilds cmd = Some t ->
  execute cmd s = (s', env) ->
  Envelope.success env = true ->
  IndexManager.get_index (index_mgr s') t c = Some ix ->
  table_rows s' t = Some rows ->
  (forall v, Index.lookup ix v = positions_from (Index.column_name ix) v rows 0)
  /\ (Index.unique ix = true -> distinct_values (Index.column_name ix) rows).
Proof.
  intros Hc Hexec Hok Hix Hrows.
  destruct (rebuilds_success cmd t s s' env Hc Hexec Hok)
    as (s1 & locs & Hsave).
  destruct (save_and_rebuild_indexes t locs s1 s' c ix rows Hsave Hix Hrows)
    as (ix0 & Hbuild).
  pose proof Hbuild as Hb. unfold Index.build in Hb.
  apply build_from_lookup in Hb as (Hcol & Huniq & Hl). simpl in *.
  split.
  - intros v. rewrite Hl, Hcol. reflexivity.
  - intros Hu. rewrite Hcol.
    apply (build_from_unique rows (Index.with_map ix0 []) 0);
      [simpl; congruence|].
    unfold Index.build in Hbuild. rewrite Hbuild. reflexivity.
Qed.

Lemma success_leaves_unique_columns_distinct_witness :
  (forall v,
     Index.lookup (Index.Build "people" "id" true [(VInt 1, [0])]) v
     = positions_from "id" v [person 1 "Ann"] 0)
  /\ (true = true -> distinct_values "id" [person 1 "Ann"]).
Proof.
  refine (success_leaves_unique_columns_distinct
            (DELETE "people" (Some (Cond "id" ">" (VInt 1))))
            "people" "id" two_people _ _
            (Index.Build "people" "id" true [(VInt 1, [0])])
            [person 1 "Ann"] eq_refl _ _ _ _).
  - apply surjective_pairing.
  - vm_compute. reflexivity.
  - vm_compute. reflexivity.
  - vm_compute. reflexivity.
Defined.

(** ** The row objects of the tables *)

Lemma keeps_heap_ok_refl (s : State) : keeps_heap_ok s s.
Proof. intros H. exact H. Qed.

Lemma keeps_heap_ok_trans (s1 s2 s3 : State) :
  keeps_heap_ok s1 s2 -> keeps_heap_ok s2 s3 -> keeps_heap_ok s1 s3.
Proof. unfold keeps_heap_ok. auto. Qed.

Lemma no_new_rows_refl (s : State) : no_new_rows s s.
Proof. split; auto. Qed.

Lemma no_new_rows_trans (s1 s2 s3 : State) :
  no_new_rows s1 s2 -> no_new_rows s2 s3 -> no_new_rows s1 s3.
Proof.
  intros [Hh1 Ht1] [Hh2 Ht2]. split; [congruence|].
  intros t locs H. destruct (Ht2 t locs H) as [->|H']; auto.
Qed.

Lemma no_new_rows_keeps (s s' : State) :
  no_new_rows s s' -> keeps_heap_ok s s'.
Proof.
  intros [Hh Ht] Hok t locs H. rewrite Hh.
  destruct (Ht t locs H) as [->|H']; [constructor|exact (Hok t locs H')].
Qed.

Lemma only_indexes_no_new_rows (s s' : State) :
  only_indexes s s' -> no_new_rows s s'.
Proof. intros (Hh & Hst & _). split; [exact Hh|]. rewrite Hst. auto. Qed.

Lemma on_schema_mgr_no_new_rows {A}
    (f : SchemaManager.t -> SchemaManager.t * result A) :
  preserves no_new_rows (on_schema_mgr f).
Proof.
  intros s s' r H. unfold on_schema_mgr in H.
  destruct (f (schema_mgr s)) as [m x]. inversion H; subst.
  split; simpl; auto.
Qed.

Lemma storage_create_table_no_new_rows (t : string) :
  preserves no_new_rows
    (on_storage (fun h st => StorageEngine.create_table h st t)).
Proof.
  intros s s' r H.
  apply storage_create_table_cases in H
    as [(_ & -> & _)|(_ & _ & Hh & _ & _ & Htab)];
    [apply no_new_rows_refl|].
  split; [exact Hh|]. intros t' locs. rewrite Htab.
  destruct (decide (t = t')) as [->|Hne].
  - rewrite lookup_insert_eq. intros [= <-]. auto.
  - rewrite lookup_insert_ne by exact Hne. auto.
Qed.

Lemma storage_drop_table_no_new_rows (t : string) :
  preserves no_new_rows
    (on_storage (fun h st => StorageEngine.drop_table h st t)).
Proof.
  intros s s' r H.
  apply storage_drop_table_cases in H
    as [(_ & -> & _)|(_ & _ & Hh & _ & _ & Htab)];
    [apply no_new_rows_refl|].
  split; [exact Hh|]. intros t' locs. rewrite Htab.
  destruct (decide (t = t')) as [->|Hne].
  - rewrite lookup_delete_eq. discriminate.
  - rewrite lookup_delete_ne by exact Hne. auto.
Qed.

Ltac no_new_rows_step :=
  first [ apply on_schema_mgr_no_new_rows
        | apply storage_create_table_no_new_rows
        | apply storage_drop_table_no_new_rows
        | preserves_step no_new_rows_refl no_new_rows_trans ].

Lemma create_table_no_new_rows (t : string) (infos : list ColInfo.t)
    (pk : option string) (uq : list string) :
  preserves no_new_rows (_execute_create_table t infos pk uq).
Proof.
  unfold _execute_create_table.
  repeat (first
            [ (intros s s' r H; apply only_indexes_no_new_rows;
               exact (create_indexes_only_indexes _ _ s s' r H))
            | no_new_rows_step ]).
Qed.

Lemma drop_table_no_new_rows (t : string) :
  preserves no_new_rows (_execute_drop_table t).
Proof.
  unfold _execute_drop_table.
  repeat (first
            [ (intros s s' r H; apply only_indexes_no_new_rows;
               exact (on_index_mgr_only_indexes _ s s' r H))
            | no_new_rows_step ]).
Qed.

Lemma heap_ok_change (s s' : State) :
  heap_ok s ->
  length (heap_of s) <= length (heap_of s') ->
  StorageEngine.tables (storage s') = StorageEngine.tables (storage s) ->
  heap_ok s'.
Proof.
  intros Hok Hlen Htab t locs H. rewrite Htab in H.
  eapply Forall_impl; [exact (Hok t locs H)|]. simpl. intros; lia.
Qed.

Lemma heap_ok_only_indexes (s s' : State) :
  only_indexes s s' -> heap_ok s -> heap_ok s'.
Proof.
  intros H. apply no_new_rows_keeps, only_indexes_no_new_rows, H.
Qed.

(** A table is replaced by a list of existing row objects. *)
Lemma heap_ok_insert (s s' : State) (t : string) (locs : list loc) :
  heap_ok s ->
  heap_of s' = heap_of s ->
  StorageEngine.tables (storage s')
  = <[t := locs]> (StorageEngine.tables (storage s)) ->
  Forall (fun l => l < length (heap_of s)) locs ->
  heap_ok s'.
Proof.
  intros Hok Hh Htab Hlocs. unfold heap_ok. rewrite Htab, Hh.
  apply map_Forall_insert_2; [exact Hlocs|exact Hok].
Qed.

Lemma save_and_rebuild_heap_ok (t : string) (rows : list loc) (s s' : State)
    (r : result unit) :
  heap_ok s ->
  Forall (fun l => l < length (heap_of s)) rows ->
  save_and_rebuild t rows s = (s', r) ->
  heap_ok s'.
Proof.
  intros Hok Hrows H.
  apply save_and_rebuild_tables in H as (Hh & _ & Htab).
  destruct (StorageEngine.tables (storage s) !! t).
  - eapply heap_ok_insert; eauto.
  - eapply heap_ok_change; eauto. rewrite Hh. lia.
Qed.

Lemma filter_rows_sublist {A} (f : A -> result bool) (rows kept : list A) :
  filter_rows f rows = Ok kept -> forall x, In x kept -> In x rows.
Proof.
  revert kept. induction rows as [|r rows IH]; simpl; intros kept H.
  - inversion H. auto.
  - destruct (f r) as [b|e]; [|discriminate].
    destruct (filter_rows f rows) as [kept'|e]; [|discriminate].
    inversion H; subst; clear H. intros x Hx.
    destruct b; [destruct Hx as [->|Hx]|]; eauto.
Qed.

Lemma setitems_length (row : loc) (updates : dict value) (h : heap) :
  length (fold_left (fun h kv => setitem h row (fst kv) (snd kv)) updates h)
  = length h.
Proof.
  revert h. induction updates as [|kv updates IH]; intros h; simpl;
    [reflexivity|].
  rewrite IH. unfold setitem.
  destruct (nth_error h row); [apply length_insert|reflexivity].
Qed.

(** The loop of UPDATE makes row objects and refers to existing ones. *)
Lemma update_loop_heap (schema : TableSchema.t) (w : option Where)
    (updates : dict value) (todo : list loc) :
  forall (i : nat) (rows : list loc) (n : nat) (s s' : State)
         (r : result (flow (list loc * nat))),
    Forall (fun l => l < length (heap_of s)) rows ->
    update_loop schema w updates todo i rows n s = (s', r) ->
    length (heap_of s) <= length (heap_of s')
    /\ forall rows' n', r = Ok (Next (rows', n')) ->
                        Forall (fun l => l < length (heap_of s')) rows'.
Proof.
  induction todo as [|row todo IH]; intros i rows n s s' r Hrows; simpl.
  - unfold ret. intros H. inversion H; subst. split; [lia|].
    intros rows' n' E. inversion E; subst. exact Hrows.
  - unfold bind, gets, lift.
    destruct (matches w (deref (heap_of s) row)) as [[|]|e].
    + unfold assign_all.
      match goal with
      | |- context [TableSchema.validate_row schema ?c] =>
          destruct (TableSchema.validate_row schema c) as [validated|e]
      end.
      * unfold new_row, alloc. intros H.
        apply IH in H as [Hlen Hnext].
        -- simpl in Hlen. rewrite length_app, setitems_length in Hlen.
           split; [lia|exact Hnext].
        -- simpl. rewrite length_app, setitems_length. simpl.
           apply Forall_insert.
           ++ eapply Forall_impl; [exact Hrows|]. simpl. intros; lia.
           ++ lia.
      * destruct e; unfold ret, raise; intros H; inversion H; subst; simpl;
          rewrite setitems_length;
          (split; [lia|intros ? ? E; discriminate E]).
    + intros H. apply (IH _ _ _ _ _ _ Hrows H).
    + intros H. inversion H; subst.
      split; [lia|intros ? ? E; discriminate E].
Qed.

Lemma update_heap_ok (t : string) (updates : dict value)
    (where_ : option Where) (s s' : State) (r : result Envelope.t) :
  _execute_update t updates where_ s = (s', r) -> heap_ok s -> heap_ok s'.
Proof.
  unfold _execute_update, bind, gets, get_all_rows,
    StorageEngine.get_all_rows.
  destruct (SchemaManager.get_schema (schema_mgr s) t) as [schema|];
    [|unfold ret; intros H; inversion H; subst; auto].
  destruct (StorageEngine.tables (storage s) !! t) as [rows|] eqn:Ht;
    [|intros H; inversion H; subst; auto].
  destruct (update_loop schema where_ updates rows 0 rows 0 s)
    as [s1 out] eqn:Hloop.
  intros H Hok.
  pose proof (heap_ok_lookup s t rows Hok Ht) as Hrows.
  pose proof (update_loop_result _ _ _ _ _ _ _ _ _ _ Hloop)
    as ((Hst & _) & _ & _).
  apply update_loop_heap in Hloop as [Hlen Hnext]; [|exact Hrows].
  assert (heap_ok s1) as Hok1
      by (eapply heap_ok_change; eauto; rewrite Hst; reflexivity).
  destruct out as [[[rows' n']|env]|e].
  - destruct (save_and_rebuild t rows' s1) as [s2 x] eqn:Hsave.
    assert (s' = s2) as -> by (destruct x; inversion H; reflexivity).
    eapply save_and_rebuild_heap_ok;
      [exact Hok1|exact (Hnext rows' n' eq_refl)|exact Hsave].
  - unfold ret in H. inversion H; subst. exact Hok1.
  - inversion H; subst. exact Hok1.
Qed.

Lemma delete_heap_ok (t : string) (where_ : option Where) (s s' : State)
    (r : result Envelope.t) :
  _execute_delete t where_ s = (s', r) -> heap_ok s -> heap_ok s'.
Proof.
  unfold _execute_delete, bind, gets, get_all_rows,
    StorageEngine.get_all_rows.
  destruct (SchemaManager.get_schema (schema_mgr s) t) as [schema|];
    [|unfold ret; intros H; inversion H; subst; auto].
  destruct (StorageEngine.tables (storage s) !! t) as [rows|] eqn:Ht;
    [|intros H; inversion H; subst; auto].
  intros H Hok.
  pose proof (heap_ok_lookup s t rows Hok Ht) as Hrows.
  assert (forall kept : list loc,
            (forall x, In x kept -> In x rows) ->
            forall s2 x, save_and_rebuild t kept s = (s2, x) -> heap_ok s2)
    as Hsave.
  { intros kept Hsub s2 x Hs.
    eapply (save_and_rebuild_heap_ok t kept); [exact Hok| |exact Hs].
    apply Forall_forall. intros l Hl. rewrite Forall_forall in Hrows.
    apply Hrows. apply list_elem_of_In, Hsub, list_elem_of_In, Hl. }
  destruct where_ as [w|].
  - unfold keep_unmatched in H.
    destruct (filter_rows _ rows) as [kept|e] eqn:Hkept;
      [|inversion H; subst; exact Hok].
    destruct (save_and_rebuild t kept s) as [s2 x] eqn:Hs.
    assert (s' = s2) as -> by (destruct x; inversion H; reflexivity).
    eapply Hsave; [|exact Hs]. eapply filter_rows_sublist, Hkept.
  - unfold ret at 1 in H.
    destruct (save_and_rebuild t [] s) as [s2 x] eqn:Hs.
    assert (s' = s2) as -> by (destruct x; inversion H; reflexivity).
    eapply Hsave; [|exact Hs]. intros x0 [].
Qed.

Lemma insert_heap_ok (t : string) (columns : option (list string))
    (values : list value) (s s' : State) (r : result Envelope.t) :
  _execute_insert t columns values s = (s', r) -> heap_ok s -> heap_ok s'.
Proof.
  unfold _execute_insert, bind, gets.
  destruct (SchemaManager.get_schema (schema_mgr s) t) as [schema|];
    [|unfold ret; intros H; inversion H; subst; auto].
  destruct (build_row schema columns values) as [row|env0];
    [|unfold ret; intros H; inversion H; subst; auto].
  destruct (TableSchema.validate_row schema row) as [validated|e];
    [|destruct e; unfold ret, raise; intros H; inversion H; subst; auto].
  destruct (check_unique_columns _ _ _ _) as [[]|env0];
    [|unfold ret; intros H; inversion H; subst; auto].
  destruct (check_primary_key _ _ _ _) as [[]|env0];
    [|unfold ret; intros H; inversion H; subst; auto].
  unfold new_row, alloc, on_storage, StorageEngine.insert_row,
    get_all_rows, StorageEngine.get_all_rows. simpl.
  intros H Hok.
  assert (heap_ok (with_heap s (heap_of s ++ [validated]))) as Hok1.
  { eapply heap_ok_change; [exact Hok| |reflexivity].
    simpl. rewrite length_app. lia. }
  destruct (StorageEngine.tables (storage s) !! t) as [locs|] eqn:Ht.
  2: { inversion H; subst. exact Hok1. }
  simpl in H. rewrite save_keeps_tables in H. simpl in H.
  rewrite lookup_insert_eq in H.
  match type of H with
  | context [update_indexes ?a ?b ?c ?st] =>
      destruct (update_indexes a b c st) as [s3 x] eqn:Hupd;
      assert (heap_ok st) as Hok2
  end.
  { eapply (heap_ok_insert (with_heap s (heap_of s ++ [validated])) _ t
              (locs ++ [length (heap_of s)]));
      [exact Hok1|reflexivity|simpl; rewrite save_keeps_tables; reflexivity|].
    simpl. rewrite length_app. simpl. apply Forall_app. split.
    - eapply Forall_impl; [exact (heap_ok_lookup s t locs Hok Ht)|].
      simpl. intros; lia.
    - constructor; [lia|constructor]. }
  unfold update_indexes in Hupd.
  apply on_index_mgr_only_indexes in Hupd.
  assert (s' = s3) as -> by (destruct x; inversion H; reflexivity).
  eapply heap_ok_only_indexes; eauto.
Qed.

(** Every command keeps the tables on existing row objects. *)
Lemma execute_heap_ok (c : Command) (s : State) :
  heap_ok s -> heap_ok (fst (execute c s)).
Proof.
  intros Hok. unfold execute.
  destruct (dispatch c s) as [s' r] eqn:H.
  assert (heap_ok s') as Hok'.
  { destruct c; simpl in H.
    - eapply no_new_rows_keeps; [eapply create_table_no_new_rows, H|exact Hok].
    - eapply no_new_rows_keeps; [eapply drop_table_no_new_rows, H|exact Hok].
    - eapply insert_heap_ok; eauto.
    - apply select_unchanged in H. rewrite H. exact Hok.
    - eapply update_heap_ok; eauto.
    - eapply delete_heap_ok; eauto.
    - inversion H; subst. exact Hok. }
  destruct r; exact Hok'.
Qed.

Lemma json_load_bound (h : heap) (doc : snapshot) :
  map_Forall
    (fun _ locs =>
       Forall (fun l => l < length (fst (StorageEngine.json_load h doc)))
              locs)
    (snd (StorageEngine.json_load h doc)).
Proof.
  unfold StorageEngine.json_load.
  apply (map_fold_weak_ind
           (fun (acc : heap * gmap string (list loc)) (m : snapshot) =>
              map_Forall
                (fun _ locs => Forall (fun l => l < length (fst acc)) locs)
                (snd acc))).
  - intros t locs. simpl. rewrite lookup_empty. discriminate.
  - intros name rows m [h1 tbl] Hfresh Hbound. simpl in *.
    apply map_Forall_insert_2.
    + apply Forall_forall. intros l Hl.
      apply list_elem_of_In, in_seq in Hl. rewrite length_app. lia.
    + intros t locs Ht.
      eapply Forall_impl; [exact (Hbound t locs Ht)|].
      simpl. intros l Hl. rewrite length_app. lia.
Qed.

Lemma start_heap_ok (data_file : option string) (file : option snapshot) :
  heap_ok (start data_file file).
Proof.
  assert (heap_ok (MkState [] (StorageEngine.Build ∅ data_file file) ∅ ∅))
    as Hempty.
  { intros t locs H. simpl in H. rewrite lookup_empty in H. discriminate. }
  destruct (loaded data_file file) as [doc|] eqn:Hl.
  - unfold loaded in Hl.
    destruct (opt_str_truthy data_file) eqn:Htruthy; [|discriminate].
    subst file.
    unfold start, StorageEngine.init, StorageEngine.load_from_disk.
    cbn [StorageEngine.file StorageEngine.data_file].
    rewrite Htruthy.
    pose proof (json_load_bound [] doc) as H.
    destruct (StorageEngine.json_load [] doc) as [h tbl]. exact H.
  - rewrite (start_without_snapshot _ _ Hl). exact Hempty.
Qed.

(** In every state the engine reaches from its start, whatever the
    commands and their outcomes, the tables refer to row objects that
    exist. *)
Lemma reachable_states_have_their_rows (cmds : list Command)
    (data_file : option string) (file : option snapshot) :
  heap_ok (run cmds (start data_file file)).
Proof.
  unfold run.
  generalize (start_heap_ok data_file file).
  generalize (start data_file file).
  induction cmds as [|c cmds IH]; intros s Hok; simpl; [exact Hok|].
  apply IH, execute_heap_ok, Hok.
Qed.

(** ** LIMIT *)

Lemma order_and_limit_slice (order_by : option string) (n : Z)
    (rows : list Row) :
  n <> 0%Z ->
  order_and_limit order_by (Some n) rows
  = slice_to n (order_and_limit order_by None rows).
Proof.
  intros Hn. unfold order_and_limit. simpl.
  destruct (n =? 0)%Z eqn:E; [lia|]. reflexivity.
Qed.

(** X23.  LIMIT cuts the answer of the same SELECT without LIMIT: a limit
    above zero keeps its first rows, at most as many as the limit, and a
    limit below zero drops its last rows.  A SELECT that fails without
    the LIMIT fails with it. *)
Theorem limit_cuts_the_unlimited_answer (columns : list string)
    (table : string) (where_ : option Where) (join : option Join.t)
    (order_by : option string) (n : Z) (s : State) :
  n <> 0%Z ->
  Envelope.data
    (snd (execute (SELECT columns table where_ join order_by (Some n)) s))
  = slice_to n
      <$> Envelope.data
            (snd (execute (SELECT columns table where_ join order_by None) s))
  /\ forall rows,
       Envelope.data
         (snd (execute (SELECT columns table where_ join order_by (Some n))
                 s))
       = Some rows ->
       (0 < n)%Z -> length rows <= Z.to_nat n.
Proof.
  intros Hn.
  assert (Envelope.data
            (snd (execute (SELECT columns table where_ join order_by (Some n))
                    s))
          = slice_to n
              <$> Envelope.data
                    (snd (execute
                            (SELECT columns table where_ join order_by None)
                            s))) as Hcut.
  { unfold execute, dispatch, _execute_select, bind, gets.
    destruct (SchemaManager.get_schema (schema_mgr s) table);
      [|reflexivity].
    destruct (get_all_rows table s) as [s1 [objs|e]]; [|reflexivity].
    unfold read_rows, gets.
    match goal with
    | |- context [match ?w s1 with _ => _ end] =>
        destruct (w s1) as [s2 [rows1|e]]; [|reflexivity]
    end.
    match goal with
    | |- context [match ?w s2 with _ => _ end] =>
        destruct (w s2) as [s3 [rows2|e]]; [|reflexivity]
    end.
    unfold ret. simpl. rewrite order_and_limit_slice by exact Hn.
    reflexivity. }
  split; [exact Hcut|].
  intros rows Hrows Hpos. rewrite Hcut in Hrows.
  match type of Hrows with
  | context [slice_to n <$> ?d] => destruct d as [all|]; [|discriminate Hrows]
  end.
  simpl in Hrows. injection Hrows as <-. apply length_slice_to. lia.
Qed.

Lemma limit_cuts_the_unlimited_answer_witness :
  Envelope.data
    (snd (execute (SELECT ["*"] "people" None None None (Some (-1)%Z))
            two_people))
  = Some [person 1 "Ann"].
Proof.
  refine (proj1 (limit_cuts_the_unlimited_answer ["*"] "people" None None
                   None (-1) two_people _)).
  discriminate.
Defined.

(** ** JOIN conditions *)

Lemma split_on_no_sep (c : ascii) (s : string) :
  contains_char c s = false -> split_on c s = [s].
Proof.
  induction s as [|d s IH]; simpl; [reflexivity|].
  destruct (Ascii.eqb c d); [discriminate|].
  intros H. rewrite (IH H). reflexivity.
Qed.

Lemma split_on_prefix (c : ascii) (t rest : string) :
  contains_char c t = false ->
  split_on c (t +:+ String c rest) = t :: split_on c rest.
Proof.
  induction t as [|d t IH]; simpl.
  - rewrite Ascii.eqb_refl. reflexivity.
  - destruct (Ascii.eqb c d); [discriminate|].
    intros H. rewrite (IH H). reflexivity.
Qed.

Lemma contains_char_app (c : ascii) (t rest : string) :
  contains_char c (t +:+ String c rest) = true.
Proof.
  induction t as [|d t IH]; simpl.
  - rewrite Ascii.eqb_refl. reflexivity.
  - destruct (Ascii.eqb c d); [reflexivity|exact IH].
Qed.

(** X24.  The table name in a column reference of a JOIN condition is
    ignored: [t.c] reads the column [c] of the row at hand, whatever [t]
    is, so the side of the condition decides which table is read, not the
    name. *)
Theorem join_value_ignores_the_table (row : Row) (t c : string) :
  contains_char "." t = false ->
  contains_char "." c = false ->
  _extract_join_value row (t +:+ "." +:+ c) = row_get c row.
Proof.
  intros Ht Hc. unfold _extract_join_value.
  change (t +:+ "." +:+ c) with (t +:+ String "." c).
  rewrite contains_char_app, split_on_prefix by exact Ht.
  rewrite split_on_no_sep by exact Hc. reflexivity.
Qed.

Lemma join_value_ignores_the_table_witness :
  _extract_join_value (person 1 "Ann") "orders.id" = VInt 1.
Proof.
  exact (join_value_ignores_the_table (person 1 "Ann") "orders" "id"
           eq_refl eq_refl).
Defined.

(** ** The parser's helpers *)

Lemma contains_step (sub : string) (c : ascii) (s : string) :
  SQLParser.contains sub (String c s)
  = String.prefix sub (String c s) || SQLParser.contains sub s.
Proof.
  change (SQLParser.contains sub (String c s))
    with (if String.prefix sub (String c s) then true
          else SQLParser.contains sub s).
  destruct (String.prefix sub (String c s)); reflexivity.
Qed.

Lemma contains_prefix (sub s : string) :
  String.prefix sub s = true -> SQLParser.contains sub s = true.
Proof. destruct s; simpl; intros ->; reflexivity. Qed.

(** A text that holds two characters in a row holds the second. *)
Lemma contains_second (a b : ascii) (s : string) :
  SQLParser.contains (String a (String b "")) s = true ->
  SQLParser.contains (String b "") s = true.
Proof.
  induction s as [|c s IH]; [discriminate|].
  rewrite !contains_step. intros H.
  apply orb_true_iff in H as [H|H].
  - apply orb_true_iff. right. apply contains_prefix.
    simpl in H. destruct (ascii_dec a c); [exact H|discriminate].
  - apply orb_true_iff. right. apply IH, H.
Qed.

(** X25.  [_extract_operator] answers with one of [>=], [<=], [>], [<]
    and [=], and never with [!=]: a text that holds [!=] holds [=], and
    one that holds [<>] holds [>], which are tested first. *)
Theorem extract_operator_is_never_not_equal (comp_str : string) :
  In (SQLParser._extract_operator comp_str) [">="; "<="; ">"; "<"; "="]
  /\ SQLParser._extract_operator comp_str <> "!=".
Proof.
  unfold SQLParser._extract_operator.
  destruct (SQLParser.contains ">=" comp_str);
    [split; [simpl; auto|discriminate]|].
  destruct (SQLParser.contains "<=" comp_str);
    [split; [simpl; auto|discriminate]|].
  destruct (SQLParser.contains ">" comp_str) eqn:Hgt;
    [split; [simpl; auto|discriminate]|].
  destruct (SQLParser.contains "<" comp_str);
    [split; [simpl; auto 6|discriminate]|].
  destruct (SQLParser.contains "=" comp_str) eqn:Heq;
    [split; [simpl; auto 6|discriminate]|].
  destruct (SQLParser.contains "!=" comp_str) eqn:Hne.
  - apply contains_second in Hne. congruence.
  - destruct (SQLParser.contains "<>" comp_str) eqn:Hlg.
    + apply contains_second in Hlg. congruence.
    + split; [simpl; auto 6|discriminate].
Qed.

Lemma split_once_cases (c : ascii) (s : string) :
  if contains_char c s
  then exists a b, SQLParser.split_once c s = [a; b]
  else SQLParser.split_once c s = [s].
Proof.
  induction s as [|d s IH]; simpl; [reflexivity|].
  destruct (Ascii.eqb c d); [eauto|].
  destruct (contains_char c s).
  - destruct IH as (a & b & ->). eauto.
  - rewrite IH. reflexivity.
Qed.

(** X26.  A comparison is parsed into a condition exactly when its text
    holds an equals sign: a comparison with [>] or [<] alone is rejected
    as invalid. *)
Theorem condition_needs_an_equals_sign (comp_str : string) :
  if contains_char "=" comp_str
  then exists col v,
      SQLParser.condition_of comp_str
      = Ok (Cond col (SQLParser._extract_operator comp_str) v)
  else SQLParser.condition_of comp_str
       = Raise (ValueError ("Invalid comparison: " +:+ comp_str)).
Proof.
  unfold SQLParser.condition_of, SQLParser._parse_comparison.
  pose proof (split_once_cases "=" comp_str) as H.
  destruct (contains_char "=" comp_str).
  - destruct H as (a & b & ->). eauto.
  - rewrite H. reflexivity.
Qed.

Lemma list_ascii_of_string_app (s t : string) :
  list_ascii_of_string (s +:+ t)
  = list_ascii_of_string s ++ list_ascii_of_string t.
Proof. induction s as [|c s IH]; simpl; [reflexivity|]. rewrite IH. reflexivity. Qed.

Lemma lstrip_keeps (c : ascii) (cs : list ascii) :
  is_space c = false -> lstrip (c :: cs) = c :: cs.
Proof. intros H. simpl. rewrite H. reflexivity. Qed.

(** [strip] leaves a text between two characters that are not spaces. *)
Lemma strip_between (c d : ascii) (cs : list ascii) :
  is_space c = false -> is_space d = false ->
  strip (c :: cs ++ [d]) = c :: cs ++ [d].
Proof.
  intros Hc Hd. unfold strip. rewrite (lstrip_keeps c) by exact Hc.
  change (c :: cs ++ [d]) with ((c :: cs) ++ [d]).
  rewrite rev_app_distr. simpl rev at 2.
  change ([d] ++ rev (c :: cs)) with (d :: rev (c :: cs)).
  rewrite (lstrip_keeps d) by exact Hd.
  change (d :: rev (c :: cs)) with ([d] ++ rev (c :: cs)).
  rewrite rev_app_distr, rev_involutive. reflexivity.
Qed.

Lemma quoted_literal (q : ascii) (s : string) :
  is_space q = false ->
  SQLParser.strip_str (String q (s +:+ String q "")) = String q (s +:+ String q "")
  /\ SQLParser.startswith q (String q (s +:+ String q "")) = true
  /\ SQLParser.endswith q (String q (s +:+ String q "")) = true
  /\ SQLParser.inner (String q (s +:+ String q "")) = s.
Proof.
  intros Hq.
  assert (list_ascii_of_string (String q (s +:+ String q ""))
          = q :: list_ascii_of_string s ++ [q]) as Hl.
  { simpl. rewrite list_ascii_of_string_app. reflexivity. }
  repeat split.
  - unfold SQLParser.strip_str. rewrite Hl, strip_between by assumption.
    rewrite <- Hl. apply string_of_list_ascii_of_string.
  - simpl. apply Ascii.eqb_refl.
  - unfold SQLParser.endswith. rewrite Hl.
    change (q :: list_ascii_of_string s ++ [q])
      with ((q :: list_ascii_of_string s) ++ [q]).
    rewrite rev_app_distr. simpl. apply Ascii.eqb_refl.
  - unfold SQLParser.inner. rewrite Hl. simpl tl.
    rewrite removelast_last. apply string_of_list_ascii_of_string.
Qed.

(** X27.  A text between two single quotes, or between two double
    quotes, is parsed into the string between them, whatever it holds:
    digits, [NULL], spaces at its ends or quotes. *)
Theorem parse_value_of_a_quoted_text (q : ascii) (s : string) :
  q = "'"%char \/ q = double_quote ->
  SQLParser._parse_value (String q (s +:+ String q "")) = VStr s.
Proof.
  intros Hq.
  assert (is_space q = false) as Hsp by (destruct Hq; subst; reflexivity).
  destruct (quoted_literal q s Hsp) as (H1 & H2 & H3 & H4).
  unfold SQLParser._parse_value. rewrite H1.
  destruct Hq; subst q; rewrite H2, H3, H4; simpl; rewrite ?orb_true_r;
    reflexivity.
Qed.

Lemma parse_value_of_a_quoted_text_witness :
  SQLParser._parse_value "' 42 '" = VStr " 42 ".
Proof.
  apply (parse_value_of_a_quoted_text "'" " 42 "). left. reflexivity.
Defined.

(** *** Integer literals *)

Lemma digits_tail_acc (d : Decimal.uint) :
  forall (p : positive) (len : nat),
    exists len',
      digits_tail (list_ascii_of_string (NilEmpty.string_of_uint d))
                  (Z.pos p) len
      = (Z.pos (Pos.of_uint_acc d p), len', []).
Proof.
  induction d; intros p len; simpl list_ascii_of_string;
    [simpl; eauto|..];
    match goal with
    | |- context [digits_tail (?c :: ?cs) ?acc ?len] =>
        change (digits_tail (c :: cs) acc len)
          with (digits_tail cs (10 * acc + digit_val c) (S len))
    end;
    match goal with
    | |- context [(10 * Z.pos p + digit_val ?c)%Z] =>
        let k := eval vm_compute in (digit_val c) in
        change (digit_val c) with k
    end;
    cbn [Pos.of_uint_acc];
    match goal with
    | |- context [Pos.of_uint_acc _ ?q] =>
        match goal with
        | |- context [digits_tail _ ?z _] =>
            replace z with (Z.pos q) by lia
        end
    end;
    apply IHd.
Qed.

Lemma digits_tail_zero (d : Decimal.uint) :
  forall len : nat,
    exists len',
      digits_tail (list_ascii_of_string (NilEmpty.string_of_uint d)) 0 len
      = (Z.of_N (Pos.of_uint d), len', []).
Proof.
  induction d; intros len; simpl list_ascii_of_string;
    [simpl; eauto|..];
    match goal with
    | |- context [digits_tail (?c :: ?cs) ?acc ?len] =>
        change (digits_tail (c :: cs) acc len)
          with (digits_tail cs (10 * acc + digit_val c) (S len))
    end;
    match goal with
    | |- context [(10 * 0 + digit_val ?c)%Z] =>
        let k := eval vm_compute in (10 * 0 + digit_val c)%Z in
        change (10 * 0 + digit_val c)%Z with k
    end;
    cbn [Pos.of_uint Z.of_N];
    first [apply IHd | apply digits_tail_acc].
Qed.

Lemma numeral_char_facts (c : ascii) :
  numeral_char c = true ->
  is_space c = false /\ SQLParser.upper_char c = c
  /\ Ascii.eqb c "'" = false /\ Ascii.eqb c double_quote = false
  /\ Ascii.eqb "." c = false /\ Ascii.eqb c "T" = false
  /\ Ascii.eqb c "F" = false /\ Ascii.eqb c "N" = false.
Proof.
  destruct c as [[] [] [] [] [] [] [] []]; vm_compute; intros H;
    try discriminate H; repeat split.
Qed.

Lemma digit_facts (c : ascii) :
  is_digit c = true ->
  numeral_char c = true /\ Ascii.eqb c "-" = false /\ Ascii.eqb c "+" = false.
Proof.
  destruct c as [[] [] [] [] [] [] [] []]; vm_compute; intros H;
    try discriminate H; repeat split.
Qed.

Lemma uint_digits (d : Decimal.uint) :
  Forall (fun c => is_digit c = true)
         (list_ascii_of_string (NilEmpty.string_of_uint d)).
Proof. induction d; simpl; constructor; (reflexivity || assumption). Qed.

Lemma strip_no_space (cs : list ascii) :
  Forall (fun c => is_space c = false) cs -> strip cs = cs.
Proof.
  intros H. unfold strip.
  assert (forall l, Forall (fun c => is_space c = false) l -> lstrip l = l)
    as Hl.
  { intros l Hf. destruct Hf as [|c l Hc _]; [reflexivity|].
    apply lstrip_keeps, Hc. }
  rewrite (Hl cs H). rewrite Hl by (apply Forall_rev, H).
  apply rev_involutive.
Qed.

Lemma digitpart_digits (cs : list ascii) :
  Forall (fun c => is_digit c = true) cs -> cs <> [] ->
  digitpart cs = Some (digits_tail cs 0 0).
Proof.
  intros H Hne. destruct H as [|c cs Hc _]; [congruence|].
  simpl. rewrite Hc. reflexivity.
Qed.

Lemma sign_of_digits (cs : list ascii) :
  Forall (fun c => is_digit c = true) cs -> sign_of cs = (false, cs).
Proof.
  intros H. destruct H as [|c cs Hc _]; [reflexivity|].
  destruct (digit_facts c Hc) as (_ & H1 & H2).
  simpl. rewrite H1, H2. reflexivity.
Qed.

Lemma to_uint_chars (p : positive) :
  NilZero.string_of_uint (Pos.to_uint p)
  = NilEmpty.string_of_uint (Pos.to_uint p)
  /\ list_ascii_of_string (NilEmpty.string_of_uint (Pos.to_uint p)) <> [].
Proof.
  pose proof (DecimalPos.Unsigned.to_uint_nonnil p) as H.
  destruct (Pos.to_uint p); [congruence|..]; split; try reflexivity;
    simpl; discriminate.
Qed.

(** The characters of [str(n)]. *)
Lemma str_of_Z_chars (n : Z) :
  exists (c : ascii) (s : string),
    str_of_Z n = String c s
    /\ Forall (fun c => numeral_char c = true)
              (list_ascii_of_string (str_of_Z n)).
Proof.
  assert (forall p,
            exists c s,
              NilEmpty.string_of_uint (Pos.to_uint p) = String c s
              /\ Forall (fun c => numeral_char c = true)
                   (list_ascii_of_string
                      (NilEmpty.string_of_uint (Pos.to_uint p)))) as Hp.
  { intros p. destruct (to_uint_chars p) as [_ Hne].
    pose proof (uint_digits (Pos.to_uint p)) as Hd.
    destruct (NilEmpty.string_of_uint (Pos.to_uint p)) as [|c s];
      [simpl in Hne; congruence|].
    exists c, s. split; [reflexivity|].
    eapply Forall_impl; [exact Hd|]. intros a Ha. apply digit_facts, Ha. }
  unfold str_of_Z. destruct n as [|p|p]; simpl.
  - exists "0"%char, "". split; [reflexivity|]. repeat constructor.
  - destruct (to_uint_chars p) as [-> _]. apply Hp.
  - destruct (to_uint_chars p) as [-> _].
    destruct (Hp p) as (c & s & _ & Hall).
    exists "-"%char, (NilEmpty.string_of_uint (Pos.to_uint p)).
    split; [reflexivity|]. simpl. constructor; [reflexivity|exact Hall].
Qed.

(** [int(str(n))] is [n]. *)
Lemma int_of_str_of_Z (n : Z) : int_of_str (str_of_Z n) = Some n.
Proof.
  unfold int_of_str.
  destruct (str_of_Z_chars n) as (c0 & s0 & _ & Hall).
  rewrite strip_no_space
    by (eapply Forall_impl; [exact Hall|]; intros a Ha;
        apply numeral_char_facts, Ha).
  clear c0 s0 Hall.
  unfold str_of_Z. destruct n as [|p|p]; simpl Z.to_int;
    unfold NilZero.string_of_int.
  - reflexivity.
  - destruct (to_uint_chars p) as [-> Hne].
    rewrite sign_of_digits by apply uint_digits. cbv beta iota zeta.
    rewrite digitpart_digits by (apply uint_digits || exact Hne).
    destruct (digits_tail_zero (Pos.to_uint p) 0) as [len' ->].
    rewrite DecimalPos.Unsigned.of_to. reflexivity.
  - destruct (to_uint_chars p) as [-> Hne].
    simpl list_ascii_of_string. simpl sign_of. cbv beta iota zeta.
    rewrite digitpart_digits by (apply uint_digits || exact Hne).
    destruct (digits_tail_zero (Pos.to_uint p) 0) as [len' ->].
    rewrite DecimalPos.Unsigned.of_to. reflexivity.
Qed.

Lemma numeral_has_no_point (s : string) :
  Forall (fun c => numeral_char c = true) (list_ascii_of_string s) ->
  contains_char "." s = false.
Proof.
  induction s as [|c s IH]; intros H; [reflexivity|].
  simpl in H. cbn [contains_char].
  apply Forall_cons in H as [Hc H].
  destruct (numeral_char_facts c Hc) as (_ & _ & _ & _ & -> & _).
  apply IH, H.
Qed.

(** X28.  The decimal numeral of an integer is parsed into that integer:
    [_parse_value(str(n))] is [n].  The bound is the one Python puts on
    conversions between integers and text. *)
Theorem parse_value_of_a_numeral (n : Z) :
  (Z.abs n < 10 ^ 4300)%Z ->
  SQLParser._parse_value (str_of_Z n) = VInt n.
Proof.
  intros _.
  destruct (str_of_Z_chars n) as (c & s & Hs & Hall).
  assert (SQLParser.strip_str (str_of_Z n) = str_of_Z n) as Hstrip.
  { unfold SQLParser.strip_str. rewrite strip_no_space.
    - apply string_of_list_ascii_of_string.
    - eapply Forall_impl; [exact Hall|]. intros a Ha.
      apply numeral_char_facts, Ha. }
  unfold SQLParser._parse_value. rewrite Hstrip.
  rewrite (numeral_has_no_point _ Hall), int_of_str_of_Z.
  rewrite Hs in Hall |- *. simpl in Hall.
  apply Forall_cons in Hall as [Hc _].
  destruct (numeral_char_facts c Hc)
    as (_ & Hup & Hq & Hqq & _ & HT & HF & HN).
  simpl. rewrite Hup, Hq, Hqq, HT, HF, HN. reflexivity.
Qed.

Lemma parse_value_of_a_numeral_witness :
  SQLParser._parse_value "-42" = VInt (-42).
Proof.
  apply (parse_value_of_a_numeral (-42)). vm_compute. reflexivity.
Defined.

(** ** CREATE TABLE on a new name *)

(** X29.  A CREATE TABLE command succeeds when its column types are
    known, its primary key and its unique columns are columns of the
    table, and neither the catalog nor the row store nor the index
    manager knows the name of the table. *)
Theorem create_table_succeeds_on_a_new_name (s : State) (t : string)
    (infos : list ColInfo.t) (pk : option string) (uq : list string)
    (columns : list Column.t) :
  make_columns infos = Ok columns ->
  (opt_str_truthy pk = true ->
   SchemaManager.is_column columns (default "" pk) = true) ->
  forallb (SchemaManager.is_column columns) uq = true ->
  schema_mgr s !! t = None ->
  StorageEngine.tables (storage s) !! t = None ->
  index_mgr s !! t = None ->
  snd (execute (CREATE_TABLE t infos pk uq) s)
  = succeeded ("Table '" +:+ t +:+ "' created successfully").
Proof. apply valid_create_table_succeeds. Qed.

Lemma create_table_succeeds_on_a_new_name_witness :
  snd (execute create_people (start None None))
  = succeeded "Table 'people' created successfully".
Proof.
  refine (create_table_succeeds_on_a_new_name (start None None) "people"
            [ColInfo.Build "id" "INTEGER" None false;
             ColInfo.Build "name" "VARCHAR" (Some 3%Z) true]
            (Some "id") [] (TableSchema.columns people_schema) _ _ _ _ _ _).
  - reflexivity.
  - intros _. reflexivity.
  - reflexivity.
  - reflexivity.
  - reflexivity.
  - reflexivity.
Defined.
